(** * Appending new mbox messages to the mail index (lib-index/mbox/mbox-append.c)

    A shallow embedding of [mbox_read_message], [mbox_index_append_next] and
    [mbox_index_append], and the properties of the append engine proved over
    it.  Bytes are [ascii], buffers are lists of bytes, offsets and sizes are
    unbounded naturals (integer overflow of [size_t]/[uoff_t] is not
    modelled), [time_t] is [Z]. *)

From Stdlib Require Import Ascii String.
From Stdlib Require Import List Arith Bool ZArith NArith Lia.
Import ListNotations.

(** ** Bytes *)

Definition LF : ascii := "010"%char.
Definition CR : ascii := "013"%char.

Definition bytes (s : string) : list ascii := list_ascii_of_string s.

(** [msg[i]]; every use below is guarded by a bound check in the source. *)
Definition at_ (msg : list ascii) (i : nat) : ascii := nth i msg zero.

(** ** The buffered input stream *)

Module IOBuf.

(** Modelled from the spec: the buffered byte-stream reader (iobuffer.c is not
    part of the sources).  The spec gives it a current logical offset, a soft
    ceiling [size] that can be narrowed, a committed offset [start_offset],
    and the operations read_ahead(min_offset) -> (bytes, available_len) | end,
    advance(n) and seek(offset).  [file] holds the bytes from [start_offset]
    on; [buffered] bytes after the cursor are in memory; one read brings in
    at most [max_read] bytes and the buffer never holds more than
    [max_buffer_size]. *)
Record IOBuffer := mkIOBuffer {
  file : list ascii;
  start_offset : nat;
  offset : nat;
  size : nat;
  buffered : nat;
  max_buffer_size : nat;
  max_read : nat
}.

Definition set_size (buf : IOBuffer) (s : nat) : IOBuffer :=
  mkIOBuffer (file buf) (start_offset buf) (offset buf) s (buffered buf)
             (max_buffer_size buf) (max_read buf).

Definition set_buffered (buf : IOBuffer) (n : nat) : IOBuffer :=
  mkIOBuffer (file buf) (start_offset buf) (offset buf) (size buf) n
             (max_buffer_size buf) (max_read buf).

(** The first offset that cannot be read: the ceiling, or the end of the
    file when the ceiling lies beyond it. *)
Definition limit (buf : IOBuffer) : nat := Nat.min (size buf) (length (file buf)).

(** Modelled from the spec: io_buffer_get_data, the bytes in memory after the
    cursor. *)
Definition io_buffer_get_data (buf : IOBuffer) : list ascii :=
  firstn (buffered buf) (skipn (offset buf) (file buf)).

(** Modelled from the spec: io_buffer_read_data, the spec's read_ahead.  When
    no more than [threshold] bytes are buffered one read is made; [None] is
    the spec's "end" (a negative return: nothing more below the ceiling, or
    the buffer is full), otherwise the buffered bytes are returned. *)
Definition io_buffer_read_data (buf : IOBuffer) (threshold : nat)
  : IOBuffer * option (list ascii) :=
  if buffered buf <=? threshold then
    let n := Nat.min (max_read buf)
               (Nat.min (limit buf - (offset buf + buffered buf))
                        (max_buffer_size buf - buffered buf)) in
    if n =? 0 then (buf, None)
    else
      let buf := set_buffered buf (buffered buf + n) in
      (buf, Some (io_buffer_get_data buf))
  else (buf, Some (io_buffer_get_data buf)).

(** Modelled from the spec: io_buffer_skip, the spec's advance(n). *)
Definition io_buffer_skip (buf : IOBuffer) (n : nat) : IOBuffer :=
  mkIOBuffer (file buf) (start_offset buf) (offset buf + n) (size buf)
             (buffered buf - n) (max_buffer_size buf) (max_read buf).

(** Modelled from the spec: io_buffer_seek, the spec's seek(offset); the
    buffer is dropped. *)
Definition io_buffer_seek (buf : IOBuffer) (o : nat) : IOBuffer :=
  mkIOBuffer (file buf) (start_offset buf) o (size buf) 0
             (max_buffer_size buf) (max_read buf).

(** The buffered bytes lie below the ceiling and inside the file. *)
Definition wf (buf : IOBuffer) : Prop := offset buf + buffered buf <= limit buf.

(** Same underlying file and reader configuration. *)
Definition same_file (a b : IOBuffer) : Prop :=
  file a = file b /\ start_offset a = start_offset b /\
  max_buffer_size a = max_buffer_size b /\ max_read a = max_read b.

(** A stream opened on [data] with nothing read yet. *)
Definition open (data : list ascii) (chunk : nat) : IOBuffer :=
  mkIOBuffer data 0 0 (length data) 0 4096 chunk.

End IOBuf.
Import IOBuf.

(** ** The boundary scanner: [mbox_read_message] *)

Module Scanner.

(** Lines 37-41: [msg[i]] is the space of a [<LF>From ] in the window. *)
Definition from_space_at (msg : list ascii) (i : nat) : bool :=
  (at_ msg i =? " ")%char && (5 <=? i) &&
  (at_ msg (i - 5) =? LF)%char && (at_ msg (i - 4) =? "F")%char &&
  (at_ msg (i - 3) =? "r")%char && (at_ msg (i - 2) =? "o")%char &&
  (at_ msg (i - 1) =? "m")%char.

(** Lines 36-49: the [for] loop, with [todo] iterations left before [i]
    reaches [size]; the result is [i] after the loop. *)
Fixpoint scan_for (msg : list ascii) (todo : nat) (i : nat) : nat :=
  match todo with
  | 0 => i
  | S todo' =>
      if from_space_at msg i then
        let i := i - 5 in
        if (0 <? i) && (at_ msg (i - 1) =? CR)%char then i - 1 else i
      else scan_for msg todo' (S i)
  end.

Definition scan (msg : list ascii) (startpos : nat) : nat :=
  scan_for msg (length msg - startpos) startpos.

(** What one turn of the [while] loop (lines 35-63) leaves behind. *)
Inductive pass :=
| Stop (inbuf : IOBuffer) (startpos : nat) (lastmsg : bool)
| Again (inbuf : IOBuffer) (startpos : nat).

Definition read_pass (inbuf : IOBuffer) (startpos : nat) : pass :=
  match io_buffer_read_data inbuf startpos with
  | (inbuf, None) => Stop inbuf startpos true
  | (inbuf, Some msg) =>
      let i := scan msg startpos in
      if i <? length msg then Stop inbuf i false
      else if 0 <? i then
        let startpos := if i <? 7 then i else 7 in
        let i := i - startpos in
        Again (io_buffer_skip inbuf i) startpos
      else Again inbuf startpos
  end.

Fixpoint read_loop (fuel : nat) (inbuf : IOBuffer) (startpos : nat)
  : option (IOBuffer * nat * bool) :=
  match fuel with
  | 0 => None
  | S fuel' =>
      match read_pass inbuf startpos with
      | Stop inbuf startpos lastmsg => Some (inbuf, startpos, lastmsg)
      | Again inbuf startpos => read_loop fuel' inbuf startpos
      end
  end.

(** Lines 65-74: at the end of the file, remove the last [\r]\n. *)
Definition trim_eof (inbuf : IOBuffer) (startpos : nat) : nat :=
  let msg := io_buffer_get_data inbuf in
  if length msg =? startpos then
    let startpos :=
      if (at_ msg (startpos - 1) =? LF)%char then startpos - 1 else startpos in
    if (0 <? startpos) && (at_ msg (startpos - 1) =? CR)%char
    then startpos - 1 else startpos
  else startpos.

Definition mbox_read_message (fuel : nat) (inbuf : IOBuffer) : option IOBuffer :=
  match read_loop fuel inbuf 0 with
  | None => None
  | Some (inbuf, startpos, lastmsg) =>
      let startpos :=
        if lastmsg && (0 <? startpos) then trim_eof inbuf startpos
        else startpos in
      Some (io_buffer_skip inbuf startpos)
  end.

End Scanner.
Import Scanner.


(** ** The mail index *)

Module Index.

Inductive Field := FIELD_TYPE_LOCATION | FIELD_TYPE_MD5.

(** The bytes handed to [update_field_raw]: an offset ([uoff_t]) or a
    digest. *)
Inductive Raw :=
| RawOffset (o : nat)
| RawBytes (d : list ascii).

(** The members of [MailIndexRecord] that the append code writes. *)
Record MailIndexRecord := mkRecord {
  uid : nat;
  msg_flags : N;
  internal_date : Z
}.

(** What the header callback leaves in [MboxHeaderContext]: the message
    flags and the digest that [md5_final] gives for [ctx.md5]. *)
Record MboxHeaderContext := mkCtx {
  flags : N;
  md5 : list ascii
}.

(** The calls into the index and the header parser, and the stores into a
    record of the mapped index, in the order in which they happen.  [rec] is
    the position of the record in the index. *)
Inductive Event :=
| EvSetError (msg : string)
| EvSetLock (ok : bool)
| EvAppend (date : Z) (res : option nat)
| EvUpdateBegin (rec : nat)
| EvUpdateFieldRaw (f : Field) (data : Raw)
| EvHeaderInit
| EvUpdateHeaders
| EvUpdateEnd (ok : bool)
| EvStoreFlags (rec : nat) (fl : N)
| EvMarkFlagChanges (rec : nat) (old new : N)
| EvFmsync (ok : bool)
| EvStoreUid (rec : nat) (u : nat)
| EvHeaderFree.

Record MailIndex := mkIndex {
  mbox_path : string;
  set_flags : N;
  error : option string;
  records : list MailIndexRecord;
  log : list Event
}.

Definition emit (e : Event) (index : MailIndex) : MailIndex :=
  mkIndex (mbox_path index) (set_flags index) (error index) (records index)
          (log index ++ [e]).

(** Modelled from the spec: index_set_error, the spec's
    report_error(message) (mail-index-util.c is not part of the sources). *)
Definition index_set_error (index : MailIndex) (msg : string) : MailIndex :=
  emit (EvSetError msg)
       (mkIndex (mbox_path index) (set_flags index) (Some msg) (records index)
                (log index)).

(** [index->set_flags |= flag] *)
Definition or_set_flags (index : MailIndex) (flag : N) : MailIndex :=
  mkIndex (mbox_path index) (N.lor (set_flags index) flag) (error index)
          (records index) (log index).

Definition has_flag (index : MailIndex) (flag : N) : bool :=
  (N.land (set_flags index) flag =? flag)%N.

Fixpoint update_rec (l : list MailIndexRecord) (rec : nat)
         (f : MailIndexRecord -> MailIndexRecord) : list MailIndexRecord :=
  match l, rec with
  | [], _ => []
  | r :: l, 0 => f r :: l
  | r :: l, S rec => r :: update_rec l rec f
  end.

(** [rec->msg_flags = fl] *)
Definition store_flags (index : MailIndex) (rec : nat) (fl : N) : MailIndex :=
  emit (EvStoreFlags rec fl)
       (mkIndex (mbox_path index) (set_flags index) (error index)
                (update_rec (records index) rec
                   (fun r => mkRecord (uid r) fl (internal_date r)))
                (log index)).

(** [rec->uid = u] *)
Definition store_uid (index : MailIndex) (rec : nat) (u : nat) : MailIndex :=
  emit (EvStoreUid rec u)
       (mkIndex (mbox_path index) (set_flags index) (error index)
                (update_rec (records index) rec
                   (fun r => mkRecord u (msg_flags r) (internal_date r)))
                (log index)).

(** The collaborators of the append code, none of them part of the sources:
    the global [ioloop_time], the flag bit MAIL_INDEX_FLAG_FSCK, the
    separator parser, the line terminator skipper, the functions behind the
    pointers of [MailIndex], the durability barrier and the header parser.
    What a call into the index answers may depend on everything that
    happened before, so it is a function of the log; the header parser is
    handed the stream and may leave it in any state. *)
Record Collab := mkCollab {
  ioloop_time : Z;
  MAIL_INDEX_FLAG_FSCK : N;
  mbox_from_parse_date : list ascii -> Z;
  mbox_skip_crlf : IOBuffer -> IOBuffer * bool;
  set_lock : list Event -> bool;
  append : list Event -> Z -> option nat;
  update_end : list Event -> bool;
  mail_index_fmsync : list Event -> bool;
  mail_index_update_headers : list Event -> IOBuffer -> IOBuffer * MboxHeaderContext
}.

End Index.
Import Index.

(** ** The append code *)

Module Append.

Section Engine.

Variable env : Collab.

(** Lines 11-25.  The record handed to [index->append] is all zeroes but for
    [internal_date]; modelled from the spec: append() -> (record, identity)
    puts that record, still without identity, at the end of the index. *)
Definition mail_index_record_append (index : MailIndex) (internal_date : Z)
  : MailIndex * option (nat * nat) :=
  let trec := mkRecord 0 0 internal_date in
  match append env (log index) internal_date with
  | None => (emit (EvAppend internal_date None) index, None)
  | Some uid =>
      let rec := length (records index) in
      (emit (EvAppend internal_date (Some uid))
            (mkIndex (mbox_path index) (set_flags index) (error index)
                     (records index ++ [trec]) (log index)),
       Some (rec, uid))
  end.

(** Lines 94-97: the [for] loop looking for the LF of the From-line. *)
Fixpoint find_lf (data : list ascii) (todo : nat) (pos : nat) : nat :=
  match todo with
  | 0 => pos
  | S todo' =>
      if (at_ data pos =? LF)%char then pos else find_lf data todo' (S pos)
  end.

(** Lines 92-101.  When the read is refused the loop is left with no data
    ([size] is 0). *)
Fixpoint from_line (fuel : nat) (inbuf : IOBuffer) (pos : nat)
  : option (IOBuffer * list ascii * nat) :=
  match fuel with
  | 0 => None
  | S fuel' =>
      match io_buffer_read_data inbuf pos with
      | (inbuf, None) => Some (inbuf, [], pos)
      | (inbuf, Some data) =>
          let pos := find_lf data (length data - pos) pos in
          if pos <? length data then Some (inbuf, data, pos)
          else from_line fuel' inbuf pos
      end
  end.

(** [strncmp(data, "From ", 5) == 0], for [data] of more than 5 bytes. *)
Definition is_from (data : list ascii) : bool :=
  (at_ data 0 =? "F")%char && (at_ data 1 =? "r")%char &&
  (at_ data 2 =? "o")%char && (at_ data 3 =? "m")%char &&
  (at_ data 4 =? " ")%char.

(** Line 103. *)
Definition no_from_line (data : list ascii) (pos : nat) : bool :=
  (pos =? length data) || (length data <=? 5) || negb (is_from data).

Definition from_line_error (index : MailIndex) : string :=
  ("Error indexing mbox file " ++ mbox_path index ++
   ": From-line not found where expected")%string.

Definition lf_error (index : MailIndex) : string :=
  ("Error indexing mbox file " ++ mbox_path index ++
   ": LF not found where expected")%string.

(** Lines 114-116. *)
Definition from_line_date (data : list ascii) : Z :=
  let internal_date := mbox_from_parse_date env data in
  if (internal_date <=? 0)%Z then ioloop_time env else internal_date.

(** Lines 130-173: the update of the new record [rec]. *)
Definition update_message (index : MailIndex) (inbuf : IOBuffer)
           (rec uid : nat) (abs_start_offset stop_offset : nat)
  : MailIndex * IOBuffer * bool :=
  let index := emit (EvUpdateBegin rec) index in
  let index :=
    emit (EvUpdateFieldRaw FIELD_TYPE_LOCATION (RawOffset abs_start_offset))
         index in
  let index := emit EvHeaderInit index in
  let old_size := size inbuf in
  let inbuf := set_size inbuf stop_offset in
  let inbuf := io_buffer_seek inbuf (abs_start_offset - start_offset inbuf) in
  let '(inbuf, ctx) := mail_index_update_headers env (log index) inbuf in
  let index := emit EvUpdateHeaders index in
  let inbuf := set_size inbuf old_size in
  let inbuf := io_buffer_seek inbuf stop_offset in
  let md5_digest := md5 ctx in
  let index :=
    emit (EvUpdateFieldRaw FIELD_TYPE_MD5 (RawBytes md5_digest)) index in
  let ok := update_end env (log index) in
  let index := emit (EvUpdateEnd ok) index in
  if negb ok then
    let index := emit EvHeaderFree index in
    (index, inbuf, false)
  else
    let index := store_flags index rec (flags ctx) in
    let index := emit (EvMarkFlagChanges rec 0 (flags ctx)) index in
    let ok := mail_index_fmsync env (log index) in
    let index := emit (EvFmsync ok) index in
    if negb ok then (index, inbuf, false)
    else
      let index := store_uid index rec uid in
      let index := emit EvHeaderFree index in
      (index, inbuf, true).

(** Lines 79-174. *)
Definition mbox_index_append_next (fuel : nat) (index : MailIndex)
           (inbuf : IOBuffer) : option (MailIndex * IOBuffer * bool) :=
  match from_line fuel inbuf 0 with
  | None => None
  | Some (inbuf, data, pos) =>
      if no_from_line data pos then
        let index := index_set_error index (from_line_error index) in
        let index := or_set_flags index (MAIL_INDEX_FLAG_FSCK env) in
        Some (index, inbuf, false)
      else
        let internal_date := from_line_date data in
        let inbuf := io_buffer_skip inbuf (pos + 1) in
        let abs_start_offset := start_offset inbuf + offset inbuf in
        match mbox_read_message fuel inbuf with
        | None => None
        | Some inbuf =>
            let stop_offset := offset inbuf in
            match mail_index_record_append index internal_date with
            | (index, None) => Some (index, inbuf, false)
            | (index, Some (rec, uid)) =>
                Some (update_message index inbuf rec uid
                                     abs_start_offset stop_offset)
            end
        end
  end.

(** Lines 186-206: the [for (;;)] loop; [fuel] bounds its turns and [inner]
    the loops of one message. *)
Fixpoint append_loop (fuel inner : nat) (index : MailIndex) (inbuf : IOBuffer)
  : option (MailIndex * IOBuffer * bool) :=
  match fuel with
  | 0 => None
  | S fuel' =>
      let '(inbuf, ok) :=
        if negb (start_offset inbuf + offset inbuf =? 0)
        then mbox_skip_crlf env inbuf else (inbuf, true) in
      if negb ok then
        let index := index_set_error index (lf_error index) in
        let index := or_set_flags index (MAIL_INDEX_FLAG_FSCK env) in
        Some (index, inbuf, false)
      else if offset inbuf =? size inbuf then Some (index, inbuf, true)
      else
        match mbox_index_append_next inner index inbuf with
        | None => None
        | Some (index, inbuf, false) => Some (index, inbuf, false)
        | Some (index, inbuf, true) => append_loop fuel' inner index inbuf
        end
  end.

(** Lines 176-209. *)
Definition mbox_index_append (fuel : nat) (index : MailIndex) (inbuf : IOBuffer)
  : option (MailIndex * IOBuffer * bool) :=
  if offset inbuf =? size inbuf then Some (index, inbuf, true)
  else
    let ok := set_lock env (log index) in
    let index := emit (EvSetLock ok) index in
    if negb ok then Some (index, inbuf, false)
    else append_loop fuel fuel index inbuf.

End Engine.

End Append.
Import Append.

(** ** What the scanner is specified against *)

(** The bytes of [f] at the offsets [a], ..., [b - 1]. *)
Definition seg (f : list ascii) (a b : nat) : list ascii :=
  firstn (b - a) (skipn a f).

(** The six contiguous bytes LF, 'F', 'r', 'o', 'm', ' '. *)
Definition separator : list ascii := LF :: bytes "From ".

Definition sep_at (f : list ascii) (j : nat) : Prop :=
  seg f j (j + 6) = separator.

(** Bytes of the stream not yet in the buffer. *)
Definition unread (b : IOBuffer) : nat := limit b - (offset b + buffered b).

(** Drop the last byte of [l] when it is [c]. *)
Definition strip_last (c : ascii) (l : list ascii) : list ascii :=
  if (last l zero =? c)%char then removelast l else l.

(** The body of the last message: what is left of the stream, less one
    trailing LF and then one trailing CR. *)
Definition body_trim (l : list ascii) : list ascii :=
  strip_last CR (strip_last LF l).

(** The bytes between the cursor and the end of the stream. *)
Definition rest (b : IOBuffer) : list ascii :=
  seg (file b) (offset b) (limit b).

(** ** Sample streams *)

(** The two message bodies of the spec's boundary example, the first with the
    separator line that follows it. *)
Definition body1_then_from : list ascii :=
  bytes "Body1" ++ [CR; LF] ++ bytes "From b 2" ++ [LF] ++ bytes "Body2" ++ [LF].

Definition body2 : list ascii := bytes "Body2" ++ [LF].

(** A body whose first line starts with "From ". *)
Definition from_in_body : list ascii :=
  bytes "From here on" ++ [LF] ++ bytes "text" ++ [LF] ++ bytes "From b 2" ++ [LF].

(** Ten bytes without a separator. *)
Definition ten_bytes : list ascii := bytes "0123456789".

(** ** What the append code is specified against *)

(** In the trace [evs] the event [e1] happens before [e2]. *)
Definition before (e1 e2 : Event) (evs : list Event) : Prop :=
  exists l1 l2 l3, evs = l1 ++ e1 :: l2 ++ e2 :: l3.

Definition is_header_init (e : Event) : bool :=
  match e with EvHeaderInit => true | _ => false end.

Definition is_header_free (e : Event) : bool :=
  match e with EvHeaderFree => true | _ => false end.

Definition is_store_uid (e : Event) : bool :=
  match e with EvStoreUid _ _ => true | _ => false end.

Definition is_set_error (e : Event) : bool :=
  match e with EvSetError _ => true | _ => false end.

Definition count (p : Event -> bool) (evs : list Event) : nat :=
  length (filter p evs).

(** The events of a message transaction from the allocation of the record
    [rec] with the identity [u] in hand up to the commit. *)
Definition tx_open (rec : nat) (d : Z) (u a : nat) (dg : list ascii)
  : list Event :=
  [EvAppend d (Some u); EvUpdateBegin rec;
   EvUpdateFieldRaw FIELD_TYPE_LOCATION (RawOffset a); EvHeaderInit;
   EvUpdateHeaders; EvUpdateFieldRaw FIELD_TYPE_MD5 (RawBytes dg)].

(** The events from a successful commit up to the barrier. *)
Definition tx_committed (rec : nat) (fl : N) : list Event :=
  [EvUpdateEnd true; EvStoreFlags rec fl; EvMarkFlagChanges rec 0 fl].

(** The traces of one message transaction on the record [rec], with its
    result. *)
Inductive tx_trace (rec : nat) : list Event -> bool -> Prop :=
| tx_no_from_line msg :
    tx_trace rec [EvSetError msg] false
| tx_no_record d :
    tx_trace rec [EvAppend d None] false
| tx_commit_failed d u a dg :
    tx_trace rec (tx_open rec d u a dg ++ [EvUpdateEnd false; EvHeaderFree])
             false
| tx_barrier_failed d u a dg fl :
    tx_trace rec (tx_open rec d u a dg ++ tx_committed rec fl ++
                  [EvFmsync false])
             false
| tx_done d u a dg fl :
    tx_trace rec (tx_open rec d u a dg ++ tx_committed rec fl ++
                  [EvFmsync true; EvStoreUid rec u; EvHeaderFree])
             true.

(** The traces of the driver's loop, with its result: the end of the
    stream, a line terminator that is not found, a transaction that fails,
    or a transaction that succeeds and the loop again. *)
Inductive driver_trace : list Event -> bool -> Prop :=
| drv_end :
    driver_trace [] true
| drv_no_lf msg :
    driver_trace [EvSetError msg] false
| drv_failed rec evs :
    tx_trace rec evs false -> driver_trace evs false
| drv_next rec evs rest ok :
    tx_trace rec evs true -> driver_trace rest ok ->
    driver_trace (evs ++ rest) ok.

(** Right before this point of a trace the record [r] was allocated with
    the identity [u] in hand, updated, committed, and the barrier
    succeeded. *)
Definition committed_before (r u : nat) (pre : list Event) : Prop :=
  exists pre' d a dg fl,
    pre = pre' ++ tx_open r d u a dg ++ tx_committed r fl ++ [EvFmsync true].

(** Every store of an identity in the trace comes right after the
    successful barrier of the transaction of that record. *)
Definition uid_guarded (evs : list Event) : Prop :=
  forall pre r u post,
    evs = pre ++ EvStoreUid r u :: post -> committed_before r u pre.

(** The events that report a failure of the index itself. *)
Definition is_failure (e : Event) : bool :=
  match e with
  | EvSetLock false | EvAppend _ None | EvUpdateEnd false | EvFmsync false => true
  | _ => false
  end.

(** The header parser leaves the file behind the stream alone. *)
Definition headers_ok (env : Collab) : Prop :=
  forall l b, same_file b (fst (mail_index_update_headers env l b)).

(** The terminator skipper only moves the cursor forward. *)
Definition skip_ok (env : Collab) : Prop :=
  forall b b' ok, wf b -> mbox_skip_crlf env b = (b', ok) ->
    wf b' /\ same_file b b' /\ size b' = size b /\ offset b <= offset b'.

(** The record at position [rec] of the index. *)
Definition record_at (index : MailIndex) (rec : nat) : MailIndexRecord :=
  nth rec (records index) (mkRecord 0 0 0).

(** ** Sample collaborators *)

(** Modelled from the spec: mbox_skip_crlf (mbox-index.c is not part of the
    sources).  The cursor is assumed to sit on the line terminator before a
    From-line; exactly that terminator, LF or CR LF, is skipped, and the
    call fails when it is absent. *)
Definition skip_crlf (inbuf : IOBuffer) : IOBuffer * bool :=
  match io_buffer_read_data inbuf 0 with
  | (inbuf, None) => (inbuf, false)
  | (inbuf, Some data) =>
      if (at_ data 0 =? LF)%char then (io_buffer_skip inbuf 1, true)
      else if (at_ data 0 =? CR)%char then
        match io_buffer_read_data inbuf 1 with
        | (inbuf, None) => (inbuf, false)
        | (inbuf, Some data) =>
            if (at_ data 1 =? LF)%char then (io_buffer_skip inbuf 2, true)
            else (inbuf, false)
        end
      else (inbuf, false)
  end.

(** A header parser that reads up to the ceiling and finds the flags [fl]. *)
Definition read_to_ceiling (fl : N) (_ : list Event) (inbuf : IOBuffer)
  : IOBuffer * MboxHeaderContext :=
  (io_buffer_seek inbuf (size inbuf), mkCtx fl (bytes "0123456789abcdef")).

(** An index whose lock, append, commit and barrier answer as given, at the
    time [now], with a separator parser that answers [date]. *)
Definition test_env (now date : Z) (lock alloc commit sync : bool) : Collab :=
  mkCollab now 1 (fun _ => date) skip_crlf
           (fun _ => lock)
           (fun l _ => if alloc then Some (S (length l)) else None)
           (fun _ => commit) (fun _ => sync)
           (read_to_ceiling 1).

Definition empty_index : MailIndex := mkIndex "/var/mail/a" 0 None [] [].

(** The mailbox of the spec's boundary example. *)
Definition two_messages : list ascii :=
  bytes "From a 1" ++ [LF] ++ bytes "Body1" ++ [CR; LF] ++
  bytes "From b 2" ++ [LF] ++ bytes "Body2" ++ [LF].

(** A mailbox that does not start with a From-line. *)
Definition no_from : list ascii := bytes "Hello" ++ [LF] ++ bytes "world" ++ [LF].

(** The parts of what a run returns. *)
Definition result_index (r : option (MailIndex * IOBuffer * bool)) : MailIndex :=
  match r with Some (index, _, _) => index | None => empty_index end.

Definition result_inbuf (r : option (MailIndex * IOBuffer * bool)) : IOBuffer :=
  match r with Some (_, inbuf, _) => inbuf | None => open [] 0 end.

Definition result_ok (r : option (MailIndex * IOBuffer * bool)) : bool :=
  match r with Some (_, _, ok) => ok | None => false end.

(** The first message of [two_messages] with an index where everything
    works, where the commit fails, and where the barrier fails. *)
Definition tx_good :=
  mbox_index_append_next (test_env 1000 0 true true true true) 50
                         empty_index (open two_messages 4).

Definition tx_commit_fails :=
  mbox_index_append_next (test_env 1000 0 true true false true) 50
                         empty_index (open two_messages 4).

Definition tx_barrier_fails :=
  mbox_index_append_next (test_env 1000 0 true true true false) 50
                         empty_index (open two_messages 4).

(** The From-line of the first message of [two_messages], as the From-line
    loop leaves it with reads of 4 bytes: 12 bytes buffered, LF at 8. *)
Definition first_line_buf : IOBuffer := set_buffered (open two_messages 4) 12.
Definition first_line : list ascii := io_buffer_get_data first_line_buf.

(** Whole appends: the sample mailbox, the same with a barrier that fails,
    and a mailbox without From-line. *)
Definition append_good :=
  mbox_index_append (test_env 1000 0 true true true true) 50
                    empty_index (open two_messages 4).

Definition append_barrier_fails :=
  mbox_index_append (test_env 1000 0 true true true false) 50
                    empty_index (open two_messages 4).

Definition append_no_from :=
  mbox_index_append (test_env 1000 0 true true true true) 50
                    empty_index (open no_from 4).
From Stdlib Require Import Sorted.


(** ** The end of a message, as a function of the bytes *)

(** No separator of [f] that starts at [lo] or later has its space before
    the offset [hi]. *)
Definition no_sep_before (f : list ascii) (lo hi : nat) : Prop :=
  forall j, lo <= j -> j + 5 < hi -> ~ sep_at f j.

(** [l] starts with [p]. *)
Fixpoint prefixb (p l : list ascii) : bool :=
  match p, l with
  | [], _ => true
  | _ :: _, [] => false
  | x :: p', y :: l' => (x =? y)%char && prefixb p' l'
  end.

(** The place of the first separator in [l]. *)
Fixpoint first_sep (l : list ascii) : option nat :=
  match l with
  | [] => None
  | _ :: l' =>
      if prefixb separator l then Some 0 else option_map S (first_sep l')
  end.

(** Where the message that starts [l] ends: before the line terminator, LF
    or CR LF, of the first separator, or, without separator, before the
    line terminator that ends [l]. *)
Definition message_end (l : list ascii) : nat :=
  match first_sep l with
  | Some j => if (0 <? j) && (at_ l (j - 1) =? CR)%char then j - 1 else j
  | None => length (body_trim l)
  end.

(** ** More vocabulary for traces *)

(** Lines 187-199: the skip of the line terminator at the head of a turn of
    the driver's loop, when the cursor is not at the very start. *)
Definition skip_step (env : Collab) (inbuf : IOBuffer) : IOBuffer * bool :=
  if negb (start_offset inbuf + offset inbuf =? 0)
  then mbox_skip_crlf env inbuf else (inbuf, true).

(** The identities stored in a trace, in order. *)
Definition stored_uid (e : Event) : list nat :=
  match e with EvStoreUid _ u => [u] | _ => [] end.

Definition stored_uids (evs : list Event) : list nat :=
  flat_map stored_uid evs.

Definition is_set_lock (e : Event) : bool :=
  match e with EvSetLock _ => true | _ => false end.

Definition is_update_begin (e : Event) : bool :=
  match e with EvUpdateBegin _ => true | _ => false end.

Definition is_update_end (e : Event) : bool :=
  match e with EvUpdateEnd _ => true | _ => false end.

Definition is_barrier_failed (e : Event) : bool :=
  match e with EvFmsync false => true | _ => false end.

Definition is_append (e : Event) : bool :=
  match e with EvAppend _ _ => true | _ => false end.

(** The locations written in a trace, in order. *)
Definition located (e : Event) : list nat :=
  match e with
  | EvUpdateFieldRaw FIELD_TYPE_LOCATION (RawOffset a) => [a]
  | _ => []
  end.

Definition locations (evs : list Event) : list nat := flat_map located evs.

(** Lines 114-116 leave a date that is the parsed one, then positive, or
    the current time. *)
Definition date_ok (env : Collab) (d : Z) : Prop :=
  d = ioloop_time env \/ (0 < d)%Z.

(** The identity [u] is one that [index->append] answered. *)
Definition answered (env : Collab) (u : nat) : Prop :=
  exists l d, append env l d = Some u.

(** What one message transaction on the record [rec] leaves: its trace, the
    records it adds to the index, and its result. *)
Inductive tx_effect (env : Collab) (rec : nat)
  : list Event -> list MailIndexRecord -> bool -> Prop :=
| txe_no_from_line msg :
    tx_effect env rec [EvSetError msg] [] false
| txe_no_record d :
    tx_effect env rec [EvAppend d None] [] false
| txe_commit_failed d u a dg :
    date_ok env d ->
    tx_effect env rec
              (tx_open rec d u a dg ++ [EvUpdateEnd false; EvHeaderFree])
              [mkRecord 0 0 d] false
| txe_barrier_failed d u a dg fl :
    date_ok env d ->
    tx_effect env rec
              (tx_open rec d u a dg ++ tx_committed rec fl ++ [EvFmsync false])
              [mkRecord 0 fl d] false
| txe_done d u a dg fl :
    date_ok env d -> answered env u ->
    tx_effect env rec
              (tx_open rec d u a dg ++ tx_committed rec fl ++
               [EvFmsync true; EvStoreUid rec u; EvHeaderFree])
              [mkRecord u fl d] true.

(** What the driver's loop leaves, from the record [rec] on. *)
Inductive loop_effect (env : Collab)
  : nat -> list Event -> list MailIndexRecord -> bool -> Prop :=
| le_end rec :
    loop_effect env rec [] [] true
| le_no_lf rec msg :
    loop_effect env rec [EvSetError msg] [] false
| le_failed rec evs new :
    tx_effect env rec evs new false -> loop_effect env rec evs new false
| le_next rec evs new rest new' ok :
    tx_effect env rec evs new true ->
    loop_effect env (rec + length new) rest new' ok ->
    loop_effect env rec (evs ++ rest) (new ++ new') ok.

(** ** The From-line check, as a function of the bytes *)

(** The place of the first LF in [l]. *)
Fixpoint first_lf (l : list ascii) : option nat :=
  match l with
  | [] => None
  | c :: l' => if (c =? LF)%char then Some 0 else option_map S (first_lf l')
  end.

(** The unread bytes start with "From " and their first line, LF included,
    fits into the buffer. *)
Definition from_line_in_reach (b : IOBuffer) : bool :=
  match first_lf (rest b) with
  | Some p => (p <? max_buffer_size b) && prefixb (bytes "From ") (rest b)
  | None => false
  end.

(** ** More samples *)

(** A transaction on a mailbox without From-line, and an append whose lock
    is refused. *)
Definition tx_no_from :=
  mbox_index_append_next (test_env 1000 0 true true true true) 50
                         empty_index (open no_from 4).

Definition append_lock_refused :=
  mbox_index_append (test_env 1000 0 false true true true) 50
                    empty_index (open two_messages 4).

(** ** Integrity violations on the stream of an append *)

(** The turns of the driver's loop that index a message, lines 186-206:
    from [index] and [inbuf] the line terminator is skipped, the stream is
    not at its ceiling and the transaction succeeds, any number of times. *)
Inductive turns (env : Collab) (fuel : nat)
  : MailIndex -> IOBuffer -> MailIndex -> IOBuffer -> Prop :=
| turns_here index inbuf :
    turns env fuel index inbuf index inbuf
| turns_next index inbuf b1 index1 b2 index' inbuf' :
    skip_step env inbuf = (b1, true) ->
    offset b1 <> size b1 ->
    mbox_index_append_next env fuel index b1 = Some (index1, b2, true) ->
    turns env fuel index1 b2 index' inbuf' ->
    turns env fuel index inbuf index' inbuf'.

(** Lines 187-198: the turn that starts on [b], not at the very start of
    the file, does not find the line terminator before the From-line. *)
Definition lf_missing (env : Collab) (b : IOBuffer) : Prop :=
  start_offset b + offset b <> 0 /\ snd (mbox_skip_crlf env b) = false.

(** Lines 91-103: in the turn that starts on [b] the stream goes on behind
    the line terminator, and the window that the From-line loop ends with
    has no LF, holds at most 5 bytes, or starts with other bytes than
    "From ". *)
Definition from_line_missing (env : Collab) (fuel : nat) (b : IOBuffer)
  : Prop :=
  exists b1 b0 data pos,
    skip_step env b = (b1, true) /\ offset b1 <> size b1 /\
    from_line fuel b1 0 = Some (b0, data, pos) /\
    (pos = length data \/ length data <= 5 \/
     firstn 5 data <> bytes "From ").

(** The turn of the loop of [mbox_index_append] on [index] and [inbuf] that
    starts on the stream [b], with the index [index1], is reached: there is
    something to read, the lock is granted, and the messages before [b]
    were indexed. *)
Definition turn_reached (env : Collab) (fuel : nat) (index : MailIndex)
           (inbuf : IOBuffer) (index1 : MailIndex) (b : IOBuffer) : Prop :=
  offset inbuf <> size inbuf /\ set_lock env (log index) = true /\
  turns env fuel (emit (EvSetLock true) index) inbuf index1 b.

(** The append meets an integrity violation on its own stream. *)
Definition violation_met (env : Collab) (fuel : nat) (index : MailIndex)
           (inbuf : IOBuffer) : Prop :=
  exists index1 b,
    turn_reached env fuel index inbuf index1 b /\
    (lf_missing env b \/ from_line_missing env fuel b).

(** ** The end of the last message, in the words of the spec *)

(** Trim at most one trailing LF and, when one was trimmed, at most one CR
    that then ends the bytes. *)
Definition spec_body_trim (l : list ascii) : list ascii :=
  let l' := strip_last LF l in
  if length l' <? length l then strip_last CR l' else l.

(** A last message that ends in a CR without LF. *)
Definition lone_cr : list ascii := bytes "Body2" ++ [CR].
(** ** Segments of a byte list *)


Lemma at_skipn (f : list ascii) (a i : nat) :
  at_ (skipn a f) i = at_ f (a + i).
Proof.
  unfold at_. revert f. induction a as [|a IH]; intros f; simpl.
  - reflexivity.
  - destruct f as [|x f]; simpl.
    + now destruct i.
    + apply IH.
Qed.

Lemma at_firstn (f : list ascii) (n i : nat) :
  i < n -> at_ (firstn n f) i = at_ f i.
Proof.
  unfold at_. revert f i. induction n as [|n IH]; intros f i Hi.
  - lia.
  - destruct f as [|x f]; simpl.
    + now destruct i.
    + destruct i as [|i]; simpl; [reflexivity|]. apply IH. lia.
Qed.

Lemma at_seg (f : list ascii) (a b i : nat) :
  a + i < b -> at_ (seg f a b) i = at_ f (a + i).
Proof.
  intros H. unfold seg. rewrite at_firstn by lia. apply at_skipn.
Qed.

Lemma seg_length (f : list ascii) (a b : nat) :
  b <= length f -> length (seg f a b) = b - a.
Proof.
  intros H. unfold seg. rewrite length_firstn, length_skipn. lia.
Qed.

Lemma seg_nil (f : list ascii) (a : nat) : seg f a a = [].
Proof. unfold seg. now rewrite Nat.sub_diag. Qed.

Lemma seg_snoc (f : list ascii) (a b : nat) :
  a <= b -> b < length f -> seg f a (S b) = seg f a b ++ [at_ f b].
Proof.
  intros Hab Hb. unfold seg.
  replace (S b - a) with (S (b - a)) by lia.
  remember (b - a) as n eqn:En.
  assert (Hn : n < length (skipn a f)) by (rewrite length_skipn; lia).
  replace (at_ f b) with (at_ (skipn a f) n)
    by (rewrite at_skipn; f_equal; lia).
  clear En Hab Hb. revert Hn. generalize (skipn a f) as l. clear f.
  induction n as [|n IH]; intros l Hn.
  - destruct l as [|x l]; simpl in *; [lia|reflexivity].
  - destruct l as [|x l]; simpl in *; [lia|].
    f_equal. apply IH. lia.
Qed.

Lemma seg_cons (f : list ascii) (a b : nat) :
  a < b -> b <= length f -> seg f a b = at_ f a :: seg f (S a) b.
Proof.
  intros Hab Hb. unfold seg.
  replace (b - a) with (S (b - S a)) by lia.
  assert (Hs : skipn a f = at_ f a :: skipn (S a) f).
  { assert (Ha : a < length f) by lia. clear Hab Hb. revert f Ha.
    induction a as [|a IH]; intros f Ha.
    - destruct f; simpl in *; [lia|reflexivity].
    - destruct f as [|x f]; simpl in Ha; [lia|].
      change (skipn (S a) (x :: f)) with (skipn a f).
      change (skipn (S (S a)) (x :: f)) with (skipn (S a) f).
      change (at_ (x :: f) (S a)) with (at_ f a).
      apply IH. lia. }
  rewrite Hs. reflexivity.
Qed.

(** ** Facts about the stream operations *)

Lemma get_data_seg (buf : IOBuffer) :
  io_buffer_get_data buf =
  seg (file buf) (offset buf) (offset buf + buffered buf).
Proof.
  unfold io_buffer_get_data, seg. f_equal. lia.
Qed.

Lemma wf_length (buf : IOBuffer) :
  wf buf -> offset buf + buffered buf <= length (file buf).
Proof. unfold wf, limit. lia. Qed.

Lemma get_data_length (buf : IOBuffer) :
  wf buf -> length (io_buffer_get_data buf) = buffered buf.
Proof.
  intros H. rewrite get_data_seg, seg_length by now apply wf_length. lia.
Qed.

Lemma get_data_at (buf : IOBuffer) (i : nat) :
  i < buffered buf ->
  at_ (io_buffer_get_data buf) i = at_ (file buf) (offset buf + i).
Proof.
  intros H. rewrite get_data_seg. apply at_seg. lia.
Qed.

Lemma same_file_refl (a : IOBuffer) : same_file a a.
Proof. unfold same_file. auto. Qed.

Lemma same_file_trans (a b c : IOBuffer) :
  same_file a b -> same_file b c -> same_file a c.
Proof. unfold same_file. intuition congruence. Qed.

Lemma same_file_limit (a b : IOBuffer) :
  same_file a b -> size a = size b -> limit a = limit b.
Proof. unfold same_file, limit. intros (H & _) Hs. now rewrite H, Hs. Qed.

(** What a call of [io_buffer_read_data] can do: nothing is lost, the cursor
    does not move, and a read is only refused for one of three reasons. *)
Lemma read_data_cases (buf : IOBuffer) (threshold : nat) :
  wf buf ->
  (io_buffer_read_data buf threshold = (buf, None) /\
   buffered buf <= threshold /\
   (max_read buf = 0 \/ offset buf + buffered buf = limit buf \/
    max_buffer_size buf <= buffered buf))
  \/
  (exists buf',
     io_buffer_read_data buf threshold = (buf', Some (io_buffer_get_data buf')) /\
     same_file buf buf' /\ size buf' = size buf /\ offset buf' = offset buf /\
     wf buf' /\ buffered buf <= buffered buf' /\
     (threshold < buffered buf -> buf' = buf) /\
     (buffered buf <= threshold -> buffered buf < buffered buf')).
Proof.
  intros Hwf. unfold io_buffer_read_data.
  destruct (buffered buf <=? threshold) eqn:Hth.
  - apply Nat.leb_le in Hth.
    set (n := Nat.min _ _).
    destruct (n =? 0) eqn:Hn.
    + left. apply Nat.eqb_eq in Hn. unfold wf in Hwf. subst n.
      repeat split; auto. lia.
    + right. apply Nat.eqb_neq in Hn.
      eexists. split; [reflexivity|].
      unfold wf in *. unfold same_file, limit in *. simpl.
      subst n. repeat split; auto; lia.
  - apply Nat.leb_gt in Hth. right. exists buf.
    repeat split; auto using same_file_refl; lia.
Qed.

(** ** The separator and the [for] loop *)


Lemma from_space_at_true (msg : list ascii) (i : nat) :
  from_space_at msg i = true ->
  5 <= i /\ at_ msg (i - 5) = LF /\ at_ msg (i - 4) = "F"%char /\
  at_ msg (i - 3) = "r"%char /\ at_ msg (i - 2) = "o"%char /\
  at_ msg (i - 1) = "m"%char /\ at_ msg i = " "%char.
Proof.
  unfold from_space_at. intros H.
  repeat (apply andb_prop in H; destruct H as [H ?]).
  repeat match goal with
         | E : (_ =? _)%char = true |- _ => apply Ascii.eqb_eq in E
         | E : (_ <=? _) = true |- _ => apply Nat.leb_le in E
         end.
  auto 10.
Qed.

Lemma sep_at_intro (f : list ascii) (j : nat) :
  j + 6 <= length f ->
  at_ f j = LF -> at_ f (j + 1) = "F"%char -> at_ f (j + 2) = "r"%char ->
  at_ f (j + 3) = "o"%char -> at_ f (j + 4) = "m"%char ->
  at_ f (j + 5) = " "%char ->
  sep_at f j.
Proof.
  intros Hl H0 H1 H2 H3 H4 H5. unfold sep_at.
  rewrite (@seg_cons f j) by lia.
  rewrite (@seg_cons f (S j)) by lia.
  rewrite (@seg_cons f (S (S j))) by lia.
  rewrite (@seg_cons f (S (S (S j)))) by lia.
  rewrite (@seg_cons f (S (S (S (S j))))) by lia.
  rewrite (@seg_cons f (S (S (S (S (S j)))))) by lia.
  replace (S (S (S (S (S (S j)))))) with (j + 6) by lia.
  rewrite seg_nil.
  replace (S j) with (j + 1) by lia.
  replace (S (j + 1)) with (j + 2) by lia.
  replace (S (j + 2)) with (j + 3) by lia.
  replace (S (j + 3)) with (j + 4) by lia.
  replace (S (j + 4)) with (j + 5) by lia.
  rewrite H0, H1, H2, H3, H4, H5. reflexivity.
Qed.

Lemma sep_at_first (f : list ascii) (j : nat) :
  sep_at f j -> at_ f j = LF /\ j < length f.
Proof.
  unfold sep_at, seg. intros H.
  replace (j + 6 - j) with 6 in H by lia.
  assert (Hl : j < length f).
  { destruct (Nat.lt_ge_cases j (length f)) as [|Hge]; [assumption|].
    rewrite skipn_all2 in H by assumption. discriminate. }
  split; [|assumption].
  replace (at_ f j) with (at_ (skipn j f) 0) by (rewrite at_skipn; f_equal; lia).
  destruct (skipn j f) as [|x l]; [discriminate|].
  simpl in H. injection H as -> _. reflexivity.
Qed.

(** The result of the [for] loop: either no space of a separator lies at
    [i], ..., [i + todo - 1] and the loop runs to the end, or it stops at the
    first one, [k], backed up over "\nFrom" and one preceding CR. *)
Lemma scan_for_spec (msg : list ascii) (todo i : nat) :
  (scan_for msg todo i = i + todo /\
   forall k, i <= k < i + todo -> from_space_at msg k = false)
  \/
  (exists k, i <= k < i + todo /\ from_space_at msg k = true /\
     ((scan_for msg todo i = k - 5 /\ (k = 5 \/ at_ msg (k - 6) <> CR)) \/
      (scan_for msg todo i = k - 6 /\ 6 <= k /\ at_ msg (k - 6) = CR))).
Proof.
  revert i. induction todo as [|todo IH]; intros i; simpl.
  - left. split; [lia|]. intros k Hk. lia.
  - destruct (from_space_at msg i) eqn:Hm.
    + right. exists i. split; [lia|]. split; [assumption|].
      apply from_space_at_true in Hm. destruct Hm as (H5 & _).
      destruct (0 <? i - 5) eqn:Hpos; simpl.
      * apply Nat.ltb_lt in Hpos.
        replace (i - 5 - 1) with (i - 6) by lia.
        destruct (at_ msg (i - 6) =? CR)%char eqn:Hcr.
        -- apply Ascii.eqb_eq in Hcr. right. split; [lia|]. split; [lia|assumption].
        -- apply Ascii.eqb_neq in Hcr. left. auto.
      * apply Nat.ltb_ge in Hpos. left. split; [reflexivity|]. left. lia.
    + destruct (IH (S i)) as [(Hr & Hno) | (k & Hk & Hmk & Hres)].
      * left. split; [lia|]. intros k Hk.
        destruct (Nat.eq_dec k i) as [->|]; [assumption|]. apply Hno. lia.
      * right. exists k. split; [lia|]. split; assumption.
Qed.

(** ** One turn of the scanner's loop *)

Lemma scan_window (msg : list ascii) (startpos : nat) :
  startpos <= length msg ->
  (scan msg startpos = length msg /\
   forall k, startpos <= k < length msg -> from_space_at msg k = false)
  \/
  (exists k, startpos <= k < length msg /\ from_space_at msg k = true /\
     ((scan msg startpos = k - 5 /\ (k = 5 \/ at_ msg (k - 6) <> CR)) \/
      (scan msg startpos = k - 6 /\ 6 <= k /\ at_ msg (k - 6) = CR))).
Proof.
  intros Hle. unfold scan.
  destruct (scan_for_spec msg (length msg - startpos) startpos)
    as [(Hr & Hno) | (k & Hk & Hm & Hres)].
  - left. split; [lia|]. intros k Hk. apply Hno. lia.
  - right. exists k. split; [lia|]. split; assumption.
Qed.

Lemma window_sep (buf : IOBuffer) (k : nat) :
  wf buf -> k < buffered buf ->
  from_space_at (io_buffer_get_data buf) k = true ->
  5 <= k /\ sep_at (file buf) (offset buf + (k - 5)).
Proof.
  intros Hwf Hk Hm. apply from_space_at_true in Hm.
  destruct Hm as (H5 & H0 & H1 & H2 & H3 & H4 & Hsp).
  split; [assumption|].
  pose proof (wf_length _ Hwf) as Hlen.
  rewrite get_data_at in H0, H1, H2, H3, H4, Hsp by lia.
  apply sep_at_intro; try lia.
  - rewrite <- H0. reflexivity.
  - rewrite <- H1. f_equal. lia.
  - rewrite <- H2. f_equal. lia.
  - rewrite <- H3. f_equal. lia.
  - rewrite <- H4. f_equal. lia.
  - rewrite <- Hsp. f_equal. lia.
Qed.

Ltac pass_cases Hwf sp :=
  unfold read_pass;
  destruct (read_data_cases _ sp Hwf)
    as [(Hrd & Hth & Hwhy)
       | (buf' & Hrd & Hsame & Hsize & Hoff & Hwf' & Hmono & Hkeep & Hgrow)];
  rewrite Hrd.

(** The loop stops with [lastmsg] only when the read is refused. *)
Lemma read_pass_last (b b1 : IOBuffer) (sp sp1 : nat) :
  wf b -> sp <= buffered b ->
  read_pass b sp = Stop b1 sp1 true ->
  b1 = b /\ sp1 = sp /\ buffered b = sp /\
  (max_read b = 0 \/ offset b + buffered b = limit b \/
   max_buffer_size b <= buffered b).
Proof.
  intros Hwf Hsp. pass_cases Hwf sp.
  - intros E. injection E as <- <-. repeat split; auto. lia.
  - destruct (_ <? _); [discriminate|]. destruct (0 <? _); discriminate.
Qed.

(** The loop stops on a match only at a separator of the file. *)
Lemma read_pass_found (b b1 : IOBuffer) (sp i : nat) :
  wf b -> sp <= buffered b ->
  read_pass b sp = Stop b1 i false ->
  same_file b b1 /\ size b1 = size b /\ offset b1 = offset b /\ wf b1 /\
  exists j, i <= j <= i + 1 /\ j + 6 <= buffered b1 /\
            sep_at (file b) (offset b + j) /\
            (j = i + 1 -> at_ (file b) (offset b + i) = CR) /\
            (j = i -> (j = 0 /\ sp <= 5) \/
                      at_ (file b) (offset b + j - 1) <> CR).
Proof.
  intros Hwf Hsp. pass_cases Hwf sp; [discriminate|].
  pose proof (get_data_length _ Hwf') as Hlen.
  destruct (@scan_window (io_buffer_get_data buf') sp) as
    [(Hr & _) | (k & Hk & Hm & Hres)]; [lia| |].
  - rewrite Hr, Nat.ltb_irrefl. destruct (0 <? _); discriminate.
  - rewrite Hlen in Hk.
    destruct (window_sep _ _ Hwf' (proj2 Hk) Hm) as (H5 & Hsep).
    assert (Hf : file buf' = file b) by (symmetry; apply Hsame).
    rewrite Hf, Hoff in Hsep.
    destruct Hres as [(Hr & Hcr) | (Hr & H6 & Hcr)]; rewrite Hr, Hlen.
    + replace (k - 5 <? buffered buf') with true
        by (symmetry; apply Nat.ltb_lt; lia).
      intros E. injection E as <- <-.
      split; [assumption|]. split; [assumption|]. split; [assumption|].
      split; [assumption|].
      exists (k - 5). split; [lia|]. split; [lia|]. split; [assumption|].
      split; [lia|]. intros _.
      destruct (Nat.eq_dec k 5) as [->|Hk5]; [left; lia|right].
      destruct Hcr as [|Hcr]; [lia|].
      rewrite get_data_at in Hcr by lia. rewrite Hf, Hoff in Hcr.
      replace (offset b + (k - 5) - 1) with (offset b + (k - 6)) by lia.
      assumption.
    + replace (k - 6 <? buffered buf') with true
        by (symmetry; apply Nat.ltb_lt; lia).
      intros E. injection E as <- <-.
      split; [assumption|]. split; [assumption|]. split; [assumption|].
      split; [assumption|].
      exists (k - 5). split; [lia|]. split; [lia|]. split; [assumption|].
      split; [|lia].
      intros _. rewrite get_data_at in Hcr by lia.
      rewrite Hf, Hoff in Hcr. assumption.
Qed.

(** The loop goes round again only after a window of [n] bytes was scanned
    to its end without a match; the last [min n 7] bytes stay buffered. *)
Lemma read_pass_again (b b1 : IOBuffer) (sp sp1 : nat) :
  wf b -> sp <= buffered b ->
  read_pass b sp = Again b1 sp1 ->
  same_file b b1 /\ size b1 = size b /\ wf b1 /\
  exists n, sp < n /\ buffered b <= n /\ (buffered b <= sp -> buffered b < n) /\
            offset b + n <= limit b /\
            sp1 = Nat.min n 7 /\ buffered b1 = sp1 /\
            offset b1 = offset b + (n - sp1).
Proof.
  intros Hwf Hsp. pass_cases Hwf sp; [discriminate|].
  pose proof (get_data_length _ Hwf') as Hlen.
  assert (Hlim : limit buf' = limit b)
    by (symmetry; now apply same_file_limit).
  destruct (@scan_window (io_buffer_get_data buf') sp) as
    [(Hr & _) | (k & Hk & Hm & Hres)]; [lia| |].
  - rewrite Hr, Nat.ltb_irrefl, Hlen.
    assert (Hn : sp < buffered buf').
    { destruct (Nat.lt_ge_cases sp (buffered b)); [lia|].
      assert (buffered b < buffered buf') by (apply Hgrow; lia). lia. }
    replace (0 <? buffered buf') with true
      by (symmetry; apply Nat.ltb_lt; lia).
    intros E. injection E as <- <-.
    assert (Hmin : (if buffered buf' <? 7 then buffered buf' else 7)
                   = Nat.min (buffered buf') 7).
    { destruct (buffered buf' <? 7) eqn:E7;
        [apply Nat.ltb_lt in E7 | apply Nat.ltb_ge in E7]; lia. }
    rewrite Hmin. unfold wf in *. unfold io_buffer_skip, limit in *. simpl.
    split; [unfold same_file in *; simpl; tauto|].
    split; [assumption|]. split; [lia|].
    exists (buffered buf'). repeat split; lia.
  - rewrite Hlen in Hk.
    assert (Hlt : (scan (io_buffer_get_data buf') sp
                   <? length (io_buffer_get_data buf')) = true).
    { apply Nat.ltb_lt. rewrite Hlen.
      destruct Hres as [(Hr & _) | (Hr & _)]; rewrite Hr; lia. }
    rewrite Hlt. discriminate.
Qed.

(** ** The whole loop *)


(** The loop ends: every turn after the first brings new bytes in. *)
Lemma read_loop_total (fuel : nat) (b : IOBuffer) (sp : nat) :
  wf b -> sp <= buffered b ->
  unread b + (if sp <? buffered b then 1 else 0) < fuel ->
  exists r, read_loop fuel b sp = Some r.
Proof.
  revert b sp. induction fuel as [|fuel IH]; intros b sp Hwf Hsp Hfuel.
  - lia.
  - simpl. destruct (read_pass b sp) as [b1 sp1 last | b1 sp1] eqn:Hp.
    + eexists. reflexivity.
    + destruct (read_pass_again _ _ _ _ Hwf Hsp Hp)
        as (Hsame & Hsize & Hwf1 & n & Hlt & Hmono & Hgrow & Hlim & Hsp1 & Hbuf & Hoff).
      apply IH; [assumption|lia|].
      replace (sp1 <? buffered b1) with false
        by (symmetry; apply Nat.ltb_ge; lia).
      unfold unread in *.
      rewrite <- (same_file_limit _ _ Hsame (eq_sym Hsize)).
      destruct (sp <? buffered b) eqn:E;
        [apply Nat.ltb_lt in E | apply Nat.ltb_ge in E]; lia.
Qed.

(** What the loop leaves behind.  On a match the cursor plus [startpos] is
    at a bare LF, or at a CR before the LF, of a separator that lies in the
    buffer; with [lastmsg] the buffer holds [startpos] bytes, at most 7, and
    the read was refused. *)
Lemma read_loop_spec (fuel : nat) (b b1 : IOBuffer) (sp sp1 : nat) (last : bool) :
  wf b -> sp <= buffered b -> sp <= 7 ->
  read_loop fuel b sp = Some (b1, sp1, last) ->
  same_file b b1 /\ size b1 = size b /\ wf b1 /\ offset b <= offset b1 /\
  sp1 <= buffered b1 /\
  (last = false ->
   exists j, sp1 <= j <= sp1 + 1 /\ j + 6 <= buffered b1 /\
             sep_at (file b) (offset b1 + j) /\
             (j = sp1 + 1 -> at_ (file b) (offset b1 + sp1) = CR) /\
             (j = sp1 -> (offset b1 + j = offset b /\ sp <= 5) \/
                         at_ (file b) (offset b1 + j - 1) <> CR)) /\
  (last = true ->
   buffered b1 = sp1 /\ sp <= sp1 <= 7 /\ ((b1 = b /\ sp1 = sp) \/ 0 < sp1) /\
   (offset b1 = offset b \/ sp1 = 7) /\
   (max_read b = 0 \/ offset b1 + buffered b1 = limit b \/
    max_buffer_size b <= buffered b1)).
Proof.
  revert b sp. induction fuel as [|fuel IH]; intros b sp Hwf Hsp H7 Hrun.
  - discriminate.
  - simpl in Hrun. destruct (read_pass b sp) as [b2 sp2 l2 | b2 sp2] eqn:Hp.
    + injection Hrun as -> -> ->. destruct last.
      * destruct (read_pass_last _ _ _ _ Hwf Hsp Hp) as (-> & -> & Hb & Hwhy).
        repeat split; auto using same_file_refl; try lia; discriminate.
      * destruct (read_pass_found _ _ _ _ Hwf Hsp Hp)
          as (Hsame & Hsize & Hoff & Hwf1 & j & Hj & Hj6 & Hsep & Hcr & Hno).
        split; [assumption|]. split; [assumption|]. split; [assumption|].
        split; [lia|]. split; [lia|]. split; [|discriminate].
        intros _. exists j. rewrite Hoff.
        split; [assumption|]. split; [assumption|]. split; [assumption|].
        split; [assumption|]. intros E. destruct (Hno E) as [(-> & ?)|]; auto.
    + destruct (read_pass_again _ _ _ _ Hwf Hsp Hp)
        as (Hsame & Hsize & Hwf2 & n & Hlt & Hmono & Hgrow & Hlim & Hsp2 & Hbuf & Hoff).
      assert (Hpos : 0 < sp2) by lia.
      destruct (IH b2 sp2 Hwf2 ltac:(lia) ltac:(lia) Hrun)
        as (Hsame' & Hsize' & Hwf1 & Hle & Hsp1 & Hfound & Hlast).
      assert (Hf : file b2 = file b) by (symmetry; apply Hsame).
      split; [eapply same_file_trans; eassumption|].
      split; [congruence|]. split; [assumption|]. split; [lia|].
      split; [assumption|]. split.
      * intros E. destruct (Hfound E) as (j & Hj & Hj6 & Hsep & Hcr & Hno).
        rewrite Hf in *. exists j.
        split; [assumption|]. split; [assumption|]. split; [assumption|].
        split; [assumption|]. intros Ej.
        destruct (Hno Ej) as [(Hsame2 & Hsp5)|]; [left|now right]. lia.
      * intros E. destruct (Hlast E) as (Hb1 & H71 & Hfirst & Hskip & Hwhy).
        split; [assumption|]. split; [lia|]. split; [|split].
        -- right. destruct Hfirst as [(-> & ->)|]; assumption.
        -- destruct Hskip as [Hskip|]; [|now right].
           destruct (Nat.eq_dec sp1 7); [now right|left]. lia.
        -- rewrite (same_file_limit _ _ Hsame (eq_sym Hsize)).
           destruct Hsame as (_ & _ & -> & ->). assumption.
Qed.

(** ** The end of the last message *)


Lemma strip_last_seg (f : list ascii) (a b : nat) (c : ascii) :
  a < b -> b <= length f ->
  strip_last c (seg f a b) =
  if (at_ f (b - 1) =? c)%char then seg f a (b - 1) else seg f a b.
Proof.
  intros Hab Hb.
  assert (E : seg f a b = seg f a (b - 1) ++ [at_ f (b - 1)]).
  { rewrite <- seg_snoc by lia. f_equal. lia. }
  rewrite E. unfold strip_last. rewrite last_last, removelast_last.
  reflexivity.
Qed.

Lemma limit_length (b : IOBuffer) : limit b <= length (file b).
Proof. unfold limit. lia. Qed.

Lemma trim_eof_spec (b b1 : IOBuffer) (sp : nat) :
  wf b1 -> file b1 = file b -> offset b <= offset b1 ->
  buffered b1 = sp -> 0 < sp -> offset b1 + sp = limit b ->
  offset b1 = offset b \/ sp = 7 ->
  seg (file b) (offset b) (offset b1 + trim_eof b1 sp) = body_trim (rest b).
Proof.
  intros Hwf Hf Hle Hbuf Hpos Hend Hskip.
  pose proof (limit_length b) as HL.
  unfold trim_eof. rewrite (get_data_length _ Hwf), Hbuf, Nat.eqb_refl.
  unfold body_trim, rest.
  rewrite (@strip_last_seg (file b) (offset b) (limit b) LF) by lia.
  rewrite get_data_at by lia. rewrite Hf.
  replace (offset b1 + (sp - 1)) with (limit b - 1) by lia.
  destruct (at_ (file b) (limit b - 1) =? LF)%char eqn:Elf.
  - destruct (0 <? sp - 1) eqn:E0; simpl.
    + apply Nat.ltb_lt in E0.
      rewrite (@strip_last_seg (file b) (offset b) (limit b - 1) CR) by lia.
      rewrite get_data_at by lia. rewrite Hf.
      replace (offset b1 + (sp - 1 - 1)) with (limit b - 1 - 1) by lia.
      destruct (at_ (file b) (limit b - 1 - 1) =? CR)%char; f_equal; lia.
    + apply Nat.ltb_ge in E0.
      assert (Ho : offset b = limit b - 1) by lia.
      replace (offset b1 + (sp - 1)) with (limit b - 1) by lia.
      rewrite <- Ho, seg_nil. reflexivity.
  - replace (0 <? sp) with true by (symmetry; apply Nat.ltb_lt; lia). simpl.
    rewrite (@strip_last_seg (file b) (offset b) (limit b) CR) by lia.
    rewrite get_data_at by lia. rewrite Hf.
    replace (offset b1 + (sp - 1)) with (limit b - 1) by lia.
    destruct (at_ (file b) (limit b - 1) =? CR)%char; f_equal; lia.
Qed.

Lemma trim_eof_le (b : IOBuffer) (sp : nat) : trim_eof b sp <= sp.
Proof.
  unfold trim_eof. destruct (_ =? _); [|lia].
  destruct (at_ _ (sp - 1) =? LF)%char;
    destruct (_ && _); lia.
Qed.

Lemma skip_wf (b : IOBuffer) (n : nat) :
  wf b -> n <= buffered b ->
  wf (io_buffer_skip b n) /\ same_file b (io_buffer_skip b n) /\
  size (io_buffer_skip b n) = size b /\
  offset (io_buffer_skip b n) = offset b + n.
Proof.
  unfold wf, same_file, limit, io_buffer_skip. simpl. intros H Hn.
  repeat split; lia.
Qed.

(** ** [mbox_read_message] as a whole *)

(** The cursor after [mbox_read_message], from what its loop returned: on a
    match it is the boundary the loop found; for the last message the bytes
    passed over are the rest of the stream less its last line terminator. *)
Lemma mbox_read_message_spec (fuel : nat) (b b1 : IOBuffer) (sp : nat) (last : bool) :
  wf b ->
  read_loop fuel b 0 = Some (b1, sp, last) ->
  exists b',
    mbox_read_message fuel b = Some b' /\
    same_file b b' /\ size b' = size b /\ wf b' /\
    offset b <= offset b' <= limit b /\
    (last = false ->
     exists j, offset b' <= j <= offset b' + 1 /\ j + 6 <= limit b /\
               sep_at (file b) j /\
               (j = offset b' + 1 -> at_ (file b) (offset b') = CR) /\
               (j = offset b' -> j = offset b \/ at_ (file b) (j - 1) <> CR)) /\
    (last = true -> 0 < max_read b -> 7 < max_buffer_size b ->
     seg (file b) (offset b) (offset b') = body_trim (rest b)).
Proof.
  intros Hwf Hrun. unfold mbox_read_message. rewrite Hrun.
  destruct (@read_loop_spec fuel b b1 0 sp last Hwf (Nat.le_0_l _) ltac:(lia) Hrun)
    as (Hsame & Hsize & Hwf1 & Hle & Hsp & Hfound & Hlast).
  assert (Hlim : limit b1 = limit b)
    by (symmetry; now apply same_file_limit).
  eexists. split; [reflexivity|].
  destruct last; simpl.
  - destruct (Hlast eq_refl) as (Hbuf & H7 & Hfirst & Hskip & Hwhy).
    pose proof (trim_eof_le b1 sp) as Htrim.
    set (sp' := if 0 <? sp then trim_eof b1 sp else sp).
    assert (Hsp' : sp' <= sp) by (subst sp'; destruct (0 <? sp); lia).
    destruct (@skip_wf b1 sp' Hwf1 ltac:(lia)) as (Hwf' & Hsame' & Hsize' & Hoff').
    split; [eapply same_file_trans; eassumption|].
    split; [congruence|]. split; [assumption|].
    split; [unfold wf in Hwf1; lia|]. split; [discriminate|].
    intros _ Hread Hcap.
    destruct Hwhy as [Hwhy|[Hwhy|Hwhy]]; [lia| |lia].
    subst sp'. destruct (0 <? sp) eqn:E0.
    + apply Nat.ltb_lt in E0.
      apply trim_eof_spec; try assumption; try lia.
      symmetry. apply Hsame.
    + apply Nat.ltb_ge in E0.
      destruct Hfirst as [(-> & _)|]; [|lia].
      unfold body_trim, rest.
      replace (offset b + sp) with (offset b) by lia.
      replace (limit b) with (offset b) by lia.
      rewrite seg_nil. reflexivity.
  - destruct (Hfound eq_refl) as (j & Hj & Hj6 & Hsep & Hcr & Hno).
    destruct (@skip_wf b1 sp Hwf1 Hsp) as (Hwf' & Hsame' & Hsize' & Hoff').
    split; [eapply same_file_trans; eassumption|].
    split; [congruence|]. split; [assumption|].
    split; [unfold wf in Hwf1; lia|]. split; [|discriminate].
    intros _. exists (offset b1 + j).
    unfold wf in Hwf1.
    split; [lia|]. split; [lia|]. split; [assumption|]. split.
    + intros E. apply Hcr. lia.
    + intros E. destruct (Hno ltac:(lia)) as [(? & _)|]; [now left|now right].
Qed.

Lemma mbox_read_message_total (fuel : nat) (b : IOBuffer) :
  wf b -> unread b + 1 < fuel ->
  exists r, read_loop fuel b 0 = Some r.
Proof.
  intros Hwf Hfuel. apply read_loop_total; [assumption|lia|].
  destruct (0 <? buffered b); lia.
Qed.

(** ** Facts about [body_trim] *)

Lemma firstn_add (l : list ascii) (m k : nat) :
  firstn (m + k) l = firstn m l ++ firstn k (skipn m l).
Proof.
  revert l. induction m as [|m IH]; intros l; simpl.
  - reflexivity.
  - destruct l as [|x l]; simpl.
    + now rewrite firstn_nil.
    + f_equal. apply IH.
Qed.

Lemma seg_app (f : list ascii) (a b c : nat) :
  a <= b -> b <= c -> seg f a c = seg f a b ++ seg f b c.
Proof.
  intros Hab Hbc. unfold seg.
  replace (c - a) with ((b - a) + (c - b)) by lia.
  rewrite firstn_add, skipn_skipn. do 3 f_equal. lia.
Qed.

Lemma strip_last_snoc (c x : ascii) (l : list ascii) :
  strip_last c (l ++ [x]) = if (x =? c)%char then l else l ++ [x].
Proof.
  unfold strip_last. now rewrite last_last, removelast_last.
Qed.

Lemma strip_last_nil (c : ascii) : strip_last c [] = [].
Proof.
  unfold strip_last. cbn [last removelast].
  destruct (zero =? c)%char; reflexivity.
Qed.

Lemma strip_last_app (c : ascii) (pre t : list ascii) :
  last pre zero <> c ->
  strip_last c (pre ++ t) = pre ++ strip_last c t.
Proof.
  intros Hpre. induction t as [|x t' _] using rev_ind.
  - rewrite app_nil_r. unfold strip_last at 1.
    apply Ascii.eqb_neq in Hpre. rewrite Hpre.
    now rewrite strip_last_nil, app_nil_r.
  - rewrite app_assoc, !strip_last_snoc.
    destruct (x =? c)%char; [reflexivity|]. now rewrite app_assoc.
Qed.

(** What [body_trim] takes off is nothing, LF, CR or CR LF. *)
Lemma body_trim_suffix (l : list ascii) :
  exists t, l = body_trim l ++ t /\
            (t = [] \/ t = [LF] \/ t = [CR] \/ t = [CR; LF]).
Proof.
  assert (Hone : forall c l0, exists t,
             l0 = strip_last c l0 ++ t /\ (t = [] \/ t = [c])).
  { intros c l0. induction l0 as [|x l' _] using rev_ind.
    - exists []. split; [|now left]. now rewrite strip_last_nil.
    - rewrite strip_last_snoc.
      destruct (x =? c)%char eqn:E.
      + apply Ascii.eqb_eq in E. subst. exists [c]. auto.
      + exists []. rewrite app_nil_r. auto. }
  unfold body_trim.
  destruct (Hone LF l) as (t1 & E1 & H1).
  destruct (Hone CR (strip_last LF l)) as (t2 & E2 & H2).
  exists (t2 ++ t1). split.
  - rewrite app_assoc, <- E2. exact E1.
  - destruct H1 as [-> | ->], H2 as [-> | ->]; simpl; auto.
Qed.

Lemma body_trim_lf_lf (x : list ascii) :
  body_trim (x ++ [LF; LF]) = x ++ [LF].
Proof.
  unfold body_trim.
  change (x ++ [LF; LF]) with (x ++ [LF] ++ [LF]).
  rewrite app_assoc, strip_last_snoc, Ascii.eqb_refl, strip_last_snoc.
  reflexivity.
Qed.

Lemma body_trim_cr_lf (x : list ascii) :
  body_trim (x ++ [CR; LF]) = x.
Proof.
  unfold body_trim.
  change (x ++ [CR; LF]) with (x ++ [CR] ++ [LF]).
  rewrite app_assoc, strip_last_snoc, Ascii.eqb_refl, strip_last_snoc.
  now rewrite Ascii.eqb_refl.
Qed.

Lemma body_trim_lf (x : list ascii) (c : ascii) :
  c <> CR -> body_trim (x ++ [c; LF]) = x ++ [c].
Proof.
  intros Hc. unfold body_trim.
  change (x ++ [c; LF]) with (x ++ [c] ++ [LF]).
  rewrite app_assoc, strip_last_snoc, Ascii.eqb_refl, strip_last_snoc.
  apply Ascii.eqb_neq in Hc. now rewrite Hc.
Qed.

Lemma body_trim_from (t : list ascii) :
  body_trim (bytes "From " ++ t) = bytes "From " ++ body_trim t.
Proof.
  unfold body_trim. rewrite !strip_last_app; [reflexivity| |]; discriminate.
Qed.

(** * The boundary scanner *)

Lemma seg_skipn (f : list ascii) (a d n : nat) :
  d <= n -> seg f (a + d) (a + n) = skipn d (seg f a (a + n)).
Proof.
  intros Hd. unfold seg. rewrite skipn_firstn_comm, skipn_skipn.
  f_equal; [lia|]. f_equal. lia.
Qed.

(** C3 (amended): after a full pass over the buffered window that finds no
    [<LF>From ] the scanner skips the stream forward past all but the last 7
    bytes of the window (past nothing when the window holds fewer than 7
    bytes); those bytes stay buffered as lookback and the next pass starts
    behind them. *)
Theorem scanner_keeps_7_bytes (b b' b1 : IOBuffer) (sp sp1 : nat) (msg : list ascii) :
  wf b -> sp <= buffered b ->
  io_buffer_read_data b sp = (b', Some msg) ->
  read_pass b sp = Again b1 sp1 ->
  scan msg sp = length msg /\
  sp1 = Nat.min (length msg) 7 /\
  offset b1 = offset b' + (length msg - Nat.min (length msg) 7) /\
  buffered b1 = Nat.min (length msg) 7 /\
  io_buffer_get_data b1 = skipn (length msg - Nat.min (length msg) 7) msg /\
  wf b1 /\ sp1 <= buffered b1.
Proof.
  intros Hwf Hsp Hrd Hp.
  assert (Hinv : wf b1 /\ sp1 <= buffered b1).
  { destruct (read_pass_again _ _ _ _ Hwf Hsp Hp) as (_ & _ & Hwf1 & n & Hn).
    split; [assumption|]. lia. }
  cut (scan msg sp = length msg /\
       sp1 = Nat.min (length msg) 7 /\
       offset b1 = offset b' + (length msg - Nat.min (length msg) 7) /\
       buffered b1 = Nat.min (length msg) 7 /\
       io_buffer_get_data b1
       = skipn (length msg - Nat.min (length msg) 7) msg).
  { intros (H1 & H2 & H3 & H4 & H5). auto 10. }
  clear Hinv.
  destruct (read_data_cases _ sp Hwf)
    as [(Hrd' & _) | (b2 & Hrd' & Hsame & Hsize & Hoff & Hwf2 & Hmono & _)];
    rewrite Hrd in Hrd'; [discriminate|].
  injection Hrd' as -> ->.
  pose proof (get_data_length _ Hwf2) as Hlen.
  unfold read_pass in Hp. rewrite Hrd in Hp.
  destruct (scan (io_buffer_get_data b2) sp <? length (io_buffer_get_data b2)) eqn:Elt;
    [discriminate|].
  apply Nat.ltb_ge in Elt.
  assert (Hscan : scan (io_buffer_get_data b2) sp = length (io_buffer_get_data b2)).
  { assert (Hle : sp <= length (io_buffer_get_data b2)) by lia.
    destruct (scan_window (io_buffer_get_data b2) sp Hle)
      as [(Hr & _) | (k & Hk & _ & [(Hr & _) | (Hr & _)])]; lia. }
  rewrite Hscan, Hlen in Hp. split; [assumption|]. rewrite Hlen.
  assert (Hmin : (if buffered b2 <? 7 then buffered b2 else 7)
                 = Nat.min (buffered b2) 7).
  { destruct (buffered b2 <? 7) eqn:E7;
      [apply Nat.ltb_lt in E7 | apply Nat.ltb_ge in E7]; lia. }
  destruct (0 <? buffered b2) eqn:E0.
  - rewrite Hmin in Hp. injection Hp as <- <-. simpl.
    split; [reflexivity|]. split; [reflexivity|]. split; [lia|].
    rewrite !get_data_seg. simpl.
    replace (offset b2 + (buffered b2 - Nat.min (buffered b2) 7) +
             (buffered b2 - (buffered b2 - Nat.min (buffered b2) 7)))
      with (offset b2 + buffered b2) by lia.
    apply seg_skipn. lia.
  - apply Nat.ltb_ge in E0. injection Hp as <- <-.
    assert (E : buffered b2 = 0) by lia.
    assert (sp = 0) by lia. subst sp. rewrite E. simpl.
    repeat split. now rewrite Nat.add_0_r.
Qed.

Lemma scanner_keeps_7_bytes_witness :
  let b := open ten_bytes 100 in
  let b1 := io_buffer_skip (set_buffered b 10) 3 in
  scan ten_bytes 0 = length ten_bytes /\
  7 = Nat.min (length ten_bytes) 7 /\
  offset b1 = offset (set_buffered b 10) + (length ten_bytes - Nat.min (length ten_bytes) 7) /\
  buffered b1 = Nat.min (length ten_bytes) 7 /\
  io_buffer_get_data b1 = skipn (length ten_bytes - Nat.min (length ten_bytes) 7) ten_bytes /\
  wf b1 /\ 7 <= buffered b1.
Proof.
  intros b b1.
  apply (@scanner_keeps_7_bytes b (set_buffered b 10) b1 0 7 ten_bytes).
  - unfold wf. vm_compute. lia.
  - vm_compute. lia.
  - reflexivity.
  - reflexivity.
Defined.

(** With a lookback of 6 bytes the statement fails: a window of ten bytes
    without a separator is left with 7 bytes buffered and the cursor moved
    by 3, not with 6 and by 4. *)
Lemma scanner_keeps_6_bytes_fails :
  ~ (forall b1 sp1,
       read_pass (open ten_bytes 100) 0 = Again b1 sp1 ->
       buffered b1 = 6 /\ offset b1 = 10 - 6).
Proof.
  intros H.
  destruct (H (io_buffer_skip (set_buffered (open ten_bytes 100) 10) 3) 7 eq_refl)
    as (Hb & _).
  discriminate Hb.
Qed.

(** C5: the scanner reports a boundary only at the six contiguous bytes LF,
    'F', 'r', 'o', 'm', ' ' of the stream: the cursor is left on that LF, or
    on the CR before it when one precedes it in the body; a stream without
    such six bytes, whatever "From " it has inside a line, has no boundary. *)
Theorem boundary_only_at_separator (fuel : nat) (b : IOBuffer) :
  wf b -> unread b + 1 < fuel ->
  exists b1 sp lastmsg b',
    read_loop fuel b 0 = Some (b1, sp, lastmsg) /\
    mbox_read_message fuel b = Some b' /\
    (lastmsg = false ->
     exists j, sep_at (file b) j /\ offset b <= j /\ j + 6 <= limit b /\
       ((offset b' = j /\ (j = offset b \/ at_ (file b) (j - 1) <> CR)) \/
        (offset b' + 1 = j /\ offset b <= offset b' /\
         at_ (file b) (offset b') = CR))) /\
    ((forall j, offset b <= j -> j + 6 <= limit b -> ~ sep_at (file b) j) ->
     lastmsg = true).
Proof.
  intros Hwf Hfuel.
  destruct (mbox_read_message_total _ _ Hwf Hfuel) as (((b1 & sp) & lastmsg) & Hrun).
  destruct (@mbox_read_message_spec fuel b b1 sp lastmsg Hwf Hrun)
    as (b' & Hmsg & _ & _ & _ & Hrange & Hfound & _).
  exists b1, sp, lastmsg, b'.
  split; [assumption|]. split; [assumption|].
  assert (Hsep : lastmsg = false ->
     exists j, sep_at (file b) j /\ offset b <= j /\ j + 6 <= limit b /\
       ((offset b' = j /\ (j = offset b \/ at_ (file b) (j - 1) <> CR)) \/
        (offset b' + 1 = j /\ offset b <= offset b' /\
         at_ (file b) (offset b') = CR))).
  { intros E. destruct (Hfound E) as (j & Hj & Hj6 & Hsep & Hcr & Hno).
    exists j. split; [assumption|]. split; [lia|]. split; [assumption|].
    destruct (Nat.eq_dec j (offset b')) as [Ej|Ej].
    - left. split; [now symmetry|]. auto.
    - right. split; [lia|]. split; [lia|]. apply Hcr. lia. }
  split; [assumption|].
  intros Hnone. destruct lastmsg; [reflexivity|].
  destruct (Hsep eq_refl) as (j & Hj & Hlo & Hhi & _).
  now apply (Hnone j Hlo Hhi) in Hj.
Qed.

Lemma boundary_only_at_separator_witness :
  exists b1 sp lastmsg b',
    read_loop 40 (open body1_then_from 4) 0 = Some (b1, sp, lastmsg) /\
    mbox_read_message 40 (open body1_then_from 4) = Some b' /\
    (lastmsg = false ->
     exists j, sep_at body1_then_from j /\ 0 <= j /\ j + 6 <= 22 /\
       ((offset b' = j /\ (j = 0 \/ at_ body1_then_from (j - 1) <> CR)) \/
        (offset b' + 1 = j /\ 0 <= offset b' /\
         at_ body1_then_from (offset b') = CR))) /\
    ((forall j, 0 <= j -> j + 6 <= 22 -> ~ sep_at body1_then_from j) ->
     lastmsg = true).
Proof.
  apply (@boundary_only_at_separator 40 (open body1_then_from 4)).
  - unfold wf. vm_compute. lia.
  - vm_compute. lia.
Defined.

(** What lines 65-76 leave out at the end of the stream.  The scanner
    returns; when it finds no next separator, as on every stream without
    the six bytes of one, the bytes it passes over are the rest of the
    stream less at most one trailing LF and then at most one trailing CR:
    what is left out is nothing, LF, CR or CR LF, a body ending in CR LF
    loses both, and a body ending in two newlines keeps the first of
    them. *)
Lemma last_message_trim (fuel : nat) (b : IOBuffer) :
  wf b -> 0 < max_read b -> 7 < max_buffer_size b ->
  unread b + 1 < fuel ->
  exists b1 sp lastmsg b',
    read_loop fuel b 0 = Some (b1, sp, lastmsg) /\
    mbox_read_message fuel b = Some b' /\
    ((forall j, offset b <= j -> j + 6 <= limit b -> ~ sep_at (file b) j) ->
     lastmsg = true) /\
    (lastmsg = true ->
     seg (file b) (offset b) (offset b') = body_trim (rest b) /\
     (exists t, rest b = seg (file b) (offset b) (offset b') ++ t /\
                offset b' + length t = limit b /\
                (t = [] \/ t = [LF] \/ t = [CR] \/ t = [CR; LF])) /\
     (forall x, rest b = x ++ [LF; LF] ->
                seg (file b) (offset b) (offset b') = x ++ [LF]) /\
     (forall x, rest b = x ++ [CR; LF] ->
                seg (file b) (offset b) (offset b') = x) /\
     (forall x c, c <> CR -> rest b = x ++ [c; LF] ->
                  seg (file b) (offset b) (offset b') = x ++ [c])).
Proof.
  intros Hwf Hread Hcap Hfuel.
  destruct (mbox_read_message_total _ _ Hwf Hfuel) as (((b1 & sp) & lastmsg) & Hrun).
  destruct (@mbox_read_message_spec fuel b b1 sp lastmsg Hwf Hrun)
    as (b' & Hmsg & _ & _ & _ & Hrange & Hfound & Hlast).
  exists b1, sp, lastmsg, b'.
  split; [assumption|]. split; [assumption|]. split.
  { intros Hnone. destruct lastmsg; [reflexivity|].
    destruct (Hfound eq_refl) as (j & Hj & Hj6 & Hsep & _).
    apply (Hnone j) in Hsep; [contradiction|lia|assumption]. }
  intros E. specialize (Hlast E Hread Hcap).
  split; [assumption|]. rewrite Hlast. split.
  - destruct (body_trim_suffix (rest b)) as (t & Et & Ht).
    exists t. split; [assumption|]. split; [|assumption].
    apply (f_equal (@length ascii)) in Et.
    rewrite length_app, <- Hlast in Et.
    pose proof (limit_length b) as HL.
    unfold wf in Hwf.
    unfold rest in Et. rewrite !seg_length in Et by lia. lia.
  - split; [|split].
    + intros x ->. apply body_trim_lf_lf.
    + intros x ->. apply body_trim_cr_lf.
    + intros x c Hc ->. now apply body_trim_lf.
Qed.

Lemma last_message_trim_witness :
  exists b1 sp lastmsg b',
    read_loop 20 (open body2 4) 0 = Some (b1, sp, lastmsg) /\
    mbox_read_message 20 (open body2 4) = Some b' /\
    ((forall j, 0 <= j -> j + 6 <= limit (open body2 4) ->
                ~ sep_at body2 j) -> lastmsg = true) /\
    (lastmsg = true ->
     seg body2 0 (offset b') = body_trim (rest (open body2 4)) /\
     (exists t, rest (open body2 4) = seg body2 0 (offset b') ++ t /\
                offset b' + length t = limit (open body2 4) /\
                (t = [] \/ t = [LF] \/ t = [CR] \/ t = [CR; LF])) /\
     (forall x, rest (open body2 4) = x ++ [LF; LF] ->
                seg body2 0 (offset b') = x ++ [LF]) /\
     (forall x, rest (open body2 4) = x ++ [CR; LF] ->
                seg body2 0 (offset b') = x) /\
     (forall x c, c <> CR -> rest (open body2 4) = x ++ [c; LF] ->
                  seg body2 0 (offset b') = x ++ [c])).
Proof.
  apply (@last_message_trim 20 (open body2 4)).
  - unfold wf. vm_compute. lia.
  - vm_compute. lia.
  - vm_compute. lia.
  - vm_compute. lia.
Defined.

(** The ends of a last message: LF, CR LF, two LF, a lone CR, none. *)
Example last_message_ends :
  map (fun tail =>
         option_map offset
           (mbox_read_message 20 (open (bytes "Body2" ++ tail) 4)))
      [[LF]; [CR; LF]; [LF; LF]; [CR]; []]
  = [Some 5; Some 5; Some 6; Some 5; Some 5].
Proof. vm_compute. reflexivity. Qed.

Lemma not_line_end_in_from (i : nat) :
  i < 5 -> at_ (bytes "From ") i <> LF /\ at_ (bytes "From ") i <> CR.
Proof.
  intros Hi.
  do 5 (destruct i as [|i]; [split; discriminate|]). lia.
Qed.

(** C8: when the body starts with the bytes "From " the scanner does not
    take them for the next separator: the boundary it reports lies at least
    5 bytes behind the start of the body, so that the bytes passed over, the
    message body, start with "From ". *)
Theorem leading_from_is_body (fuel : nat) (b : IOBuffer) :
  wf b -> 0 < max_read b -> 7 < max_buffer_size b ->
  unread b + 1 < fuel ->
  offset b + 5 <= limit b ->
  seg (file b) (offset b) (offset b + 5) = bytes "From " ->
  exists b',
    mbox_read_message fuel b = Some b' /\
    offset b + 5 <= offset b' /\
    firstn 5 (seg (file b) (offset b) (offset b')) = bytes "From ".
Proof.
  intros Hwf Hread Hcap Hfuel Hroom Hfrom.
  destruct (mbox_read_message_total _ _ Hwf Hfuel) as (((b1 & sp) & lastmsg) & Hrun).
  destruct (@mbox_read_message_spec fuel b b1 sp lastmsg Hwf Hrun)
    as (b' & Hmsg & _ & _ & _ & Hrange & Hfound & Hlast).
  pose proof (limit_length b) as HL.
  assert (Hchar : forall p, offset b <= p < offset b + 5 ->
                            at_ (file b) p <> LF /\ at_ (file b) p <> CR).
  { intros p Hp.
    replace p with (offset b + (p - offset b)) by lia.
    rewrite <- (@at_seg (file b) (offset b) (offset b + 5)) by lia.
    rewrite Hfrom. apply not_line_end_in_from. lia. }
  assert (Hfar : offset b + 5 <= offset b').
  { destruct lastmsg.
    - specialize (Hlast eq_refl Hread Hcap).
      apply (f_equal (@length ascii)) in Hlast.
      rewrite seg_length in Hlast by lia.
      unfold rest in Hlast.
      rewrite (@seg_app (file b) (offset b) (offset b + 5) (limit b)) in Hlast
        by lia.
      rewrite Hfrom, body_trim_from, length_app in Hlast.
      simpl in Hlast. lia.
    - destruct (Hfound eq_refl) as (j & Hj & Hj6 & Hsep & Hcr & _).
      destruct (sep_at_first _ _ Hsep) as (Hlf & _).
      destruct (Nat.le_gt_cases (offset b + 5) (offset b')) as [|Hnear];
        [assumption|exfalso].
      destruct (Nat.eq_dec j (offset b')) as [Ej|Ej].
      + apply (proj1 (Hchar j ltac:(lia))). assumption.
      + apply (proj2 (Hchar (offset b') ltac:(lia))). apply Hcr. lia. }
  exists b'. split; [assumption|]. split; [assumption|].
  rewrite (@seg_app (file b) (offset b) (offset b + 5) (offset b')) by lia.
  rewrite Hfrom. reflexivity.
Qed.

Lemma leading_from_is_body_witness :
  exists b',
    mbox_read_message 40 (open from_in_body 4) = Some b' /\
    0 + 5 <= offset b' /\
    firstn 5 (seg from_in_body 0 (offset b')) = bytes "From ".
Proof.
  apply (@leading_from_is_body 40 (open from_in_body 4)).
  - unfold wf. vm_compute. lia.
  - vm_compute. lia.
  - vm_compute. lia.
  - vm_compute. lia.
  - vm_compute. lia.
  - reflexivity.
Defined.

(** The boundary of that body is the line terminator before "From b 2". *)
Example leading_from_boundary :
  option_map offset (mbox_read_message 40 (open from_in_body 4)) = Some 17.
Proof. vm_compute. reflexivity. Qed.

(** A "From " inside a line is no separator: the scanner runs to the end of
    the stream and trims its last LF. *)
Example midline_from_ignored :
  let s := bytes "Subject: From the team" ++ [LF] in
  option_map snd (read_loop 40 (open s 5) 0) = Some true /\
  option_map offset (mbox_read_message 40 (open s 5)) = Some 22.
Proof. split; vm_compute; reflexivity. Qed.

(** The spec's boundary example: the first body ends before "\r\nFrom b 2",
    the last one is "Body2" without its LF. *)
Example spec_boundary_example :
  option_map offset (mbox_read_message 40 (open body1_then_from 4)) = Some 5 /\
  option_map offset (mbox_read_message 40 (open body2 4)) = Some 5.
Proof. split; vm_compute; reflexivity. Qed.


(** * The message transaction *)

Lemma update_rec_twice (l : list MailIndexRecord) (rec : nat) f g :
  update_rec (update_rec l rec f) rec g = update_rec l rec (fun r => g (f r)).
Proof.
  revert rec. induction l as [|r l IH]; intros [|rec]; simpl; auto.
  now rewrite IH.
Qed.

(** The update of a record, step by step: what is logged, what is stored
    into the record, and where the stream is left. *)
Lemma update_message_trace env index inbuf rec u a s index' inbuf' ok :
  update_message env index inbuf rec u a s = (index', inbuf', ok) ->
  mbox_path index' = mbox_path index /\ set_flags index' = set_flags index /\
  error index' = error index /\
  size inbuf' = size inbuf /\ offset inbuf' = s /\ buffered inbuf' = 0 /\
  (headers_ok env -> same_file inbuf inbuf') /\
  exists dg fl,
    let begun :=
      [EvUpdateBegin rec; EvUpdateFieldRaw FIELD_TYPE_LOCATION (RawOffset a);
       EvHeaderInit; EvUpdateHeaders;
       EvUpdateFieldRaw FIELD_TYPE_MD5 (RawBytes dg)] in
    (ok = false /\
     log index' = log index ++ begun ++ [EvUpdateEnd false; EvHeaderFree] /\
     records index' = records index)
    \/
    (ok = false /\
     log index' = log index ++ begun ++ tx_committed rec fl ++ [EvFmsync false] /\
     records index' =
     update_rec (records index) rec
       (fun r => mkRecord (uid r) fl (internal_date r)))
    \/
    (ok = true /\
     log index' = log index ++ begun ++ tx_committed rec fl ++
                  [EvFmsync true; EvStoreUid rec u; EvHeaderFree] /\
     records index' =
     update_rec (records index) rec
       (fun r => mkRecord u fl (internal_date r))).
Proof.
  unfold update_message.
  match goal with
  | |- context [mail_index_update_headers env ?l ?b] =>
      pose proof (fun H : headers_ok env => H l b) as Hh;
      destruct (mail_index_update_headers env l b) as (hbuf & ctx)
  end.
  assert (Hsame : headers_ok env ->
            same_file inbuf (io_buffer_seek (set_size hbuf (size inbuf)) s)).
  { intros H. specialize (Hh H). unfold same_file in *. simpl in *. tauto. }
  clear Hh.
  cbn [emit log mbox_path set_flags error records].
  repeat rewrite <- app_assoc. cbn [app].
  destruct (update_end env _); cbn [negb].
  - destruct (mail_index_fmsync env _); cbn [negb];
      intros E; injection E as <- <- <-;
      cbn; repeat rewrite <- app_assoc; cbn [app];
      (split; [reflexivity|]); (split; [reflexivity|]);
      (split; [reflexivity|]); (split; [reflexivity|]);
      (split; [reflexivity|]); (split; [reflexivity|]);
      (split; [assumption|]); exists (md5 ctx), (flags ctx).
    + right. right. split; [reflexivity|]. split; [reflexivity|].
      apply update_rec_twice.
    + right. left. auto.
  - intros E; injection E as <- <- <-.
    cbn; repeat rewrite <- app_assoc; cbn [app].
    do 6 (split; [reflexivity|]). split; [assumption|].
    exists (md5 ctx), (flags ctx). left. auto.
Qed.

Lemma update_rec_snoc (l : list MailIndexRecord) (r : MailIndexRecord) f :
  update_rec (l ++ [r]) (length l) f = l ++ [f r].
Proof.
  induction l as [|x l IH]; simpl; [reflexivity|]. now rewrite IH.
Qed.

(** One message transaction, step by step.  It ends in one of five ways: no
    From-line, no record, commit failed, barrier failed, done. *)
Lemma append_next_run env fuel index inbuf index' inbuf' ok :
  mbox_index_append_next env fuel index inbuf = Some (index', inbuf', ok) ->
  mbox_path index' = mbox_path index /\
  exists b0 data pos,
    from_line fuel inbuf 0 = Some (b0, data, pos) /\
    ((no_from_line data pos = true /\ ok = false /\ inbuf' = b0 /\
      log index' = log index ++ [EvSetError (from_line_error index)] /\
      set_flags index' = N.lor (set_flags index) (MAIL_INDEX_FLAG_FSCK env) /\
      error index' = Some (from_line_error index) /\
      records index' = records index)
     \/
     (no_from_line data pos = false /\
      set_flags index' = set_flags index /\ error index' = error index /\
      exists b2,
        mbox_read_message fuel (io_buffer_skip b0 (pos + 1)) = Some b2 /\
        let d := from_line_date env data in
        let rec := length (records index) in
        let a := start_offset b0 + (offset b0 + (pos + 1)) in
        ((ok = false /\ inbuf' = b2 /\
          append env (log index) d = None /\
          log index' = log index ++ [EvAppend d None] /\
          records index' = records index)
         \/
         (exists u dg fl,
            append env (log index) d = Some u /\
            size inbuf' = size b2 /\ offset inbuf' = offset b2 /\
            buffered inbuf' = 0 /\ (headers_ok env -> same_file b2 inbuf') /\
            ((ok = false /\
              log index' = log index ++ tx_open rec d u a dg ++
                           [EvUpdateEnd false; EvHeaderFree] /\
              records index' = records index ++ [mkRecord 0 0 d])
             \/
             (ok = false /\
              log index' = log index ++ tx_open rec d u a dg ++
                           tx_committed rec fl ++ [EvFmsync false] /\
              records index' = records index ++ [mkRecord 0 fl d])
             \/
             (ok = true /\
              log index' = log index ++ tx_open rec d u a dg ++
                           tx_committed rec fl ++
                           [EvFmsync true; EvStoreUid rec u; EvHeaderFree] /\
              records index' = records index ++ [mkRecord u fl d])))))).
Proof.
  unfold mbox_index_append_next.
  destruct (from_line fuel inbuf 0) as [((b0 & data) & pos)|]; [|discriminate].
  destruct (no_from_line data pos) eqn:Hchk.
  - intros E. injection E as <- <- <-. split; [first [reflexivity|assumption]|].
    exists b0, data, pos. split; [first [reflexivity|assumption]|]. left.
    repeat split; first [reflexivity|assumption].
  - destruct (mbox_read_message fuel (io_buffer_skip b0 (pos + 1)))
      as [b2|] eqn:Hmsg; [|discriminate].
    unfold mail_index_record_append.
    destruct (append env (log index) (from_line_date env data)) as [u|] eqn:Happ.
    + intros E. injection E as E.
      apply update_message_trace in E.
      cbn [emit log mbox_path set_flags error records] in E.
      destruct E as (Hpath & Hfl & Herr & Hsize & Hoff & Hbuf & Hsame & dg & fl & Hcases).
      split; [assumption|].
      exists b0, data, pos. split; [first [reflexivity|assumption]|]. right.
      split; [first [reflexivity|assumption]|]. split; [assumption|]. split; [assumption|].
      exists b2. split; [first [reflexivity|assumption]|]. right.
      exists u, dg, fl.
      split; [first [reflexivity|assumption]|]. split; [assumption|]. split; [assumption|].
      split; [assumption|]. split; [assumption|].
      cbv zeta in Hcases. rewrite !update_rec_snoc in Hcases.
      cbn [uid msg_flags internal_date] in Hcases.
      repeat rewrite <- app_assoc in Hcases. cbn [app] in Hcases.
      unfold tx_open. cbn [app io_buffer_skip start_offset offset].
      destruct Hcases as [(-> & Hl & Hr) | [(-> & Hl & Hr) | (-> & Hl & Hr)]].
      * left. auto.
      * right. left. auto.
      * right. right. auto.
    + intros E. injection E as <- <- <-. split; [first [reflexivity|assumption]|].
      exists b0, data, pos. split; [first [reflexivity|assumption]|]. right.
      split; [first [reflexivity|assumption]|]. split; [first [reflexivity|assumption]|]. split; [first [reflexivity|assumption]|].
      exists b2. split; [first [reflexivity|assumption]|]. left.
      repeat split; first [reflexivity|assumption].
Qed.

(** ** Order of events in a trace *)

Lemma before_cons (e1 e2 x : Event) (l : list Event) :
  before e1 e2 l -> before e1 e2 (x :: l).
Proof.
  intros (l1 & l2 & l3 & ->). exists (x :: l1), l2, l3. reflexivity.
Qed.

Lemma before_here (e1 e2 : Event) (l : list Event) :
  In e2 l -> before e1 e2 (e1 :: l).
Proof.
  intros H. apply in_split in H. destruct H as (l2 & l3 & ->).
  exists [], l2, l3. reflexivity.
Qed.

Ltac find_before :=
  repeat first [ apply before_here; cbn; auto 20 | apply before_cons ].

Ltac in_cases H :=
  cbn in H;
  repeat (destruct H as [H|H]; [try discriminate H|]);
  try contradiction.

Lemma record_at_old (index index' : MailIndex) (r : MailIndexRecord) (i : nat) :
  records index' = records index ++ [r] ->
  i < length (records index) ->
  record_at index' i = record_at index i.
Proof.
  intros E Hi. unfold record_at. rewrite E. now apply app_nth1.
Qed.

Lemma record_at_new (index index' : MailIndex) (r : MailIndexRecord) :
  records index' = records index ++ [r] ->
  record_at index' (length (records index)) = r.
Proof.
  intros E. unfold record_at. rewrite E, app_nth2, Nat.sub_diag by lia.
  reflexivity.
Qed.

(** In a message transaction the identity is stored into the record only
    after the commit and then the barrier have succeeded, and after
    location, digest, flags and date were handed to the index; when the
    commit or the barrier fails the transaction returns failure, no
    identity is stored and the new record is left with uid 0.  No other
    record is given an identity. *)
Lemma tx_uid_after_barrier env fuel index inbuf index' inbuf' ok :
  mbox_index_append_next env fuel index inbuf = Some (index', inbuf', ok) ->
  let rec := length (records index) in
  exists evs,
    log index' = log index ++ evs /\
    (forall r u, In (EvStoreUid r u) evs ->
       r = rec /\ ok = true /\ uid (record_at index' rec) = u /\
       before (EvUpdateEnd true) (EvFmsync true) evs /\
       before (EvFmsync true) (EvStoreUid r u) evs /\
       (exists a, before (EvUpdateFieldRaw FIELD_TYPE_LOCATION (RawOffset a))
                         (EvFmsync true) evs) /\
       (exists dg, before (EvUpdateFieldRaw FIELD_TYPE_MD5 (RawBytes dg))
                          (EvFmsync true) evs) /\
       (exists fl, before (EvStoreFlags r fl) (EvFmsync true) evs /\
                   msg_flags (record_at index' rec) = fl) /\
       (exists d, before (EvAppend d (Some u)) (EvFmsync true) evs /\
                  internal_date (record_at index' rec) = d) /\
       ~ In (EvUpdateEnd false) evs /\ ~ In (EvFmsync false) evs) /\
    (In (EvUpdateEnd false) evs \/ In (EvFmsync false) evs ->
       ok = false /\ count is_store_uid evs = 0 /\
       uid (record_at index' rec) = 0) /\
    (forall i, i < rec -> uid (record_at index' i) = uid (record_at index i)).
Proof.
  intros Hrun rec. subst rec.
  destruct (append_next_run _ _ _ _ _ _ _ Hrun)
    as (_ & b0 & data & pos & _ &
        [(_ & -> & _ & Hlog & _ & _ & Hrec)
        |(_ & _ & _ & b2 & _ &
          [(-> & _ & _ & Hlog & Hrec)
          |(u & dg & fl & _ & _ & _ & _ & _ &
            [(-> & Hlog & Hrec)|[(-> & Hlog & Hrec)|(-> & Hlog & Hrec)]])])]);
    eexists; (split; [exact Hlog|]); unfold tx_open, tx_committed; cbn [app].
  - split; [intros r v H; in_cases H|]. split; [intros [H|H]; in_cases H|].
    intros i _. unfold record_at. now rewrite Hrec.
  - split; [intros r v H; in_cases H|]. split; [intros [H|H]; in_cases H|].
    intros i _. unfold record_at. now rewrite Hrec.
  - split; [intros r v H; in_cases H|]. split.
    + intros _. split; [reflexivity|]. split; [reflexivity|].
      now rewrite (@record_at_new index index' _ Hrec).
    + intros i Hi. now rewrite (@record_at_old index index' _ i Hrec Hi).
  - split; [intros r v H; in_cases H|]. split.
    + intros _. split; [reflexivity|]. split; [reflexivity|].
      now rewrite (@record_at_new index index' _ Hrec).
    + intros i Hi. now rewrite (@record_at_old index index' _ i Hrec Hi).
  - split; [|split].
    + intros r v H. in_cases H. injection H as <- <-.
      rewrite (@record_at_new index index' _ Hrec). cbn [uid msg_flags internal_date].
      split; [reflexivity|]. split; [reflexivity|]. split; [reflexivity|].
      split; [find_before|]. split; [find_before|].
      split; [eexists; find_before|]. split; [eexists; find_before|].
      split; [eexists; split; [find_before|reflexivity]|].
      split; [eexists; split; [find_before|reflexivity]|].
      split; intros H; in_cases H.
    + intros [H|H]; in_cases H.
    + intros i Hi. now rewrite (@record_at_old index index' _ i Hrec Hi).
Qed.

(** ** The From-line loop *)

Lemma find_lf_spec (data : list ascii) (todo pos : nat) :
  pos <= find_lf data todo pos <= pos + todo /\
  (find_lf data todo pos < pos + todo ->
   at_ data (find_lf data todo pos) = LF).
Proof.
  revert pos. induction todo as [|todo IH]; intros pos; simpl.
  - split; lia.
  - destruct (at_ data pos =? LF)%char eqn:E.
    + apply Ascii.eqb_eq in E. split; [lia|auto].
    + destruct (IH (S pos)) as (Hr & Hlf). split; [lia|].
      intros H. apply Hlf. lia.
Qed.

(** What the From-line loop returns: the cursor has not moved, and either
    the read was refused and there is no data, or [data] is the buffer and
    [pos] the place of an LF in it. *)
Lemma from_line_spec (fuel : nat) (b b0 : IOBuffer) (pos p : nat)
      (data : list ascii) :
  wf b -> pos <= buffered b ->
  from_line fuel b pos = Some (b0, data, p) ->
  same_file b b0 /\ size b0 = size b /\ offset b0 = offset b /\ wf b0 /\
  buffered b <= buffered b0 /\
  (data = [] \/
   (data = io_buffer_get_data b0 /\ p < buffered b0 /\ at_ data p = LF)).
Proof.
  revert b pos. induction fuel as [|fuel IH]; intros b pos Hwf Hpos Hrun.
  - discriminate.
  - simpl in Hrun.
    destruct (read_data_cases _ pos Hwf)
      as [(Hrd & Hth & Hwhy)
         | (buf' & Hrd & Hsame & Hsize & Hoff & Hwf' & Hmono & Hkeep & Hgrow)];
      rewrite Hrd in Hrun.
    + injection Hrun as <- <- <-.
      repeat split; auto using same_file_refl.
    + pose proof (get_data_length _ Hwf') as Hlen.
      destruct (find_lf_spec (io_buffer_get_data buf')
                             (length (io_buffer_get_data buf') - pos) pos)
        as (Hr & Hlf).
      destruct (_ <? _) eqn:Elt.
      * apply Nat.ltb_lt in Elt. injection Hrun as <- <- <-.
        split; [assumption|]. split; [assumption|]. split; [assumption|].
        split; [assumption|]. split; [assumption|]. right.
        split; [reflexivity|]. split; [lia|]. apply Hlf. lia.
      * apply Nat.ltb_ge in Elt.
        assert (Hle : find_lf (io_buffer_get_data buf')
                        (length (io_buffer_get_data buf') - pos) pos
                      <= buffered buf') by lia.
        destruct (IH buf' _ Hwf' Hle Hrun)
          as (Hsame' & Hsize' & Hoff' & Hwf0 & Hmono' & Hdata).
        split; [eapply same_file_trans; eassumption|].
        split; [congruence|]. split; [congruence|]. split; [assumption|].
        split; [lia|assumption].
Qed.

Lemma from_line_total (fuel : nat) (b : IOBuffer) (pos : nat) :
  wf b -> pos <= buffered b ->
  unread b + (if pos <? buffered b then 1 else 0) < fuel ->
  exists r, from_line fuel b pos = Some r.
Proof.
  revert b pos. induction fuel as [|fuel IH]; intros b pos Hwf Hpos Hfuel.
  - lia.
  - simpl.
    destruct (read_data_cases _ pos Hwf)
      as [(Hrd & Hth & Hwhy)
         | (buf' & Hrd & Hsame & Hsize & Hoff & Hwf' & Hmono & Hkeep & Hgrow)];
      rewrite Hrd.
    + eexists. reflexivity.
    + pose proof (get_data_length _ Hwf') as Hlen.
      destruct (find_lf_spec (io_buffer_get_data buf')
                             (length (io_buffer_get_data buf') - pos) pos)
        as (Hr & _).
      set (p := find_lf (io_buffer_get_data buf')
                        (length (io_buffer_get_data buf') - pos) pos) in *.
      destruct (p <? length (io_buffer_get_data buf')) eqn:Elt;
        [eexists; reflexivity|].
      apply Nat.ltb_ge in Elt. apply IH; [assumption|lia|].
      replace (p <? buffered buf') with false
        by (symmetry; apply Nat.ltb_ge; lia).
      assert (Hlim : limit buf' = limit b)
        by (symmetry; now apply same_file_limit).
      unfold unread in *. unfold wf in Hwf'. rewrite Hlim, Hoff in *.
      destruct (pos <? buffered b) eqn:E;
        [apply Nat.ltb_lt in E | apply Nat.ltb_ge in E].
      * lia.
      * assert (buffered b < buffered buf') by (apply Hgrow; lia). lia.
Qed.

(** ** Totality of a message transaction *)

Lemma no_from_line_nil (pos : nat) : no_from_line [] pos = true.
Proof. unfold no_from_line. simpl. now rewrite orb_true_r. Qed.

(** After a From-line was found the scanner starts on a good stream with no
    more left to read than before. *)
Lemma from_line_found (fuel : nat) (b b0 : IOBuffer) (data : list ascii)
      (pos : nat) :
  wf b -> from_line fuel b 0 = Some (b0, data, pos) ->
  no_from_line data pos = false ->
  let b1 := io_buffer_skip b0 (pos + 1) in
  wf b1 /\ same_file b b1 /\ size b1 = size b /\
  offset b1 = offset b + (pos + 1) /\ unread b1 <= unread b /\
  data = io_buffer_get_data b0 /\ at_ data pos = LF.
Proof.
  intros Hwf Hrun Hchk.
  destruct (@from_line_spec fuel b b0 0 pos data Hwf (Nat.le_0_l _) Hrun)
    as (Hsame & Hsize & Hoff & Hwf0 & Hmono & [->|(Hdata & Hpos & Hlf)]).
  - now rewrite no_from_line_nil in Hchk.
  - destruct (@skip_wf b0 (pos + 1) Hwf0 ltac:(lia))
      as (Hwf1 & Hsame1 & Hsize1 & Hoff1).
    cbv zeta. split; [assumption|].
    split; [eapply same_file_trans; eassumption|].
    split; [congruence|]. split; [congruence|]. split; [|auto].
    unfold unread, limit, io_buffer_skip. simpl.
    destruct Hsame as (-> & _). rewrite Hsize. lia.
Qed.

Lemma append_next_total env (fuel : nat) (index : MailIndex) (inbuf : IOBuffer) :
  wf inbuf -> unread inbuf + 1 < fuel ->
  exists r, mbox_index_append_next env fuel index inbuf = Some r.
Proof.
  intros Hwf Hfuel.
  destruct (@from_line_total fuel inbuf 0 Hwf (Nat.le_0_l _))
    as (((b0 & data) & pos) & Hline).
  { destruct (0 <? buffered inbuf); lia. }
  unfold mbox_index_append_next. rewrite Hline.
  destruct (no_from_line data pos) eqn:Hchk; [eexists; reflexivity|].
  destruct (from_line_found fuel inbuf b0 data pos Hwf Hline Hchk)
    as (Hwf1 & _ & _ & _ & Hun & _).
  destruct (@mbox_read_message_total fuel _ Hwf1 ltac:(lia))
    as (((b2 & sp) & lastmsg) & Hrun).
  destruct (@mbox_read_message_spec fuel _ b2 sp lastmsg Hwf1 Hrun)
    as (b' & -> & _).
  destruct (mail_index_record_append env index (from_line_date env data))
    as (index1 & [(rec & u)|]); eexists; reflexivity.
Qed.





Lemma count_app (p : Event -> bool) (l1 l2 : list Event) :
  count p (l1 ++ l2) = count p l1 + count p l2.
Proof. unfold count. now rewrite filter_app, length_app. Qed.

(** C10: when the barrier fails after a successful commit the transaction
    returns failure at once, with the header context initialised but never
    freed; when the commit fails, and when the transaction succeeds, the
    context is freed exactly once.  These are the only outcomes after the
    context was initialised. *)
Theorem header_context_not_freed_on_barrier_failure
        env fuel index inbuf index' inbuf' ok :
  mbox_index_append_next env fuel index inbuf = Some (index', inbuf', ok) ->
  exists evs,
    log index' = log index ++ evs /\
    (In (EvFmsync false) evs ->
       ok = false /\ before (EvUpdateEnd true) (EvFmsync false) evs /\
       (exists pre, evs = pre ++ [EvFmsync false]) /\
       count is_header_init evs = 1 /\ count is_header_free evs = 0) /\
    (In (EvUpdateEnd false) evs ->
       ok = false /\
       count is_header_init evs = 1 /\ count is_header_free evs = 1) /\
    (ok = true ->
       In (EvUpdateEnd true) evs /\ In (EvFmsync true) evs /\
       count is_header_init evs = 1 /\ count is_header_free evs = 1) /\
    (In EvHeaderInit evs ->
       In (EvFmsync false) evs \/ In (EvUpdateEnd false) evs \/ ok = true).
Proof.
  intros Hrun.
  destruct (@append_next_run _ _ _ _ _ _ _ Hrun)
    as (_ & b0 & data & pos & _ &
        [(_ & -> & _ & Hlog & _ & _ & Hrec)
        |(_ & _ & _ & b2 & _ &
          [(-> & _ & _ & Hlog & Hrec)
          |(u & dg & fl & _ & _ & _ & _ & _ &
            [(-> & Hlog & Hrec)|[(-> & Hlog & Hrec)|(-> & Hlog & Hrec)]])])]);
    eexists; (split; [exact Hlog|]); unfold tx_open, tx_committed; cbn [app].
  - split; [intros H; in_cases H|]. split; [intros H; in_cases H|].
    split; [discriminate|]. intros H; in_cases H.
  - split; [intros H; in_cases H|]. split; [intros H; in_cases H|].
    split; [discriminate|]. intros H; in_cases H.
  - split; [intros H; in_cases H|]. split; [intros _; auto|].
    split; [discriminate|]. intros _. right. left. cbn. auto 20.
  - split; [|split; [intros H; in_cases H|]].
    + intros _. split; [reflexivity|]. split; [find_before|].
      split; [|split; reflexivity].
      eexists [_; _; _; _; _; _; _; _; _]. reflexivity.
    + split; [discriminate|]. intros _. left. cbn. auto 20.
  - split; [intros H; in_cases H|]. split; [intros H; in_cases H|].
    split; [|auto]. intros _. cbn. auto 20.
Qed.

Lemma header_context_not_freed_on_barrier_failure_witness :
  exists evs,
    log (result_index tx_barrier_fails) = log empty_index ++ evs /\
    (In (EvFmsync false) evs ->
       result_ok tx_barrier_fails = false /\
       before (EvUpdateEnd true) (EvFmsync false) evs /\
       (exists pre, evs = pre ++ [EvFmsync false]) /\
       count is_header_init evs = 1 /\ count is_header_free evs = 0).
Proof.
  destruct (header_context_not_freed_on_barrier_failure
              (test_env 1000 0 true true true false) 50
              empty_index (open two_messages 4)
              (result_index tx_barrier_fails) (result_inbuf tx_barrier_fails)
              (result_ok tx_barrier_fails))
    as (evs & Hlog & Hbarrier & _).
  - vm_compute. reflexivity.
  - exists evs. split; [exact Hlog|exact Hbarrier].
Defined.

(** C6: whatever the header parser does with the stream, a transaction that
    reaches it leaves the ceiling [size] at the value it had before it was
    narrowed, the value at the start of the transaction, and the cursor at
    [stop_offset], the end of the message that the boundary scanner found:
    the ceiling and the cursor are those the stream had before the bounded
    parse. *)
Theorem stream_restored_after_headers env fuel index inbuf index' inbuf' ok :
  wf inbuf ->
  mbox_index_append_next env fuel index inbuf = Some (index', inbuf', ok) ->
  (forall idx b rec u a s,
      size (snd (fst (update_message env idx b rec u a s))) = size b /\
      offset (snd (fst (update_message env idx b rec u a s))) = s) /\
  exists evs,
    log index' = log index ++ evs /\
    (In EvUpdateHeaders evs ->
     exists b0 data pos stop,
       from_line fuel inbuf 0 = Some (b0, data, pos) /\
       mbox_read_message fuel (io_buffer_skip b0 (pos + 1)) = Some stop /\
       size stop = size inbuf /\
       size inbuf' = size stop /\ offset inbuf' = offset stop).
Proof.
  intros Hwf Hrun. split.
  { intros idx b rec u a s.
    destruct (update_message env idx b rec u a s) as ((i1 & b1) & o1) eqn:E.
    apply update_message_trace in E. cbn [fst snd]. tauto. }
  destruct (@append_next_run _ _ _ _ _ _ _ Hrun)
    as (_ & b0 & data & pos & Hline &
        [(_ & -> & _ & Hlog & _ & _ & Hrec)
        |(Hchk & _ & _ & b2 & Hmsg &
          [(-> & _ & _ & Hlog & Hrec)
          |(u & dg & fl & _ & Hsize & Hoff & _ & _ & Hcases)])]).
  - eexists. split; [exact Hlog|]. intros H; in_cases H.
  - eexists. split; [exact Hlog|]. intros H; in_cases H.
  - assert (Hstop : size b2 = size inbuf).
    { destruct (from_line_found _ _ _ _ _ Hwf Hline Hchk)
        as (Hwf1 & _ & Hsize1 & _).
      unfold mbox_read_message in Hmsg.
      destruct (read_loop fuel (io_buffer_skip b0 (pos + 1)) 0)
        as [((b3 & sp) & lastmsg)|] eqn:Hloop; [|discriminate].
      destruct (@mbox_read_message_spec fuel _ b3 sp lastmsg Hwf1 Hloop)
        as (b' & Hmsg' & _ & Hsize' & _).
      unfold mbox_read_message in Hmsg'. rewrite Hloop in Hmsg'.
      rewrite Hmsg in Hmsg'. injection Hmsg' as <-. congruence. }
    assert (Hlog : exists evs, log index' = log index ++ evs).
    { destruct Hcases as [(_ & Hl & _)|[(_ & Hl & _)|(_ & Hl & _)]];
        eexists; exact Hl. }
    destruct Hlog as (evs & Hlog). exists evs. split; [assumption|].
    intros _. exists b0, data, pos, b2. auto.
Qed.

Lemma stream_restored_after_headers_witness :
  exists evs,
    log (result_index tx_good) = log empty_index ++ evs /\
    (In EvUpdateHeaders evs ->
     exists b0 data pos stop,
       from_line 50 (open two_messages 4) 0 = Some (b0, data, pos) /\
       mbox_read_message 50 (io_buffer_skip b0 (pos + 1)) = Some stop /\
       size stop = size (open two_messages 4) /\
       size (result_inbuf tx_good) = size stop /\
       offset (result_inbuf tx_good) = offset stop).
Proof.
  apply (stream_restored_after_headers
           (test_env 1000 0 true true true true) 50
           empty_index (open two_messages 4)
           (result_index tx_good) (result_inbuf tx_good) (result_ok tx_good)).
  - unfold wf. vm_compute. lia.
  - vm_compute. reflexivity.
Defined.

(** The ceiling and the cursor after the first message of the sample
    mailbox: 31 bytes, and the "\r\n" before the second From-line at 14. *)
Example stream_after_first_message :
  size (result_inbuf tx_good) = 31 /\ offset (result_inbuf tx_good) = 14.
Proof. vm_compute. split; reflexivity. Qed.

(** ** The date of a new record *)





(** The date of the first record of the sample mailbox when the parser
    answers 0, a negative time, and a positive time, at the time 1000. *)
Example dates_of_first_record :
  map internal_date
      (records (result_index
         (mbox_index_append_next (test_env 1000 0 true true true true) 50
                                 empty_index (open two_messages 4))))
  = [1000%Z] /\
  map internal_date
      (records (result_index
         (mbox_index_append_next (test_env 1000 (-5) true true true true) 50
                                 empty_index (open two_messages 4))))
  = [1000%Z] /\
  map internal_date
      (records (result_index
         (mbox_index_append_next (test_env 1000 77 true true true true) 50
                                 empty_index (open two_messages 4))))
  = [77%Z].
Proof. vm_compute. repeat split; reflexivity. Qed.

(** * The append driver *)

Lemma count_in (p : Event -> bool) (e : Event) (l : list Event) :
  In e l -> p e = true -> 1 <= count p l.
Proof.
  intros Hin Hp. apply in_split in Hin. destruct Hin as (l1 & l2 & ->).
  rewrite count_app. unfold count at 2. simpl. rewrite Hp. simpl. lia.
Qed.

Lemma lor_has_flag (a f : N) : N.land (N.lor a f) f = f.
Proof.
  apply N.bits_inj. intros n. rewrite N.land_spec, N.lor_spec.
  destruct (N.testbit a n), (N.testbit f n); reflexivity.
Qed.

Lemma is_from_firstn (data : list ascii) :
  5 < length data -> (is_from data = true <-> firstn 5 data = bytes "From ").
Proof.
  intros Hlen.
  do 5 (destruct data as [|? data]; [simpl in Hlen; lia|]).
  unfold is_from, at_. cbn [nth firstn]. split.
  - intros H. repeat (apply andb_prop in H; destruct H as [H ?]).
    repeat match goal with
           | E : (_ =? _)%char = true |- _ => apply Ascii.eqb_eq in E; subst
           end.
    reflexivity.
  - intros E. injection E as -> -> -> -> ->. reflexivity.
Qed.

(** Line 103 in words: no LF in the window, a window of at most 5 bytes, or
    a window that does not start with "From ". *)
Lemma no_from_line_iff (data : list ascii) (pos : nat) :
  no_from_line data pos = true <->
  pos = length data \/ length data <= 5 \/ firstn 5 data <> bytes "From ".
Proof.
  unfold no_from_line.
  destruct (pos =? length data) eqn:E1;
    [apply Nat.eqb_eq in E1; intuition auto | apply Nat.eqb_neq in E1].
  destruct (length data <=? 5) eqn:E2;
    [apply Nat.leb_le in E2; cbn; intuition auto | apply Nat.leb_gt in E2].
  cbn [orb]. pose proof (is_from_firstn data E2) as Hfrom.
  destruct (is_from data); cbn [negb]; split.
  - discriminate.
  - intros [H|[H|H]]; [lia|lia|]. exfalso. apply H. now apply Hfrom.
  - intros _. right. right. intros H. apply Hfrom in H. discriminate.
  - reflexivity.
Qed.

(** A message transaction ends in one of three ways: done, with nothing
    reported; failed by the index, with one failure and nothing reported;
    or failed by the From-line check, with the error reported and the flag
    set. *)
Lemma append_next_class env fuel index inbuf index' inbuf' ok :
  mbox_index_append_next env fuel index inbuf = Some (index', inbuf', ok) ->
  mbox_path index' = mbox_path index /\
  exists b0 data pos evs,
    from_line fuel inbuf 0 = Some (b0, data, pos) /\
    log index' = log index ++ evs /\
    ((no_from_line data pos = false /\
      count is_set_error evs = 0 /\
      set_flags index' = set_flags index /\ error index' = error index /\
      ((ok = true /\ count is_failure evs = 0) \/
       (ok = false /\ count is_failure evs = 1)))
     \/
     (no_from_line data pos = true /\ ok = false /\
      evs = [EvSetError (from_line_error index)] /\
      set_flags index' = N.lor (set_flags index) (MAIL_INDEX_FLAG_FSCK env) /\
      error index' = Some (from_line_error index))).
Proof.
  intros Hrun.
  destruct (@append_next_run _ _ _ _ _ _ _ Hrun)
    as (Hpath & b0 & data & pos & Hline &
        [(Hchk & -> & _ & Hlog & Hfl & Herr & _)
        |(Hchk & Hfl & Herr & b2 & _ &
          [(-> & _ & _ & Hlog & _)
          |(u & dg & fl & _ & _ & _ & _ & _ &
            [(-> & Hlog & _)|[(-> & Hlog & _)|(-> & Hlog & _)]])])]);
    (split; [exact Hpath|]); exists b0, data, pos; eexists;
    (split; [exact Hline|]); (split; [exact Hlog|]).
  - right. auto.
  - left. split; [assumption|]. split; [reflexivity|]. auto.
  - left. split; [assumption|]. split; [reflexivity|]. auto.
  - left. split; [assumption|]. split; [reflexivity|]. auto.
  - left. split; [assumption|]. split; [reflexivity|]. auto.
Qed.

(** The loop of the driver ends in one of three ways: at the end of the
    stream; on the first failure of the index; or on the first integrity
    violation, a From-line that fails the check of line 103 or a line
    terminator that [mbox_skip_crlf] does not find, with the error reported
    last and the flag set. *)
Lemma append_loop_class env fuel inner index inbuf index' inbuf' ok :
  append_loop env fuel inner index inbuf = Some (index', inbuf', ok) ->
  mbox_path index' = mbox_path index /\
  exists evs,
    log index' = log index ++ evs /\
    ((count is_set_error evs = 0 /\
      set_flags index' = set_flags index /\ error index' = error index /\
      ((ok = true /\ count is_failure evs = 0) \/
       (ok = false /\ count is_failure evs = 1)))
     \/
     (ok = false /\ count is_failure evs = 0 /\ count is_set_error evs = 1 /\
      set_flags index' = N.lor (set_flags index) (MAIL_INDEX_FLAG_FSCK env) /\
      exists pre msg,
        evs = pre ++ [EvSetError msg] /\ error index' = Some msg /\
        ((msg = from_line_error index /\
          exists b b0 data pos,
            from_line inner b 0 = Some (b0, data, pos) /\
            no_from_line data pos = true)
         \/
         (msg = lf_error index /\
          exists b b',
            start_offset b + offset b <> 0 /\
            mbox_skip_crlf env b = (b', false))))).
Proof.
  revert index inbuf.
  induction fuel as [|fuel IH]; intros index inbuf Hrun; [discriminate|].
  cbn [append_loop] in Hrun.
  assert (Hrest : forall b1,
    (if offset b1 =? size b1 then Some (index, b1, true)
     else match mbox_index_append_next env inner index b1 with
          | None => None
          | Some (index0, inbuf0, false) => Some (index0, inbuf0, false)
          | Some (index0, inbuf0, true) => append_loop env fuel inner index0 inbuf0
          end) = Some (index', inbuf', ok) ->
    mbox_path index' = mbox_path index /\
    exists evs,
      log index' = log index ++ evs /\
      ((count is_set_error evs = 0 /\
        set_flags index' = set_flags index /\ error index' = error index /\
        ((ok = true /\ count is_failure evs = 0) \/
         (ok = false /\ count is_failure evs = 1)))
       \/
       (ok = false /\ count is_failure evs = 0 /\ count is_set_error evs = 1 /\
        set_flags index' = N.lor (set_flags index) (MAIL_INDEX_FLAG_FSCK env) /\
        exists pre msg,
          evs = pre ++ [EvSetError msg] /\ error index' = Some msg /\
          ((msg = from_line_error index /\
            exists b b0 data pos,
              from_line inner b 0 = Some (b0, data, pos) /\
              no_from_line data pos = true)
           \/
           (msg = lf_error index /\
            exists b b',
              start_offset b + offset b <> 0 /\
              mbox_skip_crlf env b = (b', false)))))).
  { intros b1 H.
    destruct (offset b1 =? size b1).
    - injection H as <- <- <-. split; [reflexivity|].
      exists []. rewrite app_nil_r. split; [reflexivity|]. left.
      do 3 (split; [reflexivity|]). left. split; reflexivity.
    - destruct (mbox_index_append_next env inner index b1)
        as [((i1 & b2) & ok1)|] eqn:Htx; [|discriminate].
      destruct (append_next_class env inner index b1 i1 b2 ok1 Htx)
        as (Hpath & b0 & data & pos & evs1 & Hline & Hlog &
            [(Hchk & Herr0 & Hfl & Herr & Hok)
            |(Hchk & -> & -> & Hfl & Herr)]).
      + destruct Hok as [(-> & Hfail)|(-> & Hfail)].
        * destruct (IH i1 b2 H) as (Hpath' & evs2 & Hlog' & Hcases).
          split; [congruence|].
          exists (evs1 ++ evs2).
          split; [rewrite Hlog', Hlog; now rewrite app_assoc|].
          rewrite !count_app, Hfail, Herr0. cbn [Nat.add].
          rewrite Hfl, Herr in Hcases.
          destruct Hcases as
              [(He & Hfl' & Herr' & Hok')
              |(-> & Hf & He & Hfl' & pre & msg & -> & Herr' & Hwhy)].
          -- left. auto.
          -- right. do 4 (split; [first [reflexivity|assumption]|]).
             exists (evs1 ++ pre), msg.
             split; [now rewrite app_assoc|]. split; [assumption|].
             unfold from_line_error, lf_error in *. rewrite Hpath in Hwhy.
             exact Hwhy.
        * injection H as <- <- <-. split; [assumption|].
          exists evs1. split; [assumption|]. left.
          do 3 (split; [assumption|]). right. split; [reflexivity|assumption].
      + injection H as <- <- <-. split; [assumption|].
        eexists. split; [exact Hlog|]. right.
        do 4 (split; [first [reflexivity|assumption]|]).
        exists [], (from_line_error index).
        split; [reflexivity|]. split; [assumption|]. left.
        split; [reflexivity|]. exists b1, b0, data, pos. auto. }
  destruct (negb (start_offset inbuf + offset inbuf =? 0)) eqn:Estart.
  - destruct (mbox_skip_crlf env inbuf) as (b1 & ok1) eqn:Eskip.
    destruct ok1; cbn [negb] in Hrun.
    + now apply (Hrest b1).
    + injection Hrun as <- <- <-. split; [reflexivity|].
      eexists. split; [reflexivity|]. right.
      do 4 (split; [reflexivity|]).
      exists [], (lf_error index).
      split; [reflexivity|]. split; [reflexivity|]. right.
      split; [reflexivity|]. exists inbuf, b1. split; [|assumption].
      apply negb_true_iff, Nat.eqb_neq in Estart. assumption.
  - cbn [negb] in Hrun. now apply (Hrest inbuf).
Qed.

(** The same for the whole of [mbox_index_append]; a lock that is not
    granted is a failure of the index. *)
Lemma append_class env fuel index inbuf index' inbuf' ok :
  mbox_index_append env fuel index inbuf = Some (index', inbuf', ok) ->
  mbox_path index' = mbox_path index /\
  exists evs,
    log index' = log index ++ evs /\
    ((count is_set_error evs = 0 /\
      set_flags index' = set_flags index /\ error index' = error index /\
      ((ok = true /\ count is_failure evs = 0) \/
       (ok = false /\ count is_failure evs = 1)))
     \/
     (ok = false /\ count is_failure evs = 0 /\ count is_set_error evs = 1 /\
      set_flags index' = N.lor (set_flags index) (MAIL_INDEX_FLAG_FSCK env) /\
      exists pre msg,
        evs = pre ++ [EvSetError msg] /\ error index' = Some msg /\
        ((msg = from_line_error index /\
          exists b b0 data pos,
            from_line fuel b 0 = Some (b0, data, pos) /\
            no_from_line data pos = true)
         \/
         (msg = lf_error index /\
          exists b b',
            start_offset b + offset b <> 0 /\
            mbox_skip_crlf env b = (b', false))))).
Proof.
  unfold mbox_index_append.
  destruct (offset inbuf =? size inbuf).
  - intros E. injection E as <- <- <-. split; [reflexivity|].
    exists []. rewrite app_nil_r. split; [reflexivity|]. left.
    do 3 (split; [reflexivity|]). left. split; reflexivity.
  - destruct (set_lock env (log index)); cbn [negb].
    + intros Hrun.
      destruct (append_loop_class env fuel fuel _ inbuf index' inbuf' ok Hrun)
        as (Hpath & evs & Hlog & Hcases).
      cbn [emit log mbox_path set_flags error] in Hpath, Hlog, Hcases.
      split; [assumption|].
      exists (EvSetLock true :: evs).
      split; [rewrite Hlog, <- app_assoc; reflexivity|].
      change (count is_set_error (EvSetLock true :: evs))
        with (count is_set_error evs).
      change (count is_failure (EvSetLock true :: evs))
        with (count is_failure evs).
      destruct Hcases as
          [Hcase|(-> & Hf & He & Hfl' & pre & msg & -> & Herr' & Hwhy)].
      * left. exact Hcase.
      * right. do 4 (split; [first [reflexivity|assumption]|]).
        exists (EvSetLock true :: pre), msg.
        split; [reflexivity|]. split; [assumption|]. exact Hwhy.
    + intros E. injection E as <- <- <-. split; [reflexivity|].
      exists [EvSetLock false]. split; [reflexivity|]. left.
      do 3 (split; [reflexivity|]). right. split; reflexivity.
Qed.

Lemma has_flag_same (index index' : MailIndex) (f : N) :
  set_flags index' = set_flags index ->
  has_flag index' f = has_flag index f.
Proof. unfold has_flag. now intros ->. Qed.

Lemma has_flag_set (index index' : MailIndex) (f : N) :
  set_flags index' = N.lor (set_flags index) f ->
  has_flag index' f = true.
Proof.
  unfold has_flag. intros ->. rewrite lor_has_flag. apply N.eqb_refl.
Qed.

(** ** The driver returns *)

Lemma mbox_read_message_frame (fuel : nat) (b b' : IOBuffer) :
  wf b -> mbox_read_message fuel b = Some b' ->
  same_file b b' /\ size b' = size b /\ wf b' /\
  offset b <= offset b' <= limit b.
Proof.
  intros Hwf Hmsg.
  destruct (read_loop fuel b 0) as [((b3 & sp) & lastmsg)|] eqn:Hloop.
  - destruct (@mbox_read_message_spec fuel b b3 sp lastmsg Hwf Hloop)
      as (b2 & Hmsg' & Hsame & Hsize & Hwf' & Hrange & _).
    rewrite Hmsg in Hmsg'. injection Hmsg' as <-. auto.
  - unfold mbox_read_message in Hmsg. rewrite Hloop in Hmsg. discriminate.
Qed.

(** A transaction that succeeds moves the cursor forward and leaves a good
    stream on the same file, when the header parser leaves the file alone. *)
Lemma append_next_progress env fuel index inbuf index' inbuf' :
  headers_ok env -> wf inbuf ->
  mbox_index_append_next env fuel index inbuf = Some (index', inbuf', true) ->
  wf inbuf' /\ same_file inbuf inbuf' /\ size inbuf' = size inbuf /\
  offset inbuf < offset inbuf'.
Proof.
  intros Hh Hwf Hrun.
  destruct (@append_next_run _ _ _ _ _ _ _ Hrun)
    as (_ & b0 & data & pos & Hline &
        [(_ & Hok & _)
        |(Hchk & _ & _ & b2 & Hmsg &
          [(Hok & _)
          |(u & dg & fl & _ & Hsize & Hoff & Hbuf & Hsame & _)])]);
    try discriminate Hok.
  destruct (from_line_found fuel inbuf b0 data pos Hwf Hline Hchk)
    as (Hwf1 & Hsame1 & Hsize1 & Hoff1 & _).
  destruct (mbox_read_message_frame fuel _ b2 Hwf1 Hmsg)
    as (Hsame2 & Hsize2 & Hwf2 & Hrange).
  specialize (Hsame Hh).
  assert (Hfile : same_file inbuf inbuf').
  { eapply same_file_trans; [eassumption|].
    eapply same_file_trans; eassumption. }
  split; [|split; [assumption|split; [congruence|lia]]].
  unfold wf. rewrite Hbuf, Hoff, Nat.add_0_r.
  rewrite <- (@same_file_limit b2 inbuf' Hsame (eq_sym Hsize)).
  rewrite <- (@same_file_limit _ b2 Hsame2 (eq_sym Hsize2)).
  apply Hrange.
Qed.

Lemma append_loop_total env fuel inner index inbuf :
  headers_ok env -> skip_ok env -> wf inbuf ->
  limit inbuf - offset inbuf < fuel -> limit inbuf + 1 < inner ->
  exists r, append_loop env fuel inner index inbuf = Some r.
Proof.
  intros Hh Hs. revert index inbuf.
  induction fuel as [|fuel IH]; intros index inbuf Hwf Hfuel Hinner; [lia|].
  cbn [append_loop].
  assert (Hskip : exists b1 ok1,
             (if negb (start_offset inbuf + offset inbuf =? 0)
              then mbox_skip_crlf env inbuf else (inbuf, true)) = (b1, ok1) /\
             wf b1 /\ limit b1 = limit inbuf /\ offset inbuf <= offset b1).
  { destruct (negb _).
    - destruct (mbox_skip_crlf env inbuf) as (b1 & ok1) eqn:E.
      destruct (Hs inbuf b1 ok1 Hwf E) as (Hwf1 & Hsame & Hsize & Hoff).
      exists b1, ok1. split; [reflexivity|]. split; [assumption|].
      split; [|assumption]. symmetry. now apply same_file_limit.
    - exists inbuf, true. auto. }
  destruct Hskip as (b1 & ok1 & -> & Hwf1 & Hlim & Hoff).
  destruct ok1; cbn [negb]; [|eexists; reflexivity].
  destruct (offset b1 =? size b1); [eexists; reflexivity|].
  destruct (append_next_total env inner index b1 Hwf1) as (((i1 & b2) & ok) & Hrun).
  { unfold unread. lia. }
  rewrite Hrun. destruct ok; [|eexists; reflexivity].
  destruct (append_next_progress env inner index b1 i1 b2 Hh Hwf1 Hrun)
    as (Hwf2 & Hsame & Hsize & Hlt).
  assert (Hlim2 : limit b2 = limit b1)
    by (symmetry; now apply same_file_limit).
  unfold wf in Hwf2.
  apply IH; [assumption|lia|lia].
Qed.

Lemma mbox_index_append_total env fuel index inbuf :
  headers_ok env -> skip_ok env -> wf inbuf -> limit inbuf + 1 < fuel ->
  exists r, mbox_index_append env fuel index inbuf = Some r.
Proof.
  intros Hh Hs Hwf Hfuel. unfold mbox_index_append.
  destruct (offset inbuf =? size inbuf); [eexists; reflexivity|].
  destruct (set_lock env (log index)); cbn [negb]; [|eexists; reflexivity].
  apply append_loop_total; auto. lia.
Qed.

Lemma skip_crlf_ok (b b' : IOBuffer) (ok : bool) :
  wf b -> skip_crlf b = (b', ok) ->
  wf b' /\ same_file b b' /\ size b' = size b /\ offset b <= offset b'.
Proof.
  intros Hwf. unfold skip_crlf.
  destruct (@read_data_cases b 0 Hwf)
    as [(Hrd & _) | (b1 & Hrd & Hsame & Hsize & Hoff & Hwf1 & Hmono & _ & Hgrow)];
    rewrite Hrd.
  - intros E. injection E as <- <-.
    repeat split; auto using same_file_refl.
  - assert (H1 : 1 <= buffered b1).
    { destruct (Nat.eq_dec (buffered b) 0); [|lia].
      assert (buffered b < buffered b1) by (apply Hgrow; lia). lia. }
    destruct (at_ _ 0 =? LF)%char.
    + intros E. injection E as <- <-.
      destruct (@skip_wf b1 1 Hwf1 H1) as (Hw & Hsf & Hsz & Hof).
      split; [assumption|]. split; [eapply same_file_trans; eassumption|].
      split; [congruence|lia].
    + destruct (at_ _ 0 =? CR)%char.
      * destruct (@read_data_cases b1 1 Hwf1)
          as [(Hrd2 & _)
             | (b2 & Hrd2 & Hsame2 & Hsize2 & Hoff2 & Hwf2 & Hmono2 & _ & Hgrow2)];
          rewrite Hrd2.
        -- intros E. injection E as <- <-.
           split; [assumption|]. split; [assumption|]. split; [assumption|lia].
        -- assert (H2 : 2 <= buffered b2).
           { destruct (Nat.eq_dec (buffered b1) 1); [|lia].
             assert (buffered b1 < buffered b2) by (apply Hgrow2; lia). lia. }
           assert (Hs2 : same_file b b2)
             by (eapply same_file_trans; eassumption).
           destruct (at_ _ 1 =? LF)%char; intros E; injection E as <- <-.
           ++ destruct (@skip_wf b2 2 Hwf2 H2) as (Hw & Hsf & Hsz & Hof).
              split; [assumption|].
              split; [eapply same_file_trans; eassumption|].
              split; [congruence|lia].
           ++ split; [assumption|]. split; [assumption|].
              split; [congruence|lia].
      * intros E. injection E as <- <-.
        split; [assumption|]. split; [assumption|]. split; [assumption|lia].
Qed.

Lemma test_env_ok now date lock alloc commit sync :
  headers_ok (test_env now date lock alloc commit sync) /\
  skip_ok (test_env now date lock alloc commit sync).
Proof.
  split.
  - intros l b. unfold same_file. simpl. auto.
  - intros b b' ok Hwf E. simpl in E. exact (skip_crlf_ok b b' ok Hwf E).
Qed.

(** The three sample appends: both messages indexed; the first barrier
    fails, no identity is given and the flag stays clear; no From-line, the
    flag is set and the error names the mailbox. *)
Example append_good_result :
  result_ok append_good = true /\
  map uid (records (result_index append_good)) = [2; 14] /\
  set_flags (result_index append_good) = 0%N /\
  offset (result_inbuf append_good) = 31.
Proof. vm_compute. repeat split; reflexivity. Qed.

Example append_barrier_fails_result :
  result_ok append_barrier_fails = false /\
  map uid (records (result_index append_barrier_fails)) = [0] /\
  set_flags (result_index append_barrier_fails) = 0%N /\
  error (result_index append_barrier_fails) = None.
Proof. vm_compute. repeat split; reflexivity. Qed.

Example append_no_from_result :
  result_ok append_no_from = false /\
  records (result_index append_no_from) = [] /\
  set_flags (result_index append_no_from) = 1%N /\
  error (result_index append_no_from) =
  Some "Error indexing mbox file /var/mail/a: From-line not found where expected"%string.
Proof. vm_compute. repeat split; reflexivity. Qed.

(** With the sample collaborators the driver returns on every stream. *)
Example append_returns now date lock alloc commit sync index data chunk :
  exists r,
    mbox_index_append (test_env now date lock alloc commit sync)
                      (length data + 2) index (open data chunk) = Some r.
Proof.
  destruct (test_env_ok now date lock alloc commit sync) as (Hh & Hs).
  apply mbox_index_append_total; auto.
  - unfold wf, limit, open. simpl. lia.
  - unfold limit, open. simpl. lia.
Qed.

(** ** Identities in the trace of a whole append *)

Lemma append_next_tx env fuel index inbuf index' inbuf' ok :
  mbox_index_append_next env fuel index inbuf = Some (index', inbuf', ok) ->
  exists evs,
    log index' = log index ++ evs /\
    tx_trace (length (records index)) evs ok.
Proof.
  intros Hrun.
  destruct (@append_next_run _ _ _ _ _ _ _ Hrun)
    as (_ & b0 & data & pos & _ &
        [(_ & -> & _ & Hlog & _)
        |(_ & _ & _ & b2 & _ &
          [(-> & _ & _ & Hlog & _)
          |(u & dg & fl & _ & _ & _ & _ & _ &
            [(-> & Hlog & _)|[(-> & Hlog & _)|(-> & Hlog & _)]])])]);
    eexists; (split; [exact Hlog|]); constructor.
Qed.

Lemma append_loop_trace env fuel inner index inbuf index' inbuf' ok :
  append_loop env fuel inner index inbuf = Some (index', inbuf', ok) ->
  exists evs, log index' = log index ++ evs /\ driver_trace evs ok.
Proof.
  revert index inbuf.
  induction fuel as [|fuel IH]; intros index inbuf Hrun; [discriminate|].
  cbn [append_loop] in Hrun.
  destruct (if negb (start_offset inbuf + offset inbuf =? 0)
            then mbox_skip_crlf env inbuf else (inbuf, true)) as (b1 & ok1).
  destruct ok1; cbn [negb] in Hrun.
  - destruct (offset b1 =? size b1).
    + injection Hrun as <- <- <-. exists []. rewrite app_nil_r.
      split; [reflexivity|constructor].
    + destruct (mbox_index_append_next env inner index b1)
        as [((i1 & b2) & ok1)|] eqn:Htx; [|discriminate].
      destruct (append_next_tx env inner index b1 i1 b2 ok1 Htx)
        as (evs1 & Hlog1 & Htrace).
      destruct ok1.
      * destruct (IH i1 b2 Hrun) as (evs2 & Hlog2 & Hrest).
        exists (evs1 ++ evs2).
        split; [rewrite Hlog2, Hlog1; now rewrite app_assoc|].
        eapply drv_next; eassumption.
      * injection Hrun as <- <- <-. exists evs1.
        split; [assumption|]. eapply drv_failed; eassumption.
  - injection Hrun as <- <- <-. eexists. split; [reflexivity|constructor].
Qed.

Ltac split_trace H pre :=
  unfold tx_open, tx_committed in H; cbn [app] in H;
  repeat (destruct pre as [|? pre]; cbn in H;
          [try discriminate H | injection H as ? H; subst]);
  try (destruct pre; discriminate H).

Lemma tx_trace_guarded (rec : nat) (evs : list Event) (ok : bool) :
  tx_trace rec evs ok -> uid_guarded evs.
Proof.
  intros Htx pre r v post H.
  destruct Htx; split_trace H pre.
  injection H as <- <- _.
  exists [], d, a, dg, fl. reflexivity.
Qed.

Lemma committed_before_app (r u : nat) (l pre : list Event) :
  committed_before r u pre -> committed_before r u (l ++ pre).
Proof.
  intros (pre' & d & a & dg & fl & ->).
  exists (l ++ pre'), d, a, dg, fl. now rewrite app_assoc.
Qed.

Lemma uid_guarded_app (l1 l2 : list Event) :
  uid_guarded l1 -> uid_guarded l2 -> uid_guarded (l1 ++ l2).
Proof.
  intros H1 H2 pre r u post E.
  apply app_eq_app in E. destruct E as (l & [(E1 & E2)|(E1 & E2)]).
  - destruct l as [|x l].
    + rewrite app_nil_r in E1. subst l1. cbn in E2.
      rewrite <- (app_nil_r pre). apply committed_before_app.
      apply (H2 [] r u post). now symmetry.
    + cbn in E2. injection E2 as <- ->.
      apply (H1 pre r u l). assumption.
  - subst pre. apply committed_before_app. apply (H2 l r u post). assumption.
Qed.

Lemma driver_trace_guarded (evs : list Event) (ok : bool) :
  driver_trace evs ok -> uid_guarded evs.
Proof.
  induction 1 as [|msg|rec evs Htx|rec evs rest ok Htx Hrest IH].
  - intros pre r u post H. destruct pre; discriminate.
  - intros pre r u post H. split_trace H pre.
  - eapply tx_trace_guarded; eassumption.
  - apply uid_guarded_app; [eapply tx_trace_guarded; eassumption|assumption].
Qed.

(** In the trace of a whole append every identity is stored right after the
    successful barrier of the transaction of its record. *)
Lemma append_uid_guarded env fuel index inbuf index' inbuf' ok :
  mbox_index_append env fuel index inbuf = Some (index', inbuf', ok) ->
  exists evs, log index' = log index ++ evs /\ uid_guarded evs.
Proof.
  unfold mbox_index_append.
  destruct (offset inbuf =? size inbuf).
  - intros E. injection E as <- <- <-. exists []. rewrite app_nil_r.
    split; [reflexivity|]. intros pre r u post H. destruct pre; discriminate.
  - destruct (set_lock env (log index)); cbn [negb].
    + intros Hrun.
      destruct (append_loop_trace env fuel fuel _ inbuf index' inbuf' ok Hrun)
        as (evs & Hlog & Htrace).
      cbn [emit log] in Hlog.
      exists ([EvSetLock true] ++ evs).
      split; [rewrite Hlog; now rewrite <- app_assoc|].
      apply uid_guarded_app; [|eapply driver_trace_guarded; eassumption].
      intros pre r u post H. split_trace H pre.
    + intros E. injection E as <- <- <-. exists [EvSetLock false].
      split; [reflexivity|]. intros pre r u post H. split_trace H pre.
Qed.

(** C1: for every message that the append processes, the identity
    ([rec->uid]) is stored only after the commit ([update_end]) and then
    the barrier ([mail_index_fmsync]) of its transaction have succeeded,
    with location, digest, flags and date handed to the index before; when
    the commit or the barrier fails the transaction returns failure, no
    identity is stored and the record is left with uid 0.  In the trace of
    a whole append every store of an identity comes right after the
    successful barrier of its record. *)
Theorem uid_stored_after_barrier env fuel :
  (forall index inbuf index' inbuf' ok,
     mbox_index_append_next env fuel index inbuf = Some (index', inbuf', ok) ->
     let rec := length (records index) in
     exists evs,
       log index' = log index ++ evs /\
       (forall r u, In (EvStoreUid r u) evs ->
          r = rec /\ ok = true /\ uid (record_at index' rec) = u /\
          before (EvUpdateEnd true) (EvFmsync true) evs /\
          before (EvFmsync true) (EvStoreUid r u) evs /\
          (exists a, before (EvUpdateFieldRaw FIELD_TYPE_LOCATION (RawOffset a))
                            (EvFmsync true) evs) /\
          (exists dg, before (EvUpdateFieldRaw FIELD_TYPE_MD5 (RawBytes dg))
                             (EvFmsync true) evs) /\
          (exists fl, before (EvStoreFlags r fl) (EvFmsync true) evs /\
                      msg_flags (record_at index' rec) = fl) /\
          (exists d, before (EvAppend d (Some u)) (EvFmsync true) evs /\
                     internal_date (record_at index' rec) = d) /\
          ~ In (EvUpdateEnd false) evs /\ ~ In (EvFmsync false) evs) /\
       (In (EvUpdateEnd false) evs \/ In (EvFmsync false) evs ->
          ok = false /\ count is_store_uid evs = 0 /\
          uid (record_at index' rec) = 0) /\
       (forall i, i < rec ->
          uid (record_at index' i) = uid (record_at index i)))
  /\
  (forall index inbuf index' inbuf' ok,
     mbox_index_append env fuel index inbuf = Some (index', inbuf', ok) ->
     exists evs, log index' = log index ++ evs /\ uid_guarded evs).
Proof.
  split.
  - intros index inbuf index' inbuf' ok.
    exact (@tx_uid_after_barrier env fuel index inbuf index' inbuf' ok).
  - intros index inbuf index' inbuf' ok.
    exact (append_uid_guarded env fuel index inbuf index' inbuf' ok).
Qed.

Lemma uid_stored_after_barrier_witness :
  exists evs,
    log (result_index tx_barrier_fails) = log empty_index ++ evs /\
    (In (EvUpdateEnd false) evs \/ In (EvFmsync false) evs ->
     result_ok tx_barrier_fails = false /\ count is_store_uid evs = 0 /\
     uid (record_at (result_index tx_barrier_fails) 0) = 0).
Proof.
  destruct (proj1 (uid_stored_after_barrier
                     (test_env 1000 0 true true true false) 50)
                  empty_index (open two_messages 4)
                  (result_index tx_barrier_fails)
                  (result_inbuf tx_barrier_fails)
                  (result_ok tx_barrier_fails))
    as (evs & Hlog & _ & Hfail & _).
  - vm_compute. reflexivity.
  - exists evs. split; [exact Hlog|exact Hfail].
Defined.

(** A body that starts with "From " inside a transaction: the message
    after "From a 1" starts with "From here on"; its location is 9 and it
    ends at 26, the line terminator before "From b 2". *)
Example leading_from_in_mailbox :
  let r := mbox_index_append_next (test_env 1000 0 true true true true) 60
             empty_index
             (open (bytes "From a 1" ++ [LF] ++ from_in_body ++
                    bytes "Body2" ++ [LF]) 4) in
  result_ok r = true /\ offset (result_inbuf r) = 26 /\
  In (EvUpdateFieldRaw FIELD_TYPE_LOCATION (RawOffset 9)) (log (result_index r)).
Proof. vm_compute. repeat split; auto 10. Qed.

(** Initialisations and releases of the header context on the sample
    mailbox when everything works, when the commit fails and when the
    barrier fails. *)
Example header_context_counts :
  map (fun r => (count is_header_init (log (result_index r)),
                 count is_header_free (log (result_index r)),
                 result_ok r))
      [tx_good; tx_commit_fails; tx_barrier_fails]
  = [(1, 1, true); (1, 1, false); (1, 0, false)].
Proof. vm_compute. reflexivity. Qed.

(** * More on the boundary scanner *)

Lemma sep_at_chars (f : list ascii) (j : nat) :
  sep_at f j ->
  at_ f j = LF /\ at_ f (j + 1) = "F"%char /\ at_ f (j + 2) = "r"%char /\
  at_ f (j + 3) = "o"%char /\ at_ f (j + 4) = "m"%char /\
  at_ f (j + 5) = " "%char /\ j + 6 <= length f.
Proof.
  intros H. unfold sep_at in H.
  assert (Hat : forall i, i < 6 -> at_ f (j + i) = at_ separator i).
  { intros i Hi. rewrite <- H. symmetry. apply at_seg. lia. }
  assert (Hlen : j + 6 <= length f).
  { apply (f_equal (@length ascii)) in H. unfold seg in H.
    rewrite length_firstn, length_skipn in H. cbn in H. lia. }
  rewrite <- (Nat.add_0_r j) at 1.
  rewrite !Hat by lia. repeat split; auto.
Qed.

(** The window shows every separator of the file that lies in it. *)
Lemma sep_window (buf : IOBuffer) (k : nat) :
  5 <= k -> k < buffered buf ->
  sep_at (file buf) (offset buf + (k - 5)) ->
  from_space_at (io_buffer_get_data buf) k = true.
Proof.
  intros H5 Hk Hsep. apply sep_at_chars in Hsep.
  destruct Hsep as (H0 & H1 & H2 & H3 & H4 & Hs & _).
  unfold from_space_at. rewrite !get_data_at by lia.
  replace (offset buf + (k - 4)) with (offset buf + (k - 5) + 1) by lia.
  replace (offset buf + (k - 3)) with (offset buf + (k - 5) + 2) by lia.
  replace (offset buf + (k - 2)) with (offset buf + (k - 5) + 3) by lia.
  replace (offset buf + (k - 1)) with (offset buf + (k - 5) + 4) by lia.
  replace (offset buf + k) with (offset buf + (k - 5) + 5) by lia.
  rewrite H0, H1, H2, H3, H4, Hs.
  replace (5 <=? k) with true by (symmetry; apply Nat.leb_le; lia).
  reflexivity.
Qed.

(** The [for] loop stops at the first space of a separator. *)
Lemma scan_for_first (msg : list ascii) (todo i : nat) :
  (scan_for msg todo i = i + todo /\
   forall k, i <= k < i + todo -> from_space_at msg k = false)
  \/
  (exists k, i <= k < i + todo /\ 5 <= k /\ from_space_at msg k = true /\
     (forall k', i <= k' < k -> from_space_at msg k' = false) /\
     k - 6 <= scan_for msg todo i <= k - 5).
Proof.
  revert i. induction todo as [|todo IH]; intros i; simpl.
  - left. split; [lia|]. intros k Hk. lia.
  - destruct (from_space_at msg i) eqn:Hm.
    + right. exists i. split; [lia|].
      pose proof (from_space_at_true _ _ Hm) as (H5 & _).
      split; [assumption|]. split; [assumption|].
      split; [intros k' Hk'; lia|].
      destruct (_ && _); lia.
    + destruct (IH (S i)) as [(Hr & Hno) | (k & Hk & H5 & Hmk & Hfirst & Hres)].
      * left. split; [lia|]. intros k Hk.
        destruct (Nat.eq_dec k i) as [->|]; [assumption|]. apply Hno. lia.
      * right. exists k. split; [lia|]. split; [assumption|].
        split; [assumption|]. split; [|assumption].
        intros k' Hk'. destruct (Nat.eq_dec k' i) as [->|]; [assumption|].
        apply Hfirst. lia.
Qed.

(** One turn of the loop misses no separator: with no separator left of the
    part already scanned, a turn that goes round again leaves none left of
    what it scanned, and a turn that stops on a match stops on the first
    separator.  [o0] is the cursor at the start of the scan; the window
    starts there until 7 bytes of lookback are kept. *)
Lemma read_pass_first (b : IOBuffer) (sp o0 : nat) :
  wf b -> sp <= buffered b -> o0 <= offset b ->
  (offset b = o0 \/ 7 <= sp) ->
  no_sep_before (file b) o0 (offset b + sp) ->
  match read_pass b sp with
  | Stop b1 i true => True
  | Stop b1 i false =>
      exists J, sep_at (file b) J /\ o0 <= J /\
                offset b + i <= J <= offset b + i + 1 /\
                no_sep_before (file b) o0 (J + 5)
  | Again b1 sp1 => no_sep_before (file b) o0 (offset b1 + sp1)
  end.
Proof.
  intros Hwf Hsp Ho Horigin Hnone.
  unfold read_pass.
  destruct (read_data_cases _ sp Hwf)
    as [(Hrd & _)
       | (buf' & Hrd & Hsame & Hsize & Hoff & Hwf' & Hmono & Hkeep & Hgrow)];
    rewrite Hrd; [exact I|].
  pose proof (get_data_length _ Hwf') as Hlen.
  assert (Hf : file buf' = file b) by (symmetry; apply Hsame).
  assert (Hshow : forall J,
             o0 <= J -> sep_at (file b) J ->
             offset b + sp <= J + 5 -> J + 5 < offset b + buffered buf' ->
             from_space_at (io_buffer_get_data buf') (J + 5 - offset b) = true).
  { intros J HJ Hsep Hlo Hhi.
    assert (offset b <= J) by (destruct Horigin; lia).
    apply sep_window; [lia|lia|]. rewrite Hf, Hoff.
    replace (offset b + (J + 5 - offset b - 5)) with J by lia. assumption. }
  unfold scan. rewrite Hlen.
  destruct (scan_for_first (io_buffer_get_data buf') (buffered buf' - sp) sp)
    as [(Hr & Hno)|(k & Hk & H5 & Hm & Hfirst & Hres)].
  - rewrite Hr. replace (sp + (buffered buf' - sp)) with (buffered buf') by lia.
    rewrite Nat.ltb_irrefl.
    assert (Hall : no_sep_before (file b) o0 (offset b + buffered buf')).
    { intros J HJ Hhi Hsep.
      destruct (Nat.lt_ge_cases (J + 5) (offset b + sp)) as [Hlt|Hge].
      - exact (Hnone J HJ Hlt Hsep).
      - specialize (Hshow J HJ Hsep Hge Hhi).
        rewrite Hno in Hshow by lia. discriminate. }
    destruct (0 <? buffered buf') eqn:E0.
    + cbn [offset io_buffer_skip].
      match goal with
      | |- no_sep_before _ _ ?x =>
          replace x with (offset b + buffered buf'); [assumption|]
      end.
      rewrite Hoff. destruct (buffered buf' <? 7) eqn:E7;
        [apply Nat.ltb_lt in E7 | apply Nat.ltb_ge in E7]; lia.
    + apply Nat.ltb_ge in E0.
      replace (offset buf' + sp) with (offset b + buffered buf') by lia.
      assumption.
  - set (r := scan_for (io_buffer_get_data buf') (buffered buf' - sp) sp) in *.
    replace (r <? buffered buf') with true
      by (symmetry; apply Nat.ltb_lt; lia).
    assert (HJ0 : offset b <= offset b + (k - 5)) by lia.
    exists (offset b + (k - 5)).
    assert (Hkb : k < buffered buf') by lia.
    destruct (window_sep buf' k Hwf' Hkb Hm) as (_ & Hsep).
    rewrite Hf, Hoff in Hsep.
    split; [assumption|]. split; [lia|]. split; [lia|].
    intros J HJ Hhi HsepJ.
    destruct (Nat.lt_ge_cases (J + 5) (offset b + sp)) as [Hlt|Hge].
    + exact (Hnone J HJ Hlt HsepJ).
    + specialize (Hshow J HJ HsepJ Hge ltac:(lia)).
      rewrite Hfirst in Hshow by lia. discriminate.
Qed.

(** The loop as a whole misses no separator. *)
Lemma read_loop_first (fuel : nat) (b b1 : IOBuffer) (sp sp1 o0 : nat)
      (last : bool) :
  wf b -> sp <= buffered b -> o0 <= offset b ->
  (offset b = o0 \/ 7 <= sp) ->
  no_sep_before (file b) o0 (offset b + sp) ->
  read_loop fuel b sp = Some (b1, sp1, last) ->
  (last = true -> no_sep_before (file b) o0 (offset b1 + sp1)) /\
  (last = false ->
   exists J, sep_at (file b) J /\ o0 <= J /\
             offset b1 + sp1 <= J <= offset b1 + sp1 + 1 /\
             no_sep_before (file b) o0 (J + 5)).
Proof.
  revert b sp.
  induction fuel as [|fuel IH]; intros b sp Hwf Hsp Ho Horigin Hnone Hrun;
    [discriminate|].
  simpl in Hrun.
  pose proof (read_pass_first b sp o0 Hwf Hsp Ho Horigin Hnone) as Hpass.
  destruct (read_pass b sp) as [b2 i l2 | b2 sp2] eqn:Hp.
  - injection Hrun as -> -> ->. destruct last.
    + destruct (read_pass_last _ _ _ _ Hwf Hsp Hp) as (-> & -> & _).
      split; [intros _; assumption|discriminate].
    + destruct (read_pass_found _ _ _ _ Hwf Hsp Hp) as (_ & _ & Hoff & _).
      split; [discriminate|]. intros _. rewrite Hoff. exact Hpass.
  - destruct (read_pass_again _ _ _ _ Hwf Hsp Hp)
      as (Hsame & Hsize & Hwf2 & n & Hlt & Hmono & Hgrow & Hlim & Hsp2 & Hbuf & Hoff).
    assert (Hf : file b2 = file b) by (symmetry; apply Hsame).
    rewrite <- Hf in *.
    apply (IH b2 sp2); try assumption; lia.
Qed.

Lemma sep_at_not_adjacent (f : list ascii) (j : nat) :
  sep_at f j -> ~ sep_at f (j + 1).
Proof.
  intros H1 H2. apply sep_at_chars in H1. apply sep_at_chars in H2.
  destruct H1 as (_ & HF & _). destruct H2 as (HL & _).
  rewrite HF in HL. discriminate.
Qed.

(** What the scanner returns, in full: on a stream with a separator the
    first one, with the cursor on its LF or on the CR before; on a stream
    without, the trimmed rest. *)
Lemma scanner_result (fuel : nat) (b : IOBuffer) :
  wf b -> 0 < max_read b -> 7 < max_buffer_size b ->
  unread b + 1 < fuel ->
  exists b1 sp lastmsg b',
    read_loop fuel b 0 = Some (b1, sp, lastmsg) /\
    mbox_read_message fuel b = Some b' /\
    offset b <= offset b' <= limit b /\
    (lastmsg = true ->
     (forall j, offset b <= j -> j + 6 <= limit b -> ~ sep_at (file b) j) /\
     seg (file b) (offset b) (offset b') = body_trim (rest b)) /\
    (lastmsg = false ->
     exists J, sep_at (file b) J /\ offset b <= J /\ J + 6 <= limit b /\
       (forall j, offset b <= j -> sep_at (file b) j -> J <= j) /\
       ((offset b' = J /\ (J = offset b \/ at_ (file b) (J - 1) <> CR)) \/
        (offset b' + 1 = J /\ offset b <= offset b' /\
         at_ (file b) (offset b') = CR))).
Proof.
  intros Hwf Hread Hcap Hfuel.
  destruct (mbox_read_message_total _ _ Hwf Hfuel) as (((b1 & sp) & lastmsg) & Hrun).
  destruct (mbox_read_message_spec fuel b b1 sp lastmsg Hwf Hrun)
    as (b' & Hmsg & _ & _ & _ & Hrange & Hfound & Hlast).
  assert (Hnone0 : no_sep_before (file b) (offset b) (offset b + 0))
    by (intros j Hj Hlt; lia).
  destruct (read_loop_first fuel b b1 0 sp (offset b) lastmsg Hwf
              (Nat.le_0_l _) (Nat.le_refl _) (or_introl eq_refl) Hnone0 Hrun)
    as (Hcl & Hcf).
  destruct (read_loop_spec fuel b b1 0 sp lastmsg Hwf (Nat.le_0_l _)
              ltac:(lia) Hrun)
    as (_ & _ & Hwf1 & _ & _ & _ & Hend).
  exists b1, sp, lastmsg, b'.
  split; [assumption|]. split; [assumption|]. split; [assumption|]. split.
  - intros E. split; [|exact (Hlast E Hread Hcap)].
    destruct (Hend E) as (Hbuf & H7 & _ & _ & Hwhy).
    assert (Hlim : offset b1 + sp = limit b) by lia.
    intros j Hj Hhi. apply (Hcl E j Hj). lia.
  - intros E.
    destruct (Hcf E) as (J & HsepJ & HJ & HJr & Hmin).
    destruct (Hfound E) as (j & Hj & Hj6 & Hsep & Hcr & Hno).
    assert (Hoff : offset b' = offset b1 + sp).
    { unfold mbox_read_message in Hmsg. rewrite Hrun, E in Hmsg.
      injection Hmsg as <-. reflexivity. }
    assert (Hle : J <= j).
    { destruct (Nat.le_gt_cases J j) as [|Hgt]; [assumption|].
      exfalso. apply (Hmin j); [lia|lia|assumption]. }
    assert (EJ : j = J).
    { destruct (Nat.eq_dec j J) as [|Hne]; [assumption|].
      exfalso. apply (sep_at_not_adjacent (file b) J HsepJ).
      replace (J + 1) with j by lia. assumption. }
    subst j. exists J.
    split; [assumption|]. split; [assumption|]. split; [assumption|]. split.
    + intros j Hj' Hsepj.
      destruct (Nat.le_gt_cases J j) as [|Hgt]; [assumption|].
      exfalso. apply (Hmin j); [assumption|lia|assumption].
    + destruct (Nat.eq_dec J (offset b')) as [EJ|EJ].
      * left. split; [now symmetry|]. auto.
      * right. split; [lia|]. split; [lia|]. apply Hcr. lia.
Qed.

(** ** The first separator of a list *)

Lemma prefixb_firstn (p l : list ascii) :
  prefixb p l = true <-> firstn (length p) l = p.
Proof.
  revert l. induction p as [|x p IH]; intros l; simpl.
  - split; reflexivity.
  - destruct l as [|y l]; simpl.
    + split; discriminate.
    + rewrite andb_true_iff, IH, Ascii.eqb_eq. split.
      * intros (-> & ->). reflexivity.
      * intros E. injection E as -> E. auto.
Qed.

Lemma sep_at_prefixb (l : list ascii) (j : nat) :
  sep_at l j <-> prefixb separator (skipn j l) = true.
Proof.
  rewrite prefixb_firstn. unfold sep_at, seg.
  replace (j + 6 - j) with 6 by lia. reflexivity.
Qed.

Lemma sep_at_cons (x : ascii) (l : list ascii) (j : nat) :
  sep_at (x :: l) (S j) <-> sep_at l j.
Proof. rewrite !sep_at_prefixb. reflexivity. Qed.

Lemma first_sep_some (l : list ascii) (j : nat) :
  first_sep l = Some j ->
  sep_at l j /\ forall j', j' < j -> ~ sep_at l j'.
Proof.
  revert j. induction l as [|x l IH]; intros j; [discriminate|].
  cbn [first_sep]. destruct (prefixb separator (x :: l)) eqn:E.
  - intros H. injection H as <-. split; [|intros j' Hj'; lia].
    apply sep_at_prefixb. exact E.
  - destruct (first_sep l) as [j0|]; [|discriminate].
    intros H. injection H as <-. destruct (IH j0 eq_refl) as (Hsep & Hmin).
    split; [now apply sep_at_cons|].
    intros [|j'] Hj' Hs.
    + apply sep_at_prefixb in Hs. cbn [skipn] in Hs. congruence.
    + apply sep_at_cons in Hs. apply (Hmin j'); [lia|assumption].
Qed.

Lemma first_sep_none (l : list ascii) :
  first_sep l = None -> forall j, ~ sep_at l j.
Proof.
  induction l as [|x l IH]; intros H j Hs.
  - apply sep_at_prefixb in Hs. destruct j; discriminate.
  - cbn [first_sep] in H. destruct (prefixb separator (x :: l)) eqn:E;
      [discriminate|].
    destruct (first_sep l); [discriminate|].
    destruct j as [|j].
    + apply sep_at_prefixb in Hs. cbn [skipn] in Hs. congruence.
    + apply sep_at_cons in Hs. exact (IH eq_refl j Hs).
Qed.

Lemma first_sep_unique (l : list ascii) (j : nat) :
  sep_at l j -> (forall j', j' < j -> ~ sep_at l j') ->
  first_sep l = Some j.
Proof.
  intros Hs Hmin. destruct (first_sep l) as [j0|] eqn:E.
  - destruct (first_sep_some l j0 E) as (Hs0 & Hmin0).
    destruct (Nat.lt_trichotomy j0 j) as [Hlt|[->|Hgt]].
    + exfalso. exact (Hmin j0 Hlt Hs0).
    + reflexivity.
    + exfalso. exact (Hmin0 j Hgt Hs).
  - exfalso. exact (first_sep_none l E j Hs).
Qed.

(** A separator of the rest of the stream is one of the file below the
    ceiling, and the other way round. *)
Lemma sep_at_rest (b : IOBuffer) (j : nat) :
  wf b ->
  (sep_at (rest b) j <->
   sep_at (file b) (offset b + j) /\ offset b + j + 6 <= limit b).
Proof.
  intros Hwf. pose proof (limit_length b) as HL. unfold wf in Hwf.
  assert (Hseg : offset b + j + 6 <= limit b ->
                 seg (rest b) j (j + 6)
                 = seg (file b) (offset b + j) (offset b + j + 6)).
  { intros Hin. unfold rest, seg.
    replace (j + 6 - j) with 6 by lia.
    replace (offset b + j + 6 - (offset b + j)) with 6 by lia.
    rewrite skipn_firstn_comm, firstn_firstn, skipn_skipn.
    f_equal; [lia|]. f_equal. lia. }
  split.
  - intros Hs.
    assert (Hin : offset b + j + 6 <= limit b).
    { apply sep_at_chars in Hs. destruct Hs as (_ & _ & _ & _ & _ & _ & Hlen).
      unfold rest in Hlen. rewrite seg_length in Hlen by lia. lia. }
    split; [|assumption]. unfold sep_at in *. now rewrite <- Hseg.
  - intros (Hs & Hin). unfold sep_at in *. now rewrite Hseg.
Qed.

(** X1: the scanner misses no separator.  It reports the last message
    exactly when no LF "From " lies between the cursor and the end of the
    stream; otherwise the boundary is at the first such separator, however
    the reads fall, with the cursor on its LF or on the CR before it. *)
Theorem scanner_finds_first_separator (fuel : nat) (b : IOBuffer) :
  wf b -> 0 < max_read b -> 7 < max_buffer_size b ->
  unread b + 1 < fuel ->
  exists b1 sp lastmsg b',
    read_loop fuel b 0 = Some (b1, sp, lastmsg) /\
    mbox_read_message fuel b = Some b' /\
    (lastmsg = true <->
     forall j, offset b <= j -> j + 6 <= limit b -> ~ sep_at (file b) j) /\
    (lastmsg = false ->
     exists J, sep_at (file b) J /\ offset b <= J /\ J + 6 <= limit b /\
       (forall j, offset b <= j -> sep_at (file b) j -> J <= j) /\
       offset b' <= J <= offset b' + 1).
Proof.
  intros Hwf Hread Hcap Hfuel.
  destruct (scanner_result fuel b Hwf Hread Hcap Hfuel)
    as (b1 & sp & lastmsg & b' & Hrun & Hmsg & _ & Hlast & Hfound).
  exists b1, sp, lastmsg, b'.
  split; [assumption|]. split; [assumption|]. split; [split|].
  - intros E. exact (proj1 (Hlast E)).
  - intros Hnone. destruct lastmsg; [reflexivity|].
    destruct (Hfound eq_refl) as (J & Hs & Hlo & Hhi & _).
    exfalso. exact (Hnone J Hlo Hhi Hs).
  - intros E. destruct (Hfound E) as (J & Hs & Hlo & Hhi & Hmin & Hpos).
    exists J. repeat (split; [assumption|]). lia.
Qed.

Lemma scanner_finds_first_separator_witness :
  exists b1 sp lastmsg b',
    read_loop 40 (open body1_then_from 3) 0 = Some (b1, sp, lastmsg) /\
    mbox_read_message 40 (open body1_then_from 3) = Some b' /\
    (lastmsg = true <->
     forall j, 0 <= j -> j + 6 <= limit (open body1_then_from 3) ->
               ~ sep_at body1_then_from j) /\
    (lastmsg = false ->
     exists J, sep_at body1_then_from J /\ 0 <= J /\
       J + 6 <= limit (open body1_then_from 3) /\
       (forall j, 0 <= j -> sep_at body1_then_from j -> J <= j) /\
       offset b' <= J <= offset b' + 1).
Proof.
  apply (scanner_finds_first_separator 40 (open body1_then_from 3)).
  - unfold wf. vm_compute. lia.
  - vm_compute. lia.
  - vm_compute. lia.
  - vm_compute. lia.
Defined.

Lemma read_message_returns (fuel : nat) (b : IOBuffer) :
  wf b -> unread b + 1 < fuel ->
  exists b', mbox_read_message fuel b = Some b'.
Proof.
  intros Hwf Hfuel.
  destruct (mbox_read_message_total fuel b Hwf Hfuel)
    as (((b1 & sp) & lastmsg) & Hrun).
  destruct (mbox_read_message_spec fuel b b1 sp lastmsg Hwf Hrun)
    as (b' & Hmsg & _).
  exists b'. exact Hmsg.
Qed.

(** The scanner moves the cursor by [message_end] of the unread bytes. *)
Lemma read_message_offset (fuel : nat) (b b' : IOBuffer) :
  wf b -> 0 < max_read b -> 7 < max_buffer_size b ->
  unread b + 1 < fuel ->
  mbox_read_message fuel b = Some b' ->
  offset b' = offset b + message_end (rest b).
Proof.
  intros Hwf Hread Hcap Hfuel Hgiven.
  destruct (scanner_result fuel b Hwf Hread Hcap Hfuel)
    as (b1 & sp & lastmsg & b'' & Hrun & Hmsg & Hrange & Hlast & Hfound).
  rewrite Hgiven in Hmsg. injection Hmsg as <-.
  pose proof (limit_length b) as HL. pose proof Hwf as Hwf0. unfold wf in Hwf0.
  unfold message_end. destruct lastmsg.
  - destruct (Hlast eq_refl) as (Hnone & Hbody).
    destruct (first_sep (rest b)) as [j|] eqn:E.
    + exfalso. destruct (first_sep_some _ _ E) as (Hs & _).
      apply (sep_at_rest b j Hwf) in Hs. destruct Hs as (Hs & Hin).
      apply (Hnone (offset b + j)); [lia|lia|assumption].
    + rewrite <- Hbody, seg_length by lia. lia.
  - destruct (Hfound eq_refl) as (J & Hs & Hlo & Hhi & Hmin & Hpos).
    assert (E : first_sep (rest b) = Some (J - offset b)).
    { apply first_sep_unique.
      - apply (sep_at_rest b _ Hwf).
        replace (offset b + (J - offset b)) with J by lia. auto.
      - intros j' Hj' Hs'. apply (sep_at_rest b j' Hwf) in Hs'.
        destruct Hs' as (Hs' & _).
        assert (J <= offset b + j') by (apply Hmin; [lia|assumption]). lia. }
    rewrite E.
    destruct (Nat.eq_dec J (offset b)) as [EJ|EJ].
    + replace (0 <? J - offset b) with false
        by (symmetry; apply Nat.ltb_ge; lia).
      cbn [andb]. destruct Hpos as [(Hp & _)|(Hp & Hge & _)]; lia.
    + replace (0 <? J - offset b) with true
        by (symmetry; apply Nat.ltb_lt; lia).
      cbn [andb]. unfold rest. rewrite at_seg by lia.
      replace (offset b + (J - offset b - 1)) with (J - 1) by lia.
      destruct Hpos as [(Hp & [Hz|Hcr])|(Hp & Hge & Hcr)].
      * lia.
      * apply Ascii.eqb_neq in Hcr. rewrite Hcr. lia.
      * replace (J - 1) with (offset b') by lia.
        apply Ascii.eqb_eq in Hcr. rewrite Hcr. lia.
Qed.



(** [message_end] on the sample bodies: before "\r\nFrom b 2" and before
    the last LF. *)
Example message_end_samples :
  message_end body1_then_from = 5 /\ message_end body2 = 5 /\
  message_end from_in_body = 17.
Proof. vm_compute. repeat split; reflexivity. Qed.

(** X3: among readers that read at least one byte at a time and hold
    more than 7 bytes, where a message ends does not depend on how the
    stream is read: two such readers on the same file, cursor and ceiling,
    whatever their read sizes, their buffer sizes above 7 and the bytes
    they have buffered already, are left at the same offset by
    [mbox_read_message]. *)
Theorem scanner_independent_of_buffering (fuel1 fuel2 : nat) (b c : IOBuffer) :
  wf b -> 0 < max_read b -> 7 < max_buffer_size b -> unread b + 1 < fuel1 ->
  wf c -> 0 < max_read c -> 7 < max_buffer_size c -> unread c + 1 < fuel2 ->
  file b = file c -> offset b = offset c -> size b = size c ->
  exists b' c',
    mbox_read_message fuel1 b = Some b' /\
    mbox_read_message fuel2 c = Some c' /\
    offset b' = offset c'.
Proof.
  intros Hwb Hrb Hcb Hfb Hwc Hrc Hcc Hfc Hfile Hoff Hsize.
  destruct (read_message_returns fuel1 b Hwb Hfb) as (b' & Hb).
  destruct (read_message_returns fuel2 c Hwc Hfc) as (c' & Hc).
  pose proof (read_message_offset fuel1 b b' Hwb Hrb Hcb Hfb Hb) as Hob.
  pose proof (read_message_offset fuel2 c c' Hwc Hrc Hcc Hfc Hc) as Hoc.
  exists b', c'. split; [assumption|]. split; [assumption|].
  rewrite Hob, Hoc. unfold rest, limit. now rewrite Hfile, Hoff, Hsize.
Qed.

Lemma scanner_independent_of_buffering_witness :
  exists b' c',
    mbox_read_message 40 (open body1_then_from 1) = Some b' /\
    mbox_read_message 20
      (mkIOBuffer body1_then_from 0 0 22 9 64 100) = Some c' /\
    offset b' = offset c'.
Proof.
  apply (scanner_independent_of_buffering 40 20 (open body1_then_from 1)
           (mkIOBuffer body1_then_from 0 0 22 9 64 100)).
  - unfold wf. vm_compute. lia.
  - vm_compute. lia.
  - vm_compute. lia.
  - vm_compute. lia.
  - unfold wf. vm_compute. lia.
  - vm_compute. lia.
  - vm_compute. lia.
  - vm_compute. lia.
  - reflexivity.
  - reflexivity.
  - reflexivity.
Defined.

(** The bound on the buffer is needed: a buffer of 7 bytes is full after
    the first pass, the scanner takes that for the end of the stream and
    stops at 7, where a buffer of 8 bytes goes on to the end at 10. *)
Example small_buffer_ends_early :
  option_map offset (mbox_read_message 40 (mkIOBuffer ten_bytes 0 0 10 0 7 4))
  = Some 7 /\
  option_map offset (mbox_read_message 40 (mkIOBuffer ten_bytes 0 0 10 0 8 4))
  = Some 10 /\
  message_end ten_bytes = 10.
Proof. vm_compute. repeat split; reflexivity. Qed.

(** * More on the message transaction *)

Lemma find_lf_first (data : list ascii) (todo pos : nat) :
  forall k, pos <= k < find_lf data todo pos -> at_ data k <> LF.
Proof.
  revert pos. induction todo as [|todo IH]; intros pos k Hk; simpl in Hk.
  - lia.
  - destruct (at_ data pos =? LF)%char eqn:E; [lia|].
    destruct (Nat.eq_dec k pos) as [->|Hne].
    + now apply Ascii.eqb_neq.
    + apply (IH (S pos)). lia.
Qed.

(** The From-line loop stops at the first LF behind the cursor. *)
Lemma from_line_first (fuel : nat) (b b0 : IOBuffer) (pos p : nat)
      (data : list ascii) :
  wf b -> pos <= buffered b ->
  (forall k, k < pos -> at_ (file b) (offset b + k) <> LF) ->
  from_line fuel b pos = Some (b0, data, p) ->
  p < length data ->
  at_ (file b) (offset b + p) = LF /\
  forall k, k < p -> at_ (file b) (offset b + k) <> LF.
Proof.
  revert b pos. induction fuel as [|fuel IH]; intros b pos Hwf Hpos Hbefore Hrun Hp.
  - discriminate.
  - simpl in Hrun.
    destruct (read_data_cases _ pos Hwf)
      as [(Hrd & Hth & Hwhy)
         | (buf' & Hrd & Hsame & Hsize & Hoff & Hwf' & Hmono & Hkeep & Hgrow)];
      rewrite Hrd in Hrun.
    + injection Hrun as <- <- <-. simpl in Hp. lia.
    + pose proof (get_data_length _ Hwf') as Hlen.
      assert (Hf : file buf' = file b) by (symmetry; apply Hsame).
      set (q := find_lf (io_buffer_get_data buf')
                        (length (io_buffer_get_data buf') - pos) pos) in *.
      destruct (find_lf_spec (io_buffer_get_data buf')
                             (length (io_buffer_get_data buf') - pos) pos)
        as (Hr & Hlf). fold q in Hr, Hlf.
      assert (Hnew : forall k, k < q -> at_ (file b) (offset b + k) <> LF).
      { intros k Hk. destruct (Nat.lt_ge_cases k pos) as [Hlt|Hge].
        - now apply Hbefore.
        - rewrite <- Hf, <- Hoff, <- get_data_at by lia.
          apply find_lf_first with (todo := length (io_buffer_get_data buf') - pos)
                                   (pos := pos).
          fold q. lia. }
      destruct (q <? length (io_buffer_get_data buf')) eqn:Elt.
      * apply Nat.ltb_lt in Elt. injection Hrun as <- <- <-.
        split; [|assumption].
        rewrite <- Hf, <- Hoff, <- get_data_at by lia. apply Hlf. lia.
      * apply Nat.ltb_ge in Elt.
        assert (Hq : q <= buffered buf') by lia.
        assert (Hnew' : forall k, k < q ->
                  at_ (file buf') (offset buf' + k) <> LF)
          by (intros k Hk; rewrite Hf, Hoff; now apply Hnew).
        destruct (IH buf' q Hwf' Hq Hnew' Hrun Hp) as (H1 & H2).
        rewrite Hf, Hoff in H1, H2. split; assumption.
Qed.

(** X4: the location written for a message is the offset right behind the
    first LF at or behind the cursor, the end of its From-line, as an
    offset of the whole file; the cursor that the transaction returns, the
    end of the message, is not before it and not behind the end of the
    stream. *)
Theorem location_after_first_lf env fuel index inbuf index' inbuf' ok :
  wf inbuf ->
  mbox_index_append_next env fuel index inbuf = Some (index', inbuf', ok) ->
  exists evs,
    log index' = log index ++ evs /\
    forall a, In (EvUpdateFieldRaw FIELD_TYPE_LOCATION (RawOffset a)) evs ->
      exists p,
        a = start_offset inbuf + (p + 1) /\
        offset inbuf <= p /\ p < limit inbuf /\
        at_ (file inbuf) p = LF /\
        (forall q, offset inbuf <= q < p -> at_ (file inbuf) q <> LF) /\
        p + 1 <= offset inbuf' <= limit inbuf.
Proof.
  intros Hwf Hrun.
  destruct (append_next_run _ _ _ _ _ _ _ Hrun)
    as (_ & b0 & data & pos & Hline &
        [(_ & _ & _ & Hlog & _)
        |(Hchk & _ & _ & b2 & Hmsg &
          [(_ & _ & _ & Hlog & _)
          |(u & dg & fl & _ & _ & Hoff & _ & _ & Hcases)])]).
  - eexists. split; [exact Hlog|]. intros a H. in_cases H.
  - eexists. split; [exact Hlog|]. intros a H. in_cases H.
  - destruct (from_line_found fuel inbuf b0 data pos Hwf Hline Hchk)
      as (Hwf1 & Hsame1 & Hsize1 & Hoff1 & _ & Hdata & Hlf).
    destruct (from_line_spec fuel inbuf b0 0 pos data Hwf (Nat.le_0_l _) Hline)
      as (Hsame0 & Hsize0 & Hoff0 & Hwf0 & _ & [Hnil|(_ & Hpos & _)]).
    { rewrite Hnil in Hchk. now rewrite no_from_line_nil in Hchk. }
    assert (Hlen : length data = buffered b0)
      by (rewrite Hdata; now apply get_data_length).
    destruct (from_line_first fuel inbuf b0 0 pos data Hwf (Nat.le_0_l _)
                ltac:(intros k Hk; lia) Hline ltac:(lia))
      as (Hlf' & Hfirst).
    destruct (mbox_read_message_frame fuel _ b2 Hwf1 Hmsg)
      as (_ & _ & _ & Hrange).
    assert (Hlim0 : limit b0 = limit inbuf)
      by (symmetry; now apply same_file_limit).
    assert (Hlim1 : limit (io_buffer_skip b0 (pos + 1)) = limit inbuf)
      by (symmetry; now apply same_file_limit).
    assert (Hstart : start_offset b0 = start_offset inbuf)
      by (symmetry; apply Hsame0).
    assert (Hloc : forall evs a,
               In (EvUpdateFieldRaw FIELD_TYPE_LOCATION (RawOffset a)) evs ->
               (forall a', In (EvUpdateFieldRaw FIELD_TYPE_LOCATION (RawOffset a')) evs ->
                           a' = start_offset b0 + (offset b0 + (pos + 1))) ->
               exists p,
                 a = start_offset inbuf + (p + 1) /\
                 offset inbuf <= p /\ p < limit inbuf /\
                 at_ (file inbuf) p = LF /\
                 (forall q, offset inbuf <= q < p -> at_ (file inbuf) q <> LF) /\
                 p + 1 <= offset inbuf' <= limit inbuf).
    { intros evs a Hin Honly. rewrite (Honly a Hin).
      exists (offset inbuf + pos). unfold wf in Hwf0.
      split; [lia|]. split; [lia|]. split; [lia|]. split; [assumption|].
      split.
      - intros q Hq. replace q with (offset inbuf + (q - offset inbuf)) by lia.
        apply Hfirst. lia.
      - cbn [offset io_buffer_skip] in Hrange. lia. }
    destruct Hcases as [(_ & Hlog & _)|[(_ & Hlog & _)|(_ & Hlog & _)]];
      (eexists; split; [exact Hlog|]); intros a H;
      apply (Hloc _ a H); intros a' H';
      unfold tx_open, tx_committed in H'; in_cases H';
      injection H' as <-; reflexivity.
Qed.

Lemma location_after_first_lf_witness :
  exists evs,
    log (result_index tx_good) = log empty_index ++ evs /\
    forall a, In (EvUpdateFieldRaw FIELD_TYPE_LOCATION (RawOffset a)) evs ->
      exists p,
        a = 0 + (p + 1) /\ 0 <= p /\ p < limit (open two_messages 4) /\
        at_ two_messages p = LF /\
        (forall q, 0 <= q < p -> at_ two_messages q <> LF) /\
        p + 1 <= offset (result_inbuf tx_good) <= limit (open two_messages 4).
Proof.
  apply (location_after_first_lf (test_env 1000 0 true true true true) 50
           empty_index (open two_messages 4)
           (result_index tx_good) (result_inbuf tx_good) (result_ok tx_good)).
  - unfold wf. vm_compute. lia.
  - vm_compute. reflexivity.
Defined.

(** X5: a transaction that reports an error has done nothing else: the
    error is its whole trace, no record is allocated, and the stream is
    returned with cursor, ceiling and file as they were, still on the line
    that failed the check. *)
Theorem failed_check_consumes_nothing env fuel index inbuf index' inbuf' ok :
  wf inbuf ->
  mbox_index_append_next env fuel index inbuf = Some (index', inbuf', ok) ->
  exists evs,
    log index' = log index ++ evs /\
    forall msg, In (EvSetError msg) evs ->
      evs = [EvSetError msg] /\ ok = false /\
      records index' = records index /\
      offset inbuf' = offset inbuf /\ size inbuf' = size inbuf /\
      file inbuf' = file inbuf /\ wf inbuf'.
Proof.
  intros Hwf Hrun.
  destruct (append_next_run _ _ _ _ _ _ _ Hrun)
    as (_ & b0 & data & pos & Hline &
        [(_ & -> & -> & Hlog & _ & _ & Hrec)
        |(_ & _ & _ & b2 & _ &
          [(_ & _ & _ & Hlog & _)
          |(u & dg & fl & _ & _ & _ & _ & _ &
            [(_ & Hlog & _)|[(_ & Hlog & _)|(_ & Hlog & _)]])])]);
    (eexists; split; [exact Hlog|]); intros msg H;
    unfold tx_open, tx_committed in H; in_cases H.
  injection H as <-.
  destruct (from_line_spec fuel inbuf b0 0 pos data Hwf (Nat.le_0_l _) Hline)
    as (Hsame & Hsize & Hoff & Hwf0 & _).
  repeat split; auto. symmetry. apply Hsame.
Qed.

Lemma failed_check_consumes_nothing_witness :
  exists evs,
    log (result_index tx_no_from) = log empty_index ++ evs /\
    forall msg, In (EvSetError msg) evs ->
      evs = [EvSetError msg] /\ result_ok tx_no_from = false /\
      records (result_index tx_no_from) = records empty_index /\
      offset (result_inbuf tx_no_from) = offset (open no_from 4) /\
      size (result_inbuf tx_no_from) = size (open no_from 4) /\
      file (result_inbuf tx_no_from) = file (open no_from 4) /\
      wf (result_inbuf tx_no_from).
Proof.
  apply (failed_check_consumes_nothing (test_env 1000 0 true true true true) 50
           empty_index (open no_from 4)).
  - unfold wf. vm_compute. lia.
  - vm_compute. reflexivity.
Defined.

(** * The whole append *)

Lemma from_line_date_ok env (data : list ascii) :
  date_ok env (from_line_date env data).
Proof.
  unfold date_ok, from_line_date.
  destruct (mbox_from_parse_date env data <=? 0)%Z eqn:E.
  - left. reflexivity.
  - right. apply Z.leb_gt in E. exact E.
Qed.

(** One transaction adds its trace to the log and at most one record to the
    index. *)
Lemma append_next_effect env fuel index inbuf index' inbuf' ok :
  mbox_index_append_next env fuel index inbuf = Some (index', inbuf', ok) ->
  exists evs new,
    log index' = log index ++ evs /\
    records index' = records index ++ new /\
    tx_effect env (length (records index)) evs new ok.
Proof.
  intros Hrun.
  destruct (append_next_run _ _ _ _ _ _ _ Hrun)
    as (_ & b0 & data & pos & _ &
        [(_ & -> & _ & Hlog & _ & _ & Hrec)
        |(_ & _ & _ & b2 & _ &
          [(-> & _ & _ & Hlog & Hrec)
          |(u & dg & fl & Happ & _ & _ & _ & _ &
            [(-> & Hlog & Hrec)|[(-> & Hlog & Hrec)|(-> & Hlog & Hrec)]])])]).
  - eexists. exists [].
    split; [exact Hlog|]. split; [now rewrite app_nil_r|]. constructor.
  - eexists. exists [].
    split; [exact Hlog|]. split; [now rewrite app_nil_r|]. constructor.
  - eexists. eexists. split; [exact Hlog|]. split; [exact Hrec|].
    constructor. apply from_line_date_ok.
  - eexists. eexists. split; [exact Hlog|]. split; [exact Hrec|].
    constructor. apply from_line_date_ok.
  - eexists. eexists. split; [exact Hlog|]. split; [exact Hrec|].
    constructor; [apply from_line_date_ok|].
    eexists. eexists. exact Happ.
Qed.

Lemma append_loop_effect env fuel inner index inbuf index' inbuf' ok :
  append_loop env fuel inner index inbuf = Some (index', inbuf', ok) ->
  exists evs new,
    log index' = log index ++ evs /\
    records index' = records index ++ new /\
    loop_effect env (length (records index)) evs new ok.
Proof.
  revert index inbuf.
  induction fuel as [|fuel IH]; intros index inbuf Hrun; [discriminate|].
  cbn [append_loop] in Hrun.
  destruct (if negb (start_offset inbuf + offset inbuf =? 0)
            then mbox_skip_crlf env inbuf else (inbuf, true)) as [b1 ok1].
  destruct ok1; cbn [negb] in Hrun.
  - destruct (offset b1 =? size b1).
    + injection Hrun as <- <- <-. exists [], []. rewrite !app_nil_r.
      split; [reflexivity|]. split; [reflexivity|]. constructor.
    + destruct (mbox_index_append_next env inner index b1)
        as [[[index1 b2] [|]]|] eqn:Hnext; [| |discriminate].
      * destruct (append_next_effect _ _ _ _ _ _ _ Hnext)
          as (evs & new & Hlog & Hrec & Htx).
        destruct (IH _ _ Hrun) as (rest_ & new' & Hlog' & Hrec' & Hloop).
        exists (evs ++ rest_), (new ++ new').
        split; [rewrite Hlog', Hlog; now rewrite app_assoc|].
        split; [rewrite Hrec', Hrec; now rewrite app_assoc|].
        apply le_next; [assumption|].
        rewrite Hrec, length_app in Hloop. exact Hloop.
      * injection Hrun as <- <- <-.
        destruct (append_next_effect _ _ _ _ _ _ _ Hnext)
          as (evs & new & Hlog & Hrec & Htx).
        exists evs, new. split; [assumption|]. split; [assumption|].
        now apply le_failed.
  - injection Hrun as <- <- <-. eexists. exists [].
    split; [reflexivity|]. split; [now rewrite app_nil_r|].
    constructor.
Qed.

(** The three ways through [mbox_index_append]: nothing to read, the lock
    refused, or the loop with the lock held. *)
Lemma append_paths env fuel index inbuf index' inbuf' ok :
  mbox_index_append env fuel index inbuf = Some (index', inbuf', ok) ->
  (offset inbuf = size inbuf /\ index' = index /\ inbuf' = inbuf /\ ok = true)
  \/
  (offset inbuf <> size inbuf /\ set_lock env (log index) = false /\
   index' = emit (EvSetLock false) index /\ inbuf' = inbuf /\ ok = false)
  \/
  (offset inbuf <> size inbuf /\ set_lock env (log index) = true /\
   append_loop env fuel fuel (emit (EvSetLock true) index) inbuf
   = Some (index', inbuf', ok)).
Proof.
  unfold mbox_index_append. intros Hrun.
  destruct (offset inbuf =? size inbuf) eqn:E.
  - left. apply Nat.eqb_eq in E. injection Hrun as <- <- <-. auto.
  - right. apply Nat.eqb_neq in E.
    destruct (set_lock env (log index)) eqn:L; cbn [negb] in Hrun.
    + right. auto.
    + left. injection Hrun as <- <- <-. auto.
Qed.

Lemma append_loop_success env fuel inner index inbuf index' inbuf' :
  append_loop env fuel inner index inbuf = Some (index', inbuf', true) ->
  offset inbuf' = size inbuf'.
Proof.
  revert index inbuf.
  induction fuel as [|fuel IH]; intros index inbuf Hrun; [discriminate|].
  cbn [append_loop] in Hrun.
  destruct (if negb (start_offset inbuf + offset inbuf =? 0)
            then mbox_skip_crlf env inbuf else (inbuf, true)) as [b1 ok1].
  destruct ok1; cbn [negb] in Hrun; [|discriminate].
  destruct (offset b1 =? size b1) eqn:E.
  - injection Hrun as <- <-. now apply Nat.eqb_eq.
  - destruct (mbox_index_append_next env inner index b1)
      as [[[index1 b2] [|]]|]; [|discriminate|discriminate].
    exact (IH _ _ Hrun).
Qed.

(** X6: an append that succeeds leaves the cursor on the ceiling of the
    stream, so that an append on the stream it returns, with any index, is
    the fast path of line 178: it succeeds at once, takes no lock and
    changes neither index nor stream. *)
Theorem append_success_consumes_stream env fuel index inbuf index' inbuf' :
  mbox_index_append env fuel index inbuf = Some (index', inbuf', true) ->
  offset inbuf' = size inbuf' /\
  forall fuel2 index2,
    mbox_index_append env fuel2 index2 inbuf' = Some (index2, inbuf', true).
Proof.
  intros Hrun.
  assert (Hend : offset inbuf' = size inbuf').
  { destruct (append_paths _ _ _ _ _ _ _ Hrun)
      as [(E & _ & -> & _)|[(_ & _ & _ & _ & Hok)|(_ & _ & Hloop)]].
    - exact E.
    - discriminate Hok.
    - exact (append_loop_success _ _ _ _ _ _ _ Hloop). }
  split; [exact Hend|]. intros fuel2 index2.
  unfold mbox_index_append. apply Nat.eqb_eq in Hend. now rewrite Hend.
Qed.

Lemma append_success_consumes_stream_witness :
  offset (result_inbuf append_good) = size (result_inbuf append_good) /\
  forall fuel2 index2,
    mbox_index_append (test_env 1000 0 true true true true) fuel2 index2
                      (result_inbuf append_good)
    = Some (index2, result_inbuf append_good, true).
Proof.
  apply (append_success_consumes_stream
           (test_env 1000 0 true true true true) 50 empty_index
           (open two_messages 4) (result_index append_good)).
  vm_compute. reflexivity.
Defined.

Lemma stored_uids_app (l1 l2 : list Event) :
  stored_uids (l1 ++ l2) = stored_uids l1 ++ stored_uids l2.
Proof. apply flat_map_app. Qed.

Lemma loop_effect_uids env rec evs new ok :
  loop_effect env rec evs new ok ->
  Forall (answered env) (stored_uids evs) /\
  exists pending,
    map uid new = stored_uids evs ++ pending /\
    (pending = [] \/ (ok = false /\ pending = [0])).
Proof.
  induction 1 as [rec|rec msg|rec evs new Htx
                 |rec evs new rest_ new' ok Htx Hloop IH].
  - split; [constructor|]. exists []. auto.
  - split; [constructor|]. exists []. auto.
  - inversion Htx; subst; (split; [constructor|]).
    + exists []. auto.
    + exists []. auto.
    + exists [0]. auto.
    + exists [0]. auto.
  - destruct IH as (Hans & pending & Hmap & Hp).
    inversion Htx; subst. rewrite stored_uids_app. split.
    + apply Forall_app. split; [|assumption].
      cbn. constructor; [assumption|constructor].
    + exists pending. split; [|assumption].
      rewrite map_app, Hmap. reflexivity.
Qed.

(** X7: an append only adds records behind the ones the index has.  The
    identities of the new records are the ones stored in the trace, in
    order, each of them an answer of [index->append], followed by a 0 for
    the record of a transaction that failed, which is then the last one.
    So with an index that never answers the identity 0, the new records
    with the identity 0 are exactly those of failed transactions. *)
Theorem append_records_and_uids env fuel index inbuf index' inbuf' ok :
  mbox_index_append env fuel index inbuf = Some (index', inbuf', ok) ->
  exists evs new pending,
    log index' = log index ++ evs /\
    records index' = records index ++ new /\
    map uid new = stored_uids evs ++ pending /\
    (pending = [] \/ (ok = false /\ pending = [0])) /\
    Forall (answered env) (stored_uids evs) /\
    ((forall l d, append env l d <> Some 0) ->
     Forall (fun u => u <> 0) (stored_uids evs) /\
     (ok = true -> Forall (fun r => uid r <> 0) new)).
Proof.
  intros Hrun.
  assert (Hnz : forall us : list nat,
             Forall (answered env) us ->
             (forall l d, append env l d <> Some 0) ->
             Forall (fun u => u <> 0) us).
  { intros us Hans Hno.
    apply (Forall_impl _ (P := answered env)); [|exact Hans].
    intros u (l & d & Hu) ->. exact (Hno l d Hu). }
  assert (Hall : forall (evs : list Event) (new : list MailIndexRecord)
                        (pending : list nat),
             map uid new = stored_uids evs ++ pending ->
             (pending = [] \/ (ok = false /\ pending = [0])) ->
             Forall (answered env) (stored_uids evs) ->
             (forall l d, append env l d <> Some 0) ->
             Forall (fun u => u <> 0) (stored_uids evs) /\
             (ok = true -> Forall (fun r => uid r <> 0) new)).
  { intros evs new pending Hmap Hp Hans Hno.
    pose proof (Hnz _ Hans Hno) as Hs. split; [exact Hs|].
    intros Hok. destruct Hp as [->|(Hf & _)]; [|congruence].
    rewrite app_nil_r in Hmap. rewrite <- Hmap in Hs.
    exact (proj1 (Forall_map uid (fun u => u <> 0) new) Hs). }
  destruct (append_paths _ _ _ _ _ _ _ Hrun)
    as [(_ & -> & _ & _)|[(_ & _ & -> & _ & _)|(_ & _ & Hloop)]].
  - exists [], [], []. rewrite !app_nil_r.
    split; [reflexivity|]. split; [reflexivity|]. split; [reflexivity|].
    split; [auto|]. split; [constructor|]. intros _. split; constructor.
  - exists [EvSetLock false], [], []. rewrite app_nil_r.
    split; [reflexivity|]. split; [reflexivity|]. split; [reflexivity|].
    split; [auto|]. split; [constructor|]. intros _. split; constructor.
  - destruct (append_loop_effect _ _ _ _ _ _ _ _ Hloop)
      as (evs & new & Hlog & Hrec & Heff).
    destruct (loop_effect_uids _ _ _ _ _ Heff)
      as (Hans & pending & Hmap & Hp).
    exists (EvSetLock true :: evs), new, pending.
    split; [rewrite Hlog; cbn [log emit]; now rewrite <- app_assoc|].
    split; [exact Hrec|]. split; [exact Hmap|]. split; [exact Hp|].
    split; [exact Hans|].
    exact (Hall (EvSetLock true :: evs) new pending Hmap Hp Hans).
Qed.

Lemma append_records_and_uids_witness :
  exists evs new pending,
    log (result_index append_barrier_fails) = log empty_index ++ evs /\
    records (result_index append_barrier_fails)
    = records empty_index ++ new /\
    map uid new = stored_uids evs ++ pending /\
    (pending = [] \/ (result_ok append_barrier_fails = false /\ pending = [0])) /\
    Forall (answered (test_env 1000 0 true true true false))
           (stored_uids evs) /\
    ((forall l d, append (test_env 1000 0 true true true false) l d <> Some 0) ->
     Forall (fun u => u <> 0) (stored_uids evs) /\
     (result_ok append_barrier_fails = true ->
      Forall (fun r => uid r <> 0) new)).
Proof.
  apply (append_records_and_uids
           (test_env 1000 0 true true true false) 50 empty_index
           (open two_messages 4) (result_index append_barrier_fails)
           (result_inbuf append_barrier_fails)).
  vm_compute. reflexivity.
Defined.

(** With the sample index, which answers the identity 0 to no request, the
    two messages of the sample mailbox get the identities 2 and 14, and
    none is 0. *)
Example sample_uids_nonzero :
  (forall l d, append (test_env 1000 0 true true true true) l d <> Some 0) /\
  map uid (records (result_index append_good)) = [2; 14].
Proof. split; [intros l d; cbn; discriminate|vm_compute; reflexivity]. Qed.

Lemma loop_effect_dates env rec evs new ok :
  loop_effect env rec evs new ok ->
  Forall (fun r => date_ok env (internal_date r)) new.
Proof.
  induction 1 as [rec|rec msg|rec evs new Htx
                 |rec evs new rest_ new' ok Htx Hloop IH].
  - constructor.
  - constructor.
  - inversion Htx; subst; try (constructor; [assumption|]); constructor.
  - apply Forall_app. split; [|assumption].
    inversion Htx; subst; try (constructor; [assumption|]); constructor.
Qed.

(** X8: with a clock that is positive, every record that an append adds
    has a positive date, whatever the separator parser answers and
    however the append ends. *)
Theorem appended_dates_positive env fuel index inbuf index' inbuf' ok :
  (0 < ioloop_time env)%Z ->
  mbox_index_append env fuel index inbuf = Some (index', inbuf', ok) ->
  exists new,
    records index' = records index ++ new /\
    Forall (fun r => (0 < internal_date r)%Z) new.
Proof.
  intros Hclock Hrun.
  destruct (append_paths _ _ _ _ _ _ _ Hrun)
    as [(_ & -> & _ & _)|[(_ & _ & -> & _ & _)|(_ & _ & Hloop)]].
  - exists []. rewrite app_nil_r. auto.
  - exists []. rewrite app_nil_r. auto.
  - destruct (append_loop_effect _ _ _ _ _ _ _ _ Hloop)
      as (evs & new & _ & Hrec & Heff).
    exists new. split; [exact Hrec|].
    apply loop_effect_dates in Heff.
    apply (Forall_impl _ (P := fun r => date_ok env (internal_date r)));
      [|exact Heff].
    intros r [Hr|Hr]; [rewrite Hr; exact Hclock|exact Hr].
Qed.

Lemma appended_dates_positive_witness :
  exists new,
    records (result_index append_good) = records empty_index ++ new /\
    Forall (fun r => (0 < internal_date r)%Z) new.
Proof.
  apply (appended_dates_positive
           (test_env 1000 0 true true true true) 50 empty_index
           (open two_messages 4) (result_index append_good)
           (result_inbuf append_good) (result_ok append_good)).
  - vm_compute. reflexivity.
  - vm_compute. reflexivity.
Defined.

Lemma tx_effect_counts env rec evs new ok :
  tx_effect env rec evs new ok ->
  count is_set_lock evs = 0 /\
  count is_update_begin evs = length new /\
  count is_update_end evs = length new /\
  count is_header_init evs
  = count is_header_free evs + count is_barrier_failed evs /\
  count is_barrier_failed evs <= 1 /\
  (ok = true -> count is_barrier_failed evs = 0).
Proof.
  destruct 1; cbn; repeat split; auto; discriminate.
Qed.

Lemma loop_effect_counts env rec evs new ok :
  loop_effect env rec evs new ok ->
  count is_set_lock evs = 0 /\
  count is_update_begin evs = length new /\
  count is_update_end evs = length new /\
  count is_header_init evs
  = count is_header_free evs + count is_barrier_failed evs /\
  count is_barrier_failed evs <= 1 /\
  (ok = true -> count is_barrier_failed evs = 0).
Proof.
  induction 1 as [rec|rec msg|rec evs new Htx
                 |rec evs new rest_ new' ok Htx Hloop IH].
  - cbn. repeat split; auto.
  - cbn. repeat split; auto.
  - exact (tx_effect_counts _ _ _ _ _ Htx).
  - destruct (tx_effect_counts _ _ _ _ _ Htx)
      as (H1 & H2 & H3 & H4 & H5 & H6).
    destruct IH as (I1 & I2 & I3 & I4 & I5 & I6).
    specialize (H6 eq_refl). rewrite !count_app, length_app.
    split; [lia|]. split; [lia|]. split; [lia|]. split; [lia|].
    split; [lia|]. intros Hok. specialize (I6 Hok). lia.
Qed.

(** X9: an append that finds something to read asks for the lock exactly
    once, before anything else; when the lock is refused it returns
    failure with index and stream untouched: no record, no error, no flag,
    the cursor where it was. *)
Theorem append_lock_discipline env fuel index inbuf index' inbuf' ok :
  offset inbuf <> size inbuf ->
  mbox_index_append env fuel index inbuf = Some (index', inbuf', ok) ->
  exists rest_,
    log index' = log index ++ EvSetLock (set_lock env (log index)) :: rest_ /\
    count is_set_lock rest_ = 0 /\
    (set_lock env (log index) = false ->
     rest_ = [] /\ ok = false /\ inbuf' = inbuf /\
     records index' = records index /\ set_flags index' = set_flags index /\
     error index' = error index).
Proof.
  intros Hne Hrun.
  destruct (append_paths _ _ _ _ _ _ _ Hrun)
    as [(E & _)|[(_ & L & -> & -> & ->)|(_ & L & Hloop)]].
  - contradiction.
  - exists []. rewrite L. cbn. repeat split; auto.
  - destruct (append_loop_effect _ _ _ _ _ _ _ _ Hloop)
      as (evs & new & Hlog & _ & Heff).
    destruct (loop_effect_counts _ _ _ _ _ Heff) as (Hc & _).
    exists evs. rewrite L.
    split; [rewrite Hlog; cbn [log emit]; now rewrite <- app_assoc|].
    split; [exact Hc|]. discriminate.
Qed.

Lemma append_lock_discipline_witness :
  exists rest_,
    log (result_index append_lock_refused)
    = log empty_index ++
      EvSetLock (set_lock (test_env 1000 0 false true true true)
                          (log empty_index)) :: rest_ /\
    count is_set_lock rest_ = 0 /\
    (set_lock (test_env 1000 0 false true true true) (log empty_index) = false ->
     rest_ = [] /\ result_ok append_lock_refused = false /\
     result_inbuf append_lock_refused = open two_messages 4 /\
     records (result_index append_lock_refused) = records empty_index /\
     set_flags (result_index append_lock_refused) = set_flags empty_index /\
     error (result_index append_lock_refused) = error empty_index).
Proof.
  apply (append_lock_discipline (test_env 1000 0 false true true true) 50
           empty_index (open two_messages 4)).
  - vm_compute. discriminate.
  - vm_compute. reflexivity.
Defined.

(** X10: over a whole append every record that is added is updated
    exactly once, each update that is begun is ended, and every header
    context that is initialised is freed, except the one of a transaction
    whose barrier failed; there is at most one such transaction, and none
    when the append succeeds. *)
Theorem append_resource_balance env fuel index inbuf index' inbuf' ok :
  mbox_index_append env fuel index inbuf = Some (index', inbuf', ok) ->
  exists evs new,
    log index' = log index ++ evs /\
    records index' = records index ++ new /\
    count is_update_begin evs = length new /\
    count is_update_end evs = length new /\
    count is_header_init evs
    = count is_header_free evs + count is_barrier_failed evs /\
    count is_barrier_failed evs <= 1 /\
    (ok = true -> count is_barrier_failed evs = 0).
Proof.
  intros Hrun.
  destruct (append_paths _ _ _ _ _ _ _ Hrun)
    as [(_ & -> & _ & _)|[(_ & _ & -> & _ & _)|(_ & _ & Hloop)]].
  - exists [], []. rewrite !app_nil_r. cbn. repeat split; auto.
  - exists [EvSetLock false], []. rewrite app_nil_r. cbn. repeat split; auto.
  - destruct (append_loop_effect _ _ _ _ _ _ _ _ Hloop)
      as (evs & new & Hlog & Hrec & Heff).
    destruct (loop_effect_counts _ _ _ _ _ Heff)
      as (_ & H2 & H3 & H4 & H5 & H6).
    exists (EvSetLock true :: evs), new.
    split; [rewrite Hlog; cbn [log emit]; now rewrite <- app_assoc|].
    split; [exact Hrec|].
    change (count is_update_begin (EvSetLock true :: evs))
      with (count is_update_begin evs).
    change (count is_update_end (EvSetLock true :: evs))
      with (count is_update_end evs).
    change (count is_header_init (EvSetLock true :: evs))
      with (count is_header_init evs).
    change (count is_header_free (EvSetLock true :: evs))
      with (count is_header_free evs).
    change (count is_barrier_failed (EvSetLock true :: evs))
      with (count is_barrier_failed evs).
    auto 10.
Qed.

Lemma append_resource_balance_witness :
  exists evs new,
    log (result_index append_barrier_fails) = log empty_index ++ evs /\
    records (result_index append_barrier_fails)
    = records empty_index ++ new /\
    count is_update_begin evs = length new /\
    count is_update_end evs = length new /\
    count is_header_init evs
    = count is_header_free evs + count is_barrier_failed evs /\
    count is_barrier_failed evs <= 1 /\
    (result_ok append_barrier_fails = true -> count is_barrier_failed evs = 0).
Proof.
  apply (append_resource_balance
           (test_env 1000 0 true true true false) 50 empty_index
           (open two_messages 4) (result_index append_barrier_fails)
           (result_inbuf append_barrier_fails)).
  vm_compute. reflexivity.
Defined.

(** X11: the result of an append tells what the trace holds: it is success
    exactly when no call into the index failed and no error was reported,
    and a run has at most one such event. *)
Theorem append_result_reflects_trace env fuel index inbuf index' inbuf' ok :
  mbox_index_append env fuel index inbuf = Some (index', inbuf', ok) ->
  exists evs,
    log index' = log index ++ evs /\
    (ok = true <-> count is_failure evs = 0 /\ count is_set_error evs = 0) /\
    count is_failure evs + count is_set_error evs <= 1.
Proof.
  intros Hrun.
  destruct (append_class _ _ _ _ _ _ _ Hrun)
    as (_ & evs & Hlog &
        [(He & _ & _ & [(-> & Hf)|(-> & Hf)])
        |(-> & Hf & He & _)]);
    exists evs; (split; [exact Hlog|]); rewrite Hf, He;
    (split; [|lia]); split;
    try (intros H; discriminate H); try (intros (H1 & H2); discriminate);
    auto.
Qed.

Lemma append_result_reflects_trace_witness :
  exists evs,
    log (result_index append_no_from) = log empty_index ++ evs /\
    (result_ok append_no_from = true <->
     count is_failure evs = 0 /\ count is_set_error evs = 0) /\
    count is_failure evs + count is_set_error evs <= 1.
Proof.
  apply (append_result_reflects_trace
           (test_env 1000 0 true true true true) 50 empty_index
           (open no_from 4) (result_index append_no_from)
           (result_inbuf append_no_from)).
  vm_compute. reflexivity.
Defined.

(** ** The stream over a whole append *)

Lemma locations_app (l1 l2 : list Event) :
  locations (l1 ++ l2) = locations l1 ++ locations l2.
Proof. apply flat_map_app. Qed.

(** One transaction leaves a good stream on the same file, under the same
    ceiling, with the cursor not before where it was; the location it
    writes lies behind the old cursor and not behind the new one. *)
Lemma append_next_stream env fuel index inbuf index' inbuf' ok :
  headers_ok env -> wf inbuf ->
  mbox_index_append_next env fuel index inbuf = Some (index', inbuf', ok) ->
  wf inbuf' /\ same_file inbuf inbuf' /\ size inbuf' = size inbuf /\
  offset inbuf <= offset inbuf' /\
  exists evs,
    log index' = log index ++ evs /\
    length (locations evs) <= 1 /\
    Forall (fun a => start_offset inbuf + offset inbuf < a
                     <= start_offset inbuf + offset inbuf')
           (locations evs).
Proof.
  intros Hh Hwf Hrun.
  destruct (append_next_run _ _ _ _ _ _ _ Hrun)
    as (_ & b0 & data & pos & Hline &
        [(_ & _ & -> & Hlog & _)
        |(Hchk & _ & _ & b2 & Hmsg & Hcases)]).
  - destruct (from_line_spec fuel inbuf b0 0 pos data Hwf (Nat.le_0_l _) Hline)
      as (Hsame & Hsize & Hoff & Hwf0 & _).
    split; [assumption|]. split; [assumption|]. split; [assumption|].
    split; [lia|]. eexists. split; [exact Hlog|]. cbn. split; [lia|constructor].
  - destruct (from_line_found fuel inbuf b0 data pos Hwf Hline Hchk)
      as (Hwf1 & Hsame1 & Hsize1 & Hoff1 & _).
    destruct (from_line_spec fuel inbuf b0 0 pos data Hwf (Nat.le_0_l _) Hline)
      as (Hsame0 & _ & Hoff0 & _).
    destruct (mbox_read_message_frame fuel _ b2 Hwf1 Hmsg)
      as (Hsame2 & Hsize2 & Hwf2 & Hrange).
    assert (Hs02 : same_file inbuf b2)
      by (eapply same_file_trans; eassumption).
    assert (Hstart : start_offset b0 = start_offset inbuf)
      by (symmetry; apply Hsame0).
    destruct Hcases
      as [(_ & -> & _ & Hlog & _)
         |(u & dg & fl & _ & Hsz & Hoff & Hbuf & Hfile & Hout)].
    + split; [assumption|]. split; [assumption|]. split; [congruence|].
      split; [lia|]. eexists. split; [exact Hlog|]. cbn.
      split; [lia|constructor].
    + specialize (Hfile Hh).
      assert (Hwf' : wf inbuf').
      { unfold wf. rewrite Hbuf, Hoff.
        rewrite <- (same_file_limit b2 inbuf' Hfile (eq_sym Hsz)).
        rewrite <- (same_file_limit _ b2 Hsame2 (eq_sym Hsize2)). lia. }
      split; [assumption|].
      split; [eapply same_file_trans; eassumption|].
      split; [congruence|]. split; [lia|].
      assert (Hloc : forall evs,
                 locations evs = [start_offset b0 + (offset b0 + (pos + 1))] ->
                 length (locations evs) <= 1 /\
                 Forall (fun a => start_offset inbuf + offset inbuf < a
                                  <= start_offset inbuf + offset inbuf')
                        (locations evs)).
      { intros evs ->. split; [cbn; lia|]. constructor; [|constructor].
        cbn [offset io_buffer_skip] in Hrange. lia. }
      destruct Hout as [(_ & Hlog & _)|[(_ & Hlog & _)|(_ & Hlog & _)]];
        (eexists; split; [exact Hlog|]); apply Hloc; reflexivity.
Qed.

Lemma skip_step_stream env (b b1 : IOBuffer) (ok : bool) :
  skip_ok env -> wf b -> skip_step env b = (b1, ok) ->
  wf b1 /\ same_file b b1 /\ size b1 = size b /\ offset b <= offset b1.
Proof.
  unfold skip_step. intros Hs Hwf E.
  destruct (negb (start_offset b + offset b =? 0)).
  - exact (Hs b b1 ok Hwf E).
  - injection E as <- <-. split; [assumption|].
    split; [apply same_file_refl|]. split; [reflexivity|lia].
Qed.

(** The loop leaves a good stream on the same file, under the same ceiling;
    the locations it writes increase and lie between the old cursor and
    the new one. *)
Lemma append_loop_stream env fuel inner index inbuf index' inbuf' ok :
  headers_ok env -> skip_ok env -> wf inbuf ->
  append_loop env fuel inner index inbuf = Some (index', inbuf', ok) ->
  wf inbuf' /\ same_file inbuf inbuf' /\ size inbuf' = size inbuf /\
  offset inbuf <= offset inbuf' /\
  exists evs,
    log index' = log index ++ evs /\
    StronglySorted lt (locations evs) /\
    Forall (fun a => start_offset inbuf + offset inbuf < a
                     <= start_offset inbuf + offset inbuf')
           (locations evs).
Proof.
  intros Hh Hs. revert index inbuf.
  induction fuel as [|fuel IH]; intros index inbuf Hwf Hrun; [discriminate|].
  cbn [append_loop] in Hrun.
  fold (skip_step env inbuf) in Hrun.
  destruct (skip_step env inbuf) as [b1 ok1] eqn:Hskip.
  destruct (skip_step_stream env inbuf b1 ok1 Hs Hwf Hskip)
    as (Hwf1 & Hsame1 & Hsize1 & Hoff1).
  destruct ok1; cbn [negb] in Hrun.
  - destruct (offset b1 =? size b1).
    + injection Hrun as <- <- <-.
      split; [assumption|]. split; [assumption|]. split; [assumption|].
      split; [assumption|]. exists []. rewrite app_nil_r.
      split; [reflexivity|]. cbn. split; constructor.
    + destruct (mbox_index_append_next env inner index b1)
        as [[[index1 b2] ok2]|] eqn:Hnext; [|discriminate].
      destruct (append_next_stream _ _ _ _ _ _ _ Hh Hwf1 Hnext)
        as (Hwf2 & Hsame2 & Hsize2 & Hoff2 & evs & Hlog & Hlen & Hloc).
      assert (Hst1 : start_offset b1 = start_offset inbuf)
        by (symmetry; apply Hsame1).
      assert (Hst2 : start_offset b2 = start_offset inbuf)
        by (rewrite <- Hst1; symmetry; apply Hsame2).
      destruct ok2.
      * destruct (IH _ _ Hwf2 Hrun)
          as (Hwf' & Hsame' & Hsize' & Hoff' & rest_ & Hlog' & Hsort & Hloc').
        split; [assumption|].
        split; [eapply same_file_trans; [eassumption|];
                eapply same_file_trans; eassumption|].
        split; [congruence|]. split; [lia|].
        exists (evs ++ rest_).
        split; [rewrite Hlog', Hlog; now rewrite app_assoc|].
        rewrite locations_app.
        assert (Hloc2 : Forall (fun a => start_offset inbuf + offset inbuf < a
                                  <= start_offset inbuf + offset inbuf')
                               (locations rest_)).
        { apply (Forall_impl _ (P := fun a =>
                    start_offset b2 + offset b2 < a
                    <= start_offset b2 + offset inbuf')); [|exact Hloc'].
          intros a Ha. lia. }
        destruct (locations evs) as [|a [|a' l]].
        -- cbn [app]. split; assumption.
        -- cbn [app]. inversion Hloc as [|x l Ha _]; subst.
           split.
           ++ constructor; [assumption|].
              apply (Forall_impl _ (P := fun a =>
                    start_offset b2 + offset b2 < a
                    <= start_offset b2 + offset inbuf')); [|exact Hloc'].
              intros c Hc. lia.
           ++ constructor; [lia|assumption].
        -- cbn in Hlen. lia.
      * injection Hrun as <- <- <-.
        split; [assumption|].
        split; [eapply same_file_trans; eassumption|].
        split; [congruence|]. split; [lia|].
        exists evs. split; [assumption|].
        split.
        -- destruct (locations evs) as [|a [|a' l]].
           ++ constructor.
           ++ repeat constructor.
           ++ cbn in Hlen. lia.
        -- apply (Forall_impl _ (P := fun a =>
                    start_offset b1 + offset b1 < a
                    <= start_offset b1 + offset b2)); [|exact Hloc].
           intros a Ha. lia.
  - injection Hrun as <- <- <-.
    split; [assumption|]. split; [assumption|]. split; [assumption|].
    split; [assumption|]. eexists. split; [reflexivity|].
    cbn. split; constructor.
Qed.

(** X12: with a header parser that leaves the file alone and a terminator
    skipper that only moves forward, an append on a good stream returns
    whenever the fuel exceeds the length of the stream; the stream it
    returns is good, on the same file and under the same ceiling, with the
    cursor not before where it was and not behind the end. *)
Theorem append_returns_in_frame env fuel index inbuf :
  headers_ok env -> skip_ok env -> wf inbuf -> limit inbuf + 1 < fuel ->
  exists index' inbuf' ok,
    mbox_index_append env fuel index inbuf = Some (index', inbuf', ok) /\
    wf inbuf' /\ same_file inbuf inbuf' /\ size inbuf' = size inbuf /\
    offset inbuf <= offset inbuf' <= limit inbuf.
Proof.
  intros Hh Hs Hwf Hfuel.
  destruct (mbox_index_append_total env fuel index inbuf Hh Hs Hwf Hfuel)
    as ([[index' inbuf'] ok] & Hrun).
  exists index', inbuf', ok. split; [exact Hrun|].
  assert (Hframe : wf inbuf' /\ same_file inbuf inbuf' /\
                   size inbuf' = size inbuf /\ offset inbuf <= offset inbuf').
  { destruct (append_paths _ _ _ _ _ _ _ Hrun)
      as [(_ & _ & -> & _)|[(_ & _ & _ & -> & _)|(_ & _ & Hloop)]].
    - split; [assumption|]. split; [apply same_file_refl|]. split; auto.
    - split; [assumption|]. split; [apply same_file_refl|]. split; auto.
    - destruct (append_loop_stream _ _ _ _ _ _ _ _ Hh Hs Hwf Hloop)
        as (H1 & H2 & H3 & H4 & _). auto. }
  destruct Hframe as (Hwf' & Hsame & Hsize & Hoff).
  split; [assumption|]. split; [assumption|]. split; [assumption|].
  split; [assumption|].
  rewrite (same_file_limit inbuf inbuf' Hsame (eq_sym Hsize)).
  unfold wf in Hwf'. lia.
Qed.

Lemma append_returns_in_frame_witness :
  exists index' inbuf' ok,
    mbox_index_append (test_env 1000 0 true true true true) 50
                      empty_index (open two_messages 4)
    = Some (index', inbuf', ok) /\
    wf inbuf' /\ same_file (open two_messages 4) inbuf' /\
    size inbuf' = size (open two_messages 4) /\
    offset (open two_messages 4) <= offset inbuf'
    <= limit (open two_messages 4).
Proof.
  apply (append_returns_in_frame (test_env 1000 0 true true true true) 50
           empty_index (open two_messages 4)).
  - exact (proj1 (test_env_ok 1000 0 true true true true)).
  - exact (proj2 (test_env_ok 1000 0 true true true true)).
  - unfold wf. vm_compute. lia.
  - vm_compute. lia.
Defined.

(** X13: the locations that an append writes increase strictly along the
    trace, so the records are added in the order of the file, and each
    lies behind the cursor the append started from and not behind the one
    it returns. *)
Theorem append_locations_increase env fuel index inbuf index' inbuf' ok :
  headers_ok env -> skip_ok env -> wf inbuf ->
  mbox_index_append env fuel index inbuf = Some (index', inbuf', ok) ->
  exists evs,
    log index' = log index ++ evs /\
    StronglySorted lt (locations evs) /\
    Forall (fun a => start_offset inbuf + offset inbuf < a
                     <= start_offset inbuf + offset inbuf')
           (locations evs).
Proof.
  intros Hh Hs Hwf Hrun.
  destruct (append_paths _ _ _ _ _ _ _ Hrun)
    as [(_ & -> & _ & _)|[(_ & _ & -> & _ & _)|(_ & _ & Hloop)]].
  - exists []. rewrite app_nil_r. split; [reflexivity|]. cbn. split; constructor.
  - exists [EvSetLock false]. split; [reflexivity|]. cbn. split; constructor.
  - destruct (append_loop_stream _ _ _ _ _ _ _ _ Hh Hs Hwf Hloop)
      as (_ & _ & _ & _ & evs & Hlog & Hsort & Hloc).
    exists (EvSetLock true :: evs).
    split; [rewrite Hlog; cbn [log emit]; now rewrite <- app_assoc|].
    change (locations (EvSetLock true :: evs)) with (locations evs).
    split; assumption.
Qed.

Lemma append_locations_increase_witness :
  exists evs,
    log (result_index append_good) = log empty_index ++ evs /\
    StronglySorted lt (locations evs) /\
    Forall (fun a => 0 + 0 < a <= 0 + offset (result_inbuf append_good))
           (locations evs).
Proof.
  apply (append_locations_increase
           (test_env 1000 0 true true true true) 50 empty_index
           (open two_messages 4) (result_index append_good)
           (result_inbuf append_good) (result_ok append_good)).
  - exact (proj1 (test_env_ok 1000 0 true true true true)).
  - exact (proj2 (test_env_ok 1000 0 true true true true)).
  - unfold wf. vm_compute. lia.
  - vm_compute. reflexivity.
Defined.



(** ** The From-line check on the bytes of the stream *)

Lemma first_lf_some (l : list ascii) (p : nat) :
  first_lf l = Some p ->
  p < length l /\ at_ l p = LF /\ forall k, k < p -> at_ l k <> LF.
Proof.
  revert p. induction l as [|c l IH]; intros p H; [discriminate|].
  cbn [first_lf] in H. destruct (c =? LF)%char eqn:E.
  - injection H as <-. apply Ascii.eqb_eq in E.
    split; [cbn; lia|]. split; [exact E|]. intros k Hk. lia.
  - destruct (first_lf l) as [q|]; [|discriminate]. injection H as <-.
    destruct (IH q eq_refl) as (H1 & H2 & H3).
    split; [cbn; lia|]. split; [exact H2|].
    intros [|k] Hk; [now apply Ascii.eqb_neq|]. apply H3. lia.
Qed.

Lemma first_lf_unique (l : list ascii) (p : nat) :
  p < length l -> at_ l p = LF -> (forall k, k < p -> at_ l k <> LF) ->
  first_lf l = Some p.
Proof.
  revert p. induction l as [|c l IH]; intros p Hp Hlf Hfirst; [cbn in Hp; lia|].
  cbn [first_lf]. destruct p as [|p].
  - unfold at_ in Hlf. cbn in Hlf. apply Ascii.eqb_eq in Hlf. now rewrite Hlf.
  - assert (E : (c =? LF)%char = false)
      by (apply Ascii.eqb_neq; apply (Hfirst 0); lia).
    rewrite E. rewrite (IH p); [reflexivity| cbn in Hp; lia | exact Hlf |].
    intros k Hk. apply (Hfirst (S k)). lia.
Qed.

Lemma from_prefix_no_lf (l : list ascii) (k : nat) :
  prefixb (bytes "From ") l = true -> k < 5 -> at_ l k <> LF.
Proof.
  intros H Hk. apply prefixb_firstn in H.
  change (length (bytes "From ")) with 5 in H.
  rewrite <- (at_firstn l 5 k Hk), H.
  do 5 (destruct k as [|k]; [vm_compute; discriminate|]). lia.
Qed.

Lemma read_data_cap (b : IOBuffer) (t : nat) :
  buffered b <= max_buffer_size b ->
  buffered (fst (io_buffer_read_data b t)) <= max_buffer_size b.
Proof.
  intros H. unfold io_buffer_read_data.
  destruct (buffered b <=? t); [|exact H].
  destruct (_ =? 0); [exact H|]. cbn. lia.
Qed.

(** When the From-line loop is refused a read, the buffer holds no LF and
    is full or has reached the end of the stream. *)
Lemma from_line_reach (fuel : nat) (b b0 : IOBuffer) (pos p : nat)
      (data : list ascii) :
  wf b -> pos <= buffered b -> buffered b <= max_buffer_size b ->
  0 < max_read b ->
  (forall k, k < pos -> at_ (file b) (offset b + k) <> LF) ->
  from_line fuel b pos = Some (b0, data, p) ->
  buffered b0 <= max_buffer_size b /\
  (length data <= p ->
   (offset b + buffered b0 = limit b \/ max_buffer_size b <= buffered b0) /\
   forall k, k < buffered b0 -> at_ (file b) (offset b + k) <> LF).
Proof.
  revert b pos.
  induction fuel as [|fuel IH]; intros b pos Hwf Hpos Hcap Hread Hbefore Hrun.
  - discriminate.
  - simpl in Hrun. pose proof (read_data_cap b pos Hcap) as Hcap'.
    destruct (read_data_cases _ pos Hwf)
      as [(Hrd & Hth & Hwhy)
         | (buf' & Hrd & Hsame & Hsize & Hoff & Hwf' & Hmono & Hkeep & Hgrow)];
      rewrite Hrd in Hrun; rewrite Hrd in Hcap'; cbn [fst] in Hcap'.
    + injection Hrun as <- <- <-. split; [assumption|]. intros _.
      split; [lia|]. intros k Hk. apply Hbefore. lia.
    + pose proof (get_data_length _ Hwf') as Hlen.
      assert (Hf : file buf' = file b) by (symmetry; apply Hsame).
      assert (Hc : max_buffer_size buf' = max_buffer_size b)
        by (symmetry; apply Hsame).
      assert (Hr : max_read buf' = max_read b) by (symmetry; apply Hsame).
      set (q := find_lf (io_buffer_get_data buf')
                        (length (io_buffer_get_data buf') - pos) pos) in *.
      destruct (find_lf_spec (io_buffer_get_data buf')
                             (length (io_buffer_get_data buf') - pos) pos)
        as (Hq & Hlf). fold q in Hq, Hlf.
      destruct (q <? length (io_buffer_get_data buf')) eqn:Elt.
      * apply Nat.ltb_lt in Elt. injection Hrun as <- <- <-.
        split; [assumption|]. intros Hle. lia.
      * apply Nat.ltb_ge in Elt.
        assert (Hq' : q <= buffered buf') by lia.
        assert (Hnew : forall k, k < q ->
                  at_ (file buf') (offset buf' + k) <> LF).
        { intros k Hk. rewrite Hf, Hoff.
          destruct (Nat.lt_ge_cases k pos) as [Hlt|Hge].
          - now apply Hbefore.
          - rewrite <- Hf, <- Hoff, <- get_data_at by lia.
            apply find_lf_first
              with (todo := length (io_buffer_get_data buf') - pos)
                   (pos := pos).
            fold q. lia. }
        destruct (IH buf' q Hwf' Hq' ltac:(lia) ltac:(lia) Hnew Hrun)
          as (H1 & H2).
        rewrite Hc in H1, H2. rewrite Hf, Hoff in H2.
        rewrite <- (same_file_limit b buf' Hsame (eq_sym Hsize)) in H2.
        split; assumption.
Qed.

(** The check of line 103 fails exactly when the unread bytes do not start
    with a From-line within reach. *)
Lemma from_line_check_reach (fuel : nat) (b b0 : IOBuffer) (pos : nat)
      (data : list ascii) :
  wf b -> buffered b <= max_buffer_size b -> 0 < max_read b ->
  from_line fuel b 0 = Some (b0, data, pos) ->
  no_from_line data pos = negb (from_line_in_reach b).
Proof.
  intros Hwf Hcap Hread Hline.
  destruct (from_line_spec fuel b b0 0 pos data Hwf (Nat.le_0_l _) Hline)
    as (Hsame & Hsize & Hoff & Hwf0 & _ & Hdata).
  destruct (from_line_reach fuel b b0 0 pos data Hwf (Nat.le_0_l _) Hcap Hread
              ltac:(intros k Hk; lia) Hline) as (Hcap0 & Hrefused).
  pose proof (limit_length b) as HL.
  pose proof Hwf0 as Hwf0'. unfold wf in Hwf0'.
  rewrite <- (same_file_limit b b0 Hsame (eq_sym Hsize)), Hoff in Hwf0'.
  assert (Hrl : length (rest b) = limit b - offset b)
    by (unfold rest; now apply seg_length).
  assert (Hat : forall k, offset b + k < limit b ->
                  at_ (rest b) k = at_ (file b) (offset b + k))
    by (intros k Hk; unfold rest; now apply at_seg).
  unfold from_line_in_reach.
  destruct (Nat.lt_ge_cases pos (length data)) as [Hfound|Hnot].
  - destruct Hdata as [Hnil|(Hd & Hp & Hlf)];
      [rewrite Hnil in Hfound; cbn in Hfound; lia|].
    destruct (from_line_first fuel b b0 0 pos data Hwf (Nat.le_0_l _)
                ltac:(intros k Hk; lia) Hline Hfound) as (Hlf' & Hfirst).
    assert (Hlen : length data = buffered b0)
      by (rewrite Hd; now apply get_data_length).
    rewrite (first_lf_unique (rest b) pos);
      [|lia|rewrite Hat by lia; exact Hlf'
       |intros k Hk; rewrite Hat by lia; now apply Hfirst].
    replace (pos <? max_buffer_size b) with true
      by (symmetry; apply Nat.ltb_lt; lia).
    cbn [andb]. unfold no_from_line.
    replace (pos =? length data) with false
      by (symmetry; apply Nat.eqb_neq; lia).
    cbn [orb]. destruct (length data <=? 5) eqn:E5.
    + apply Nat.leb_le in E5. cbn [orb].
      destruct (prefixb (bytes "From ") (rest b)) eqn:Ep; [|reflexivity].
      exfalso. apply (from_prefix_no_lf (rest b) pos Ep); [lia|].
      rewrite Hat by lia. exact Hlf'.
    + apply Nat.leb_gt in E5. cbn [orb]. f_equal.
      assert (Hfive : firstn 5 data = firstn 5 (rest b)).
      { unfold rest.
        rewrite (seg_app (file b) (offset b) (offset b + buffered b0) (limit b))
          by lia.
        rewrite firstn_app.
        assert (Hseg : seg (file b) (offset b) (offset b + buffered b0) = data).
        { rewrite Hd, get_data_seg, Hoff.
          now replace (file b0) with (file b) by apply Hsame. }
        rewrite Hseg.
        replace (5 - length data) with 0 by lia.
        cbn [firstn]. now rewrite app_nil_r. }
      destruct (is_from data) eqn:Ei.
      * apply (is_from_firstn data E5) in Ei. symmetry.
        apply prefixb_firstn. change (length (bytes "From ")) with 5.
        now rewrite <- Hfive.
      * destruct (prefixb (bytes "From ") (rest b)) eqn:Ep; [|reflexivity].
        apply prefixb_firstn in Ep. change (length (bytes "From ")) with 5 in Ep.
        rewrite <- Hfive in Ep. apply (is_from_firstn data E5) in Ep.
        congruence.
  - destruct (Hrefused Hnot) as (Hwhy & Hnone).
    assert (Hno : no_from_line data pos = true).
    { destruct Hdata as [->|(Hd & Hp & _)]; [apply no_from_line_nil|].
      rewrite Hd, get_data_length in Hnot by assumption. lia. }
    rewrite Hno.
    destruct (first_lf (rest b)) as [p|] eqn:Ef; [|reflexivity].
    destruct (first_lf_some _ _ Ef) as (Hp & Hlf & _).
    rewrite Hat in Hlf by lia.
    destruct (Nat.lt_ge_cases p (buffered b0)) as [Hin|Hout].
    + exfalso. exact (Hnone p Hin Hlf).
    + replace (p <? max_buffer_size b) with false
        by (symmetry; apply Nat.ltb_ge; lia).
      reflexivity.
Qed.

(** X15: whether a transaction reports the From-line error is decided by
    the unread bytes and the capacity of the buffer alone: it does not
    when they start with "From " and their first LF lies within the
    capacity, and it does, with nothing else in its trace, in every other
    case: no LF, a line longer than the buffer, or other first bytes. *)
Theorem from_line_check_on_bytes env fuel index inbuf :
  wf inbuf -> 0 < max_read inbuf ->
  buffered inbuf <= max_buffer_size inbuf ->
  unread inbuf + 1 < fuel ->
  exists index' inbuf' ok evs,
    mbox_index_append_next env fuel index inbuf = Some (index', inbuf', ok) /\
    log index' = log index ++ evs /\
    (from_line_in_reach inbuf = true -> count is_set_error evs = 0) /\
    (from_line_in_reach inbuf = false ->
     evs = [EvSetError (from_line_error index)] /\ ok = false).
Proof.
  intros Hwf Hread Hcap Hfuel.
  destruct (append_next_total env fuel index inbuf Hwf Hfuel)
    as ([[index' inbuf'] ok] & Hrun).
  exists index', inbuf', ok.
  destruct (append_next_class _ _ _ _ _ _ _ Hrun)
    as (_ & b0 & data & pos & evs & Hline & Hlog & Hcases).
  exists evs. split; [exact Hrun|]. split; [exact Hlog|].
  pose proof (from_line_check_reach fuel inbuf b0 pos data Hwf Hcap Hread Hline)
    as Hchk.
  destruct Hcases as [(Hno & Hc & _)|(Hno & -> & -> & _)];
    rewrite Hno in Hchk; destruct (from_line_in_reach inbuf);
    try discriminate Hchk; split; intros H; try discriminate H; auto.
Qed.

Lemma from_line_check_on_bytes_witness :
  exists index' inbuf' ok evs,
    mbox_index_append_next (test_env 1000 0 true true true true) 50
                           empty_index (open no_from 4)
    = Some (index', inbuf', ok) /\
    log index' = log empty_index ++ evs /\
    (from_line_in_reach (open no_from 4) = true ->
     count is_set_error evs = 0) /\
    (from_line_in_reach (open no_from 4) = false ->
     evs = [EvSetError (from_line_error empty_index)] /\ ok = false).
Proof.
  apply (from_line_check_on_bytes (test_env 1000 0 true true true true) 50
           empty_index (open no_from 4)).
  - unfold wf. vm_compute. lia.
  - vm_compute. lia.
  - vm_compute. lia.
  - vm_compute. lia.
Defined.

(** A first line longer than the buffer fails the check although the bytes
    are a From-line; within the capacity the same bytes pass. *)
Example from_line_too_long :
  from_line_in_reach (mkIOBuffer two_messages 0 0 31 0 8 4) = false /\
  from_line_in_reach (mkIOBuffer two_messages 0 0 31 0 9 4) = true.
Proof. vm_compute. split; reflexivity. Qed.

(** * The outcome of a transaction, by the answers of the index *)

(** The update of lines 130-173 asks for the commit with the trace up to
    the digest and, when that is granted, for the barrier with the trace up
    to the flag changes; its result is what these two answer. *)
Lemma update_message_answers env index inbuf rec u a s index' inbuf' ok :
  update_message env index inbuf rec u a s = (index', inbuf', ok) ->
  exists dg fl,
    let begun :=
      [EvUpdateBegin rec; EvUpdateFieldRaw FIELD_TYPE_LOCATION (RawOffset a);
       EvHeaderInit; EvUpdateHeaders;
       EvUpdateFieldRaw FIELD_TYPE_MD5 (RawBytes dg)] in
    if update_end env (log index ++ begun) then
      if mail_index_fmsync env (log index ++ begun ++ tx_committed rec fl) then
        ok = true /\
        log index' = log index ++ begun ++ tx_committed rec fl ++
                     [EvFmsync true; EvStoreUid rec u; EvHeaderFree] /\
        records index' =
        update_rec (records index) rec
          (fun r => mkRecord u fl (internal_date r))
      else
        ok = false /\
        log index' = log index ++ begun ++ tx_committed rec fl ++
                     [EvFmsync false] /\
        records index' =
        update_rec (records index) rec
          (fun r => mkRecord (uid r) fl (internal_date r))
    else
      ok = false /\
      log index' = log index ++ begun ++ [EvUpdateEnd false; EvHeaderFree] /\
      records index' = records index.
Proof.
  unfold update_message.
  destruct (mail_index_update_headers env _ _) as (hbuf & ctx).
  intros E. exists (md5 ctx), (flags ctx). cbv zeta. revert E.
  unfold tx_committed.
  cbn [emit log mbox_path set_flags error records store_flags store_uid].
  repeat rewrite <- app_assoc. cbn [app].
  destruct (update_end env _); cbn [negb].
  - destruct (mail_index_fmsync env _); cbn [negb];
      intros E; injection E as <- <- <-;
      cbn; repeat rewrite <- app_assoc; cbn [app].
    + split; [reflexivity|]. split; [reflexivity|]. apply update_rec_twice.
    + split; [reflexivity|]. split; reflexivity.
  - intros E; injection E as <- <- <-.
    cbn; repeat rewrite <- app_assoc; cbn [app].
    split; [reflexivity|]. split; reflexivity.
Qed.

(** A transaction whose From-line passes the check returns what
    allocation, commit and barrier answer, and nothing else decides its
    result. *)
Lemma append_next_answers env fuel index inbuf b0 data pos b2 :
  from_line fuel inbuf 0 = Some (b0, data, pos) ->
  no_from_line data pos = false ->
  mbox_read_message fuel (io_buffer_skip b0 (pos + 1)) = Some b2 ->
  exists index' inbuf' ok,
    mbox_index_append_next env fuel index inbuf = Some (index', inbuf', ok) /\
    let d := from_line_date env data in
    let rec := length (records index) in
    match append env (log index) d with
    | None =>
        ok = false /\ log index' = log index ++ [EvAppend d None] /\
        records index' = records index
    | Some u =>
        exists a dg fl,
          if update_end env (log index ++ tx_open rec d u a dg) then
            if mail_index_fmsync env (log index ++ tx_open rec d u a dg ++
                                      tx_committed rec fl) then
              ok = true /\
              log index' = log index ++ tx_open rec d u a dg ++
                           tx_committed rec fl ++
                           [EvFmsync true; EvStoreUid rec u; EvHeaderFree] /\
              records index' = records index ++ [mkRecord u fl d]
            else
              ok = false /\
              log index' = log index ++ tx_open rec d u a dg ++
                           tx_committed rec fl ++ [EvFmsync false] /\
              records index' = records index ++ [mkRecord 0 fl d]
          else
            ok = false /\
            log index' = log index ++ tx_open rec d u a dg ++
                         [EvUpdateEnd false; EvHeaderFree] /\
            records index' = records index ++ [mkRecord 0 0 d]
    end.
Proof.
  intros Hline Hchk Hmsg. unfold mbox_index_append_next.
  rewrite Hline, Hchk, Hmsg. unfold mail_index_record_append. cbv zeta.
  destruct (append env (log index) (from_line_date env data)) as [u|].
  - destruct (update_message env _ b2 (length (records index)) u _ _)
      as [[index' inbuf'] ok] eqn:E.
    apply update_message_answers in E. destruct E as (dg & fl & E).
    cbv zeta in E.
    cbn [emit log mbox_path set_flags error records] in E.
    rewrite !update_rec_snoc in E. cbn [uid msg_flags internal_date] in E.
    unfold tx_committed in E.
    repeat rewrite <- app_assoc in E. cbn [app] in E.
    exists index', inbuf', ok. split; [reflexivity|].
    eexists. exists dg, fl. unfold tx_open, tx_committed. cbn [app].
    exact E.
  - exists (emit (EvAppend (from_line_date env data) None) index), b2, false.
    split; [reflexivity|]. split; [reflexivity|].
    split; reflexivity.
Qed.

(** C7: a From-line in which the separator parser recognises no date (it
    answers no positive time) does not make the transaction fail.  The
    transaction returns, reports nothing and leaves the flag alone; it asks
    the index for a record with [ioloop_time] as its date and goes on as
    for any message: it begins the update and asks for the commit, and if
    that is granted for the barrier.  Its result is TRUE whenever
    allocation, commit and barrier are granted, and the record then
    carries [ioloop_time] and its identity; it is FALSE only when one of
    the three is refused. *)
Theorem unknown_date_is_now env fuel index inbuf b0 data pos :
  wf inbuf -> unread inbuf + 1 < fuel ->
  from_line fuel inbuf 0 = Some (b0, data, pos) ->
  no_from_line data pos = false ->
  (mbox_from_parse_date env data <= 0)%Z ->
  exists index' inbuf' ok,
    mbox_index_append_next env fuel index inbuf = Some (index', inbuf', ok) /\
    set_flags index' = set_flags index /\ error index' = error index /\
    let now := ioloop_time env in
    let rec := length (records index) in
    match append env (log index) now with
    | None =>
        ok = false /\ log index' = log index ++ [EvAppend now None] /\
        records index' = records index
    | Some u =>
        exists a dg fl,
          if update_end env (log index ++ tx_open rec now u a dg) then
            if mail_index_fmsync env (log index ++ tx_open rec now u a dg ++
                                      tx_committed rec fl) then
              ok = true /\
              log index' = log index ++ tx_open rec now u a dg ++
                           tx_committed rec fl ++
                           [EvFmsync true; EvStoreUid rec u; EvHeaderFree] /\
              records index' = records index ++ [mkRecord u fl now]
            else
              ok = false /\
              log index' = log index ++ tx_open rec now u a dg ++
                           tx_committed rec fl ++ [EvFmsync false] /\
              records index' = records index ++ [mkRecord 0 fl now]
          else
            ok = false /\
            log index' = log index ++ tx_open rec now u a dg ++
                         [EvUpdateEnd false; EvHeaderFree] /\
            records index' = records index ++ [mkRecord 0 0 now]
    end.
Proof.
  intros Hwf Hfuel Hline Hchk Hdate.
  assert (E : from_line_date env data = ioloop_time env).
  { unfold from_line_date. apply Z.leb_le in Hdate. now rewrite Hdate. }
  destruct (from_line_found fuel inbuf b0 data pos Hwf Hline Hchk)
    as (Hwf1 & _ & _ & _ & Hun & _).
  destruct (read_message_returns fuel (io_buffer_skip b0 (pos + 1)) Hwf1
              ltac:(lia)) as (b2 & Hmsg).
  destruct (append_next_answers env fuel index inbuf b0 data pos b2
              Hline Hchk Hmsg) as (index' & inbuf' & ok & Hrun & Hout).
  cbv zeta in Hout. rewrite E in Hout.
  exists index', inbuf', ok. split; [exact Hrun|].
  destruct (append_next_class _ _ _ _ _ _ _ Hrun)
    as (_ & b0' & data' & pos' & evs & Hline' & _ & Hcases).
  rewrite Hline in Hline'. injection Hline' as <- <- <-.
  destruct Hcases as [(_ & _ & Hfl & Herr & _)|(Hno & _)];
    [|congruence].
  split; [exact Hfl|]. split; [exact Herr|]. exact Hout.
Qed.

Lemma unknown_date_is_now_witness :
  exists index' inbuf' ok,
    mbox_index_append_next (test_env 1000 0 true true true true) 50
                           empty_index (open two_messages 4)
    = Some (index', inbuf', ok) /\
    set_flags index' = set_flags empty_index /\
    error index' = error empty_index /\
    let now := ioloop_time (test_env 1000 0 true true true true) in
    let rec := length (records empty_index) in
    match append (test_env 1000 0 true true true true)
                 (log empty_index) now with
    | None =>
        ok = false /\ log index' = log empty_index ++ [EvAppend now None] /\
        records index' = records empty_index
    | Some u =>
        exists a dg fl,
          if update_end (test_env 1000 0 true true true true)
                        (log empty_index ++ tx_open rec now u a dg) then
            if mail_index_fmsync (test_env 1000 0 true true true true)
                 (log empty_index ++ tx_open rec now u a dg ++
                  tx_committed rec fl) then
              ok = true /\
              log index' = log empty_index ++ tx_open rec now u a dg ++
                           tx_committed rec fl ++
                           [EvFmsync true; EvStoreUid rec u; EvHeaderFree] /\
              records index' = records empty_index ++ [mkRecord u fl now]
            else
              ok = false /\
              log index' = log empty_index ++ tx_open rec now u a dg ++
                           tx_committed rec fl ++ [EvFmsync false] /\
              records index' = records empty_index ++ [mkRecord 0 fl now]
          else
            ok = false /\
            log index' = log empty_index ++ tx_open rec now u a dg ++
                         [EvUpdateEnd false; EvHeaderFree] /\
            records index' = records empty_index ++ [mkRecord 0 0 now]
    end.
Proof.
  apply (unknown_date_is_now (test_env 1000 0 true true true true) 50
           empty_index (open two_messages 4) first_line_buf first_line 8).
  - unfold wf. vm_compute. lia.
  - vm_compute. lia.
  - vm_compute. reflexivity.
  - vm_compute. reflexivity.
  - cbn. lia.
Defined.

(** With an index that grants everything the message with the unknown date
    is indexed: the result is TRUE and the record has the current time and
    the identity it was given. *)
Example unknown_date_indexed :
  result_ok tx_good = true /\
  records (result_index tx_good) = [mkRecord 1 1 1000].
Proof. vm_compute. split; reflexivity. Qed.

(** * The last message that ends in a lone CR *)

(** C4: on the last message "Body2" followed by a CR without LF the code
    departs from the trimming rule.  The scanner finds no separator and one
    unread trailing byte remains; no LF ends the stream, so the rule,
    [spec_body_trim], trims nothing and the body keeps its CR.  Lines 71-72
    test for the CR whether or not line 70 removed an LF: the cursor stops
    at 5 and the body is "Body2", without the CR.  With the line terminator
    LF or CR LF behind the same body the code and the rule agree. *)
Theorem lone_cr_is_trimmed :
  (exists b1 sp b',
     read_loop 20 (open lone_cr 4) 0 = Some (b1, sp, true) /\
     mbox_read_message 20 (open lone_cr 4) = Some b' /\
     offset b' = 5 /\
     seg lone_cr 0 (offset b') = bytes "Body2") /\
  spec_body_trim (rest (open lone_cr 4)) = bytes "Body2" ++ [CR] /\
  (exists b',
     mbox_read_message 20 (open (bytes "Body2" ++ [LF]) 4) = Some b' /\
     seg (bytes "Body2" ++ [LF]) 0 (offset b')
     = spec_body_trim (rest (open (bytes "Body2" ++ [LF]) 4))) /\
  (exists b',
     mbox_read_message 20 (open (bytes "Body2" ++ [CR; LF]) 4) = Some b' /\
     seg (bytes "Body2" ++ [CR; LF]) 0 (offset b')
     = spec_body_trim (rest (open (bytes "Body2" ++ [CR; LF]) 4))).
Proof.
  split; [|split; [|split]].
  - vm_compute. eexists. eexists. eexists.
    split; [reflexivity|]. split; [reflexivity|]. split; reflexivity.
  - vm_compute. reflexivity.
  - vm_compute. eexists. split; reflexivity.
  - vm_compute. eexists. split; reflexivity.
Qed.

(** * The flag and the violations on the stream of the append *)

Lemma skip_step_found env (b b1 : IOBuffer) :
  skip_step env b = (b1, true) -> ~ lf_missing env b.
Proof.
  unfold skip_step, lf_missing. intros E (Hne & Hsnd).
  apply Nat.eqb_neq in Hne. rewrite Hne in E. cbn [negb] in E.
  rewrite E in Hsnd. discriminate Hsnd.
Qed.

Lemma skip_step_missing env (b b1 : IOBuffer) :
  skip_step env b = (b1, false) -> lf_missing env b.
Proof.
  unfold skip_step, lf_missing. intros E.
  destruct (start_offset b + offset b =? 0) eqn:E0; cbn [negb] in E.
  - discriminate E.
  - split; [now apply Nat.eqb_neq|]. now rewrite E.
Qed.

(** A turn that skips the line terminator and then finds the end of the
    stream, or a From-line that passes the check, meets no violation. *)
Lemma no_violation_here env fuel (b b1 : IOBuffer) :
  skip_step env b = (b1, true) ->
  (offset b1 = size b1 \/
   exists b0 data pos,
     from_line fuel b1 0 = Some (b0, data, pos) /\
     no_from_line data pos = false) ->
  ~ (lf_missing env b \/ from_line_missing env fuel b).
Proof.
  intros Hskip Hwhy [Hlf|(b1' & b0' & data' & pos' & Hskip' & Hne & Hline' & Hbad)].
  - exact (skip_step_found env b b1 Hskip Hlf).
  - rewrite Hskip in Hskip'. injection Hskip' as <-.
    destruct Hwhy as [Hend|(b0 & data & pos & Hline & Hchk)];
      [contradiction|].
    rewrite Hline in Hline'. injection Hline' as <- <- <-.
    apply no_from_line_iff in Hbad. congruence.
Qed.

(** The loop reports an error exactly when one of its turns meets a
    violation on the stream it has reached, and the error says which. *)
Lemma append_loop_violation env n fuel index inbuf index' inbuf' ok :
  append_loop env n fuel index inbuf = Some (index', inbuf', ok) ->
  (count is_set_error (log index') = count is_set_error (log index) + 1 ->
   exists index1 b,
     turns env fuel index inbuf index1 b /\
     ((error index' = Some (from_line_error index) /\
       from_line_missing env fuel b) \/
      (error index' = Some (lf_error index) /\ lf_missing env b))) /\
  ((exists index1 b,
      turns env fuel index inbuf index1 b /\
      (lf_missing env b \/ from_line_missing env fuel b)) ->
   count is_set_error (log index') = count is_set_error (log index) + 1).
Proof.
  revert index inbuf.
  induction n as [|n IH]; intros index inbuf Hrun; [discriminate|].
  cbn [append_loop] in Hrun. fold (skip_step env inbuf) in Hrun.
  destruct (skip_step env inbuf) as [b1 ok1] eqn:Hskip.
  destruct ok1; cbn [negb] in Hrun.
  - destruct (offset b1 =? size b1) eqn:Eend.
    + apply Nat.eqb_eq in Eend. injection Hrun as <- <- <-.
      split; [lia|]. intros (index1 & b & Ht & Hv). exfalso.
      inversion Ht; subst.
      * exact (no_violation_here env fuel b b1 Hskip (or_introl Eend) Hv).
      * match goal with
        | H : skip_step env inbuf = (?x, true) |- _ =>
            rewrite Hskip in H; injection H as <-
        end. contradiction.
    + apply Nat.eqb_neq in Eend.
      destruct (mbox_index_append_next env fuel index b1)
        as [[[index1 b2] ok2]|] eqn:Hnext; [|discriminate].
      destruct (append_next_class _ _ _ _ _ _ _ Hnext)
        as (Hpath & b0 & data & pos & evs & Hline & Hlog & Hcases).
      assert (Hfe : from_line_error index1 = from_line_error index)
        by (unfold from_line_error; now rewrite Hpath).
      assert (Hle : lf_error index1 = lf_error index)
        by (unfold lf_error; now rewrite Hpath).
      destruct ok2.
      * destruct Hcases as [(Hchk & Hcount & _)|(_ & Hok & _)];
          [|discriminate Hok].
        assert (Hc : count is_set_error (log index1)
                     = count is_set_error (log index))
          by (rewrite Hlog, count_app; lia).
        destruct (IH _ _ Hrun) as (IH1 & IH2).
        rewrite Hc, Hfe, Hle in IH1. rewrite Hc in IH2. split.
        -- intros Hinc. destruct (IH1 Hinc) as (index2 & b & Ht & Hkind).
           exists index2, b. split; [|exact Hkind].
           exact (turns_next env fuel index inbuf b1 index1 b2 index2 b
                             Hskip Eend Hnext Ht).
        -- intros (index2 & b & Ht & Hv). apply IH2.
           inversion Ht; subst.
           ++ exfalso.
              apply (no_violation_here env fuel b b1 Hskip); [|exact Hv].
              right. exists b0, data, pos. auto.
           ++ match goal with
              | H : skip_step env inbuf = (?x, true) |- _ =>
                  rewrite Hskip in H; injection H as <-
              end.
              match goal with
              | H : mbox_index_append_next env fuel index b1 = Some _ |- _ =>
                  rewrite Hnext in H; injection H as <- <-
              end.
              exists index2, b. auto.
      * injection Hrun as <- <- <-.
        destruct Hcases as [(Hchk & Hcount & _)|(Hchk & _ & -> & _ & Herr)].
        -- assert (Hc : count is_set_error (log index1)
                        = count is_set_error (log index))
             by (rewrite Hlog, count_app; lia).
           split; [lia|]. intros (index2 & b & Ht & Hv). exfalso.
           inversion Ht; subst.
           ++ apply (no_violation_here env fuel b b1 Hskip); [|exact Hv].
              right. exists b0, data, pos. auto.
           ++ match goal with
              | H : skip_step env inbuf = (?x, true) |- _ =>
                  rewrite Hskip in H; injection H as <-
              end.
              match goal with
              | H : mbox_index_append_next env fuel index b1 = Some _ |- _ =>
                  rewrite Hnext in H; discriminate H
              end.
        -- assert (Hc : count is_set_error (log index1)
                        = count is_set_error (log index) + 1)
             by (rewrite Hlog, count_app; reflexivity).
           split; [|intros _; exact Hc]. intros _.
           exists index, inbuf. split; [constructor|]. left.
           split; [exact Herr|]. exists b1, b0, data, pos.
           split; [exact Hskip|]. split; [exact Eend|].
           split; [exact Hline|]. now apply no_from_line_iff.
  - injection Hrun as <- <- <-.
    assert (Hc : count is_set_error
                   (log (or_set_flags (index_set_error index (lf_error index))
                                      (MAIL_INDEX_FLAG_FSCK env)))
                 = count is_set_error (log index) + 1)
      by (cbn [log or_set_flags index_set_error emit];
          rewrite count_app; reflexivity).
    split; [|intros _; exact Hc]. intros _.
    exists index, inbuf. split; [constructor|]. right.
    split; [reflexivity|]. exact (skip_step_missing env inbuf b1 Hskip).
Qed.

(** The same for the whole append: a violation is met exactly when one
    error is reported, and the error says which violation it was. *)
Lemma append_violation env fuel index inbuf index' inbuf' ok evs :
  mbox_index_append env fuel index inbuf = Some (index', inbuf', ok) ->
  log index' = log index ++ evs ->
  (count is_set_error evs = 1 <-> violation_met env fuel index inbuf) /\
  (count is_set_error evs = 1 ->
   exists index1 b,
     turn_reached env fuel index inbuf index1 b /\
     ((error index' = Some (from_line_error index) /\
       from_line_missing env fuel b) \/
      (error index' = Some (lf_error index) /\ lf_missing env b))).
Proof.
  intros Hrun Hlog.
  assert (Hc : count is_set_error (log index')
               = count is_set_error (log index) + count is_set_error evs)
    by (rewrite Hlog; apply count_app).
  destruct (append_paths _ _ _ _ _ _ _ Hrun)
    as [(Hend & -> & _ & _)|[(_ & L & -> & _ & _)|(Hne & L & Hloop)]].
  - assert (H0 : count is_set_error evs = 0) by lia.
    rewrite H0. split; [split; [discriminate|]|discriminate].
    intros (index1 & b & (Hne & _) & _). contradiction.
  - cbn [log emit] in Hc. rewrite count_app in Hc. cbn in Hc.
    assert (H0 : count is_set_error evs = 0) by lia.
    rewrite H0. split; [split; [discriminate|]|discriminate].
    intros (index1 & b & (_ & L' & _) & _). congruence.
  - destruct (append_loop_violation _ _ _ _ _ _ _ _ Hloop) as (H1 & H2).
    cbn [log emit] in H1, H2. rewrite count_app in H1, H2.
    cbn in H1, H2.
    assert (Hiff : count is_set_error (log index')
                   = count is_set_error (log index) + 0 + 1
                   <-> count is_set_error evs = 1) by lia.
    split; [split|].
    + intros He. destruct (H1 (proj2 Hiff He)) as (index1 & b & Ht & Hkind).
      exists index1, b. split; [split; [exact Hne|split; [exact L|exact Ht]]|].
      destruct Hkind as [(_ & Hv)|(_ & Hv)]; auto.
    + intros (index1 & b & (_ & _ & Ht) & Hv). apply Hiff. apply H2.
      exists index1, b. auto.
    + intros He. destruct (H1 (proj2 Hiff He)) as (index1 & b & Ht & Hkind).
      exists index1, b. split; [split; [exact Hne|split; [exact L|exact Ht]]|].
      exact Hkind.
Qed.

(** With the flag clear before, it is set after the append exactly when a
    violation was met. *)
Lemma flag_iff_violation env fuel index inbuf index' inbuf' ok :
  mbox_index_append env fuel index inbuf = Some (index', inbuf', ok) ->
  has_flag index (MAIL_INDEX_FLAG_FSCK env) = false ->
  (has_flag index' (MAIL_INDEX_FLAG_FSCK env) = true <->
   violation_met env fuel index inbuf).
Proof.
  intros Hrun Hclear.
  destruct (append_class env fuel index inbuf index' inbuf' ok Hrun)
    as (_ & evs & Hlog & Hcases).
  destruct (append_violation env fuel index inbuf index' inbuf' ok evs
              Hrun Hlog) as (Hmet & _).
  rewrite <- Hmet.
  destruct Hcases as [(He & Hfl & _)|(_ & _ & He & Hfl & _)].
  - rewrite (has_flag_same index index' _ Hfl), Hclear, He.
    split; discriminate.
  - rewrite (has_flag_set index index' _ Hfl), He.
    split; reflexivity.
Qed.

(** C2: starting with the flag clear, [mbox_index_append] leaves
    MAIL_INDEX_FLAG_FSCK set if and only if it met an integrity violation
    on its own stream: it had something to read, got the lock, and in a
    turn of its loop, reached through the messages indexed before, the
    line terminator before a From-line was not found, or the window of the
    From-line loop had no LF, at most 5 bytes, or did not start with
    "From ".  It then has failed, and the error, which names the mailbox
    path and says which of the two it met, is the last thing it did.  A
    lock that is not granted, a failed commit and a failed barrier make it
    fail with the flag and the error untouched.  For one transaction the
    flag is set exactly when its From-line window fails the check, and a
    turn whose line terminator is missing sets it at once. *)
Theorem fsck_iff_integrity_violation env fuel :
  (forall index inbuf index' inbuf' ok,
     mbox_index_append env fuel index inbuf = Some (index', inbuf', ok) ->
     has_flag index (MAIL_INDEX_FLAG_FSCK env) = false ->
     (has_flag index' (MAIL_INDEX_FLAG_FSCK env) = true <->
      violation_met env fuel index inbuf) /\
     exists evs,
       log index' = log index ++ evs /\
       (has_flag index' (MAIL_INDEX_FLAG_FSCK env) = true <->
        count is_set_error evs = 1) /\
       (count is_set_error evs = 1 ->
        ok = false /\ count is_failure evs = 0 /\
        set_flags index' = N.lor (set_flags index) (MAIL_INDEX_FLAG_FSCK env) /\
        exists pre msg,
          evs = pre ++ [EvSetError msg] /\ error index' = Some msg /\
          (exists what,
             msg = ("Error indexing mbox file " ++ mbox_path index ++ what)%string) /\
          exists index1 b,
            turn_reached env fuel index inbuf index1 b /\
            ((msg = from_line_error index /\ from_line_missing env fuel b)
             \/
             (msg = lf_error index /\ lf_missing env b))) /\
       (In (EvSetLock false) evs \/ In (EvUpdateEnd false) evs \/
        In (EvFmsync false) evs ->
        ok = false /\ count is_set_error evs = 0 /\
        has_flag index' (MAIL_INDEX_FLAG_FSCK env) = false /\
        set_flags index' = set_flags index /\ error index' = error index))
  /\
  (forall index inbuf b0 data pos index' inbuf' ok,
     from_line fuel inbuf 0 = Some (b0, data, pos) ->
     mbox_index_append_next env fuel index inbuf = Some (index', inbuf', ok) ->
     has_flag index (MAIL_INDEX_FLAG_FSCK env) = false ->
     (has_flag index' (MAIL_INDEX_FLAG_FSCK env) = true <->
      pos = length data \/ length data <= 5 \/
      firstn 5 data <> bytes "From ") /\
     (has_flag index' (MAIL_INDEX_FLAG_FSCK env) = true ->
      ok = false /\ error index' = Some (from_line_error index)))
  /\
  (forall n index inbuf b',
     start_offset inbuf + offset inbuf <> 0 ->
     mbox_skip_crlf env inbuf = (b', false) ->
     exists index',
       append_loop env (S n) fuel index inbuf = Some (index', b', false) /\
       log index' = log index ++ [EvSetError (lf_error index)] /\
       set_flags index' = N.lor (set_flags index) (MAIL_INDEX_FLAG_FSCK env) /\
       error index' = Some (lf_error index)).
Proof.
  split; [|split].
  - intros index inbuf index' inbuf' ok Hrun Hclear.
    destruct (append_class env fuel index inbuf index' inbuf' ok Hrun)
      as (_ & evs & Hlog & Hcases).
    destruct (append_violation env fuel index inbuf index' inbuf' ok evs
                Hrun Hlog) as (Hmet & Hkind).
    assert (Hflag : has_flag index' (MAIL_INDEX_FLAG_FSCK env) = true <->
                    count is_set_error evs = 1).
    { destruct Hcases as
          [(He & Hfl & _)|(_ & _ & He & Hfl & _)].
      - rewrite (has_flag_same index index' _ Hfl), Hclear, He.
        split; discriminate.
      - rewrite (has_flag_set index index' _ Hfl), He.
        split; reflexivity. }
    split; [now rewrite Hflag|].
    exists evs. split; [assumption|]. split; [exact Hflag|].
    destruct Hcases as
        [(He & Hfl & Herr & Hok)
        |(-> & Hf & He & Hfl & pre & msg & -> & Herr & Hwhy)].
    + rewrite He. split; [discriminate|].
      intros Hin. destruct Hok as [(-> & Hf)|(-> & Hf)].
      * exfalso.
        assert (1 <= count is_failure evs); [|lia].
        destruct Hin as [H|[H|H]]; eapply count_in; eauto.
      * split; [reflexivity|]. split; [reflexivity|].
        split; [now rewrite (has_flag_same index index' _ Hfl)|].
        split; assumption.
    + split.
      * intros _. do 3 (split; [first [reflexivity|assumption]|]).
        exists pre, msg. split; [reflexivity|]. split; [assumption|].
        split; [destruct Hwhy as [(-> & _)|(-> & _)]; eexists; reflexivity|].
        destruct (Hkind He) as (index1 & b & Hreach & Hk).
        exists index1, b. split; [exact Hreach|].
        destruct Hk as [(Hm & Hv)|(Hm & Hv)].
        -- left. split; [congruence|exact Hv].
        -- right. split; [congruence|exact Hv].
      * intros H. exfalso.
        assert (1 <= count is_failure (pre ++ [EvSetError msg])); [|lia].
        destruct H as [H|[H|H]]; eapply count_in; eauto.
  - intros index inbuf b0 data pos index' inbuf' ok Hline Hrun Hclear.
    destruct (append_next_class env fuel index inbuf index' inbuf' ok Hrun)
      as (_ & b0' & data' & pos' & evs & Hline' & Hlog & Hcases).
    rewrite Hline in Hline'. injection Hline' as <- <- <-.
    rewrite <- no_from_line_iff.
    destruct Hcases as
        [(Hchk & _ & Hfl & _)|(Hchk & -> & _ & Hfl & Herr)].
    + rewrite (has_flag_same index index' _ Hfl), Hclear, Hchk.
      split; [split; discriminate|discriminate].
    + rewrite (has_flag_set index index' _ Hfl), Hchk.
      split; [split; reflexivity|auto].
  - intros n index inbuf b' Hstart Hskip. cbn [append_loop].
    apply Nat.eqb_neq in Hstart. rewrite Hstart. cbn [negb].
    rewrite Hskip. cbn [negb]. eexists. split; [reflexivity|].
    repeat split; reflexivity.
Qed.

Lemma fsck_iff_integrity_violation_witness :
  (has_flag (result_index append_no_from) 1 = true <->
   violation_met (test_env 1000 0 true true true true) 50
                 empty_index (open no_from 4)) /\
  exists evs,
    log (result_index append_no_from) = log empty_index ++ evs /\
    (has_flag (result_index append_no_from) 1 = true <->
     count is_set_error evs = 1).
Proof.
  destruct (proj1 (fsck_iff_integrity_violation
                     (test_env 1000 0 true true true true) 50)
                  empty_index (open no_from 4)
                  (result_index append_no_from) (result_inbuf append_no_from)
                  (result_ok append_no_from))
    as (Hmet & evs & Hlog & Hiff & _).
  - vm_compute. reflexivity.
  - vm_compute. reflexivity.
  - split; [exact Hmet|]. exists evs. split; [exact Hlog|exact Hiff].
Defined.

(** The sample mailbox without From-line: the append meets the violation
    in its first turn, on the stream as it was handed over, where the
    window of the From-line loop starts with "Hello". *)
Example no_from_violation :
  violation_met (test_env 1000 0 true true true true) 50
                empty_index (open no_from 4) /\
  has_flag (result_index append_no_from) 1 = true /\
  ~ violation_met (test_env 1000 0 true true true true) 50
                  empty_index (open two_messages 4) /\
  has_flag (result_index append_good) 1 = false.
Proof.
  split; [|split; [vm_compute; reflexivity|split; [|vm_compute; reflexivity]]].
  - apply (flag_iff_violation (test_env 1000 0 true true true true) 50
             empty_index (open no_from 4)
             (result_index append_no_from) (result_inbuf append_no_from)
             (result_ok append_no_from));
      vm_compute; reflexivity.
  - intros Hv.
    apply (flag_iff_violation (test_env 1000 0 true true true true) 50
             empty_index (open two_messages 4)
             (result_index append_good) (result_inbuf append_good)
             (result_ok append_good)) in Hv;
      [vm_compute in Hv; discriminate Hv
      |vm_compute; reflexivity|vm_compute; reflexivity].
Qed.
